(** * greeder: article identity and deduplication engine (store.go, store_state.go)

    A shallow embedding of the SQLite-backed store of greeder: the identity
    normaliser [baseURL] (with the parts of Go's [net/url] and [strings] it
    relies on), the tables of the schema created by [initSchema], and the
    operations [InsertArticles], [MergeDuplicateArticles], [DeleteArticle],
    [UndeleteLast], [ImportState] and [ExportState]. *)

From Stdlib Require Import String Ascii List ZArith Bool Lia Permutation.
Import ListNotations.

Local Open Scope list_scope.
Local Open Scope string_scope.

(* ================================================================= *)
(** ** Bytes and Go strings *)

Module GoStr.

Definition byte (c : ascii) : nat := nat_of_ascii c.

Definition ceq (a b : ascii) : bool := Ascii.eqb a b.

Definition in_range (lo hi : nat) (c : ascii) : bool :=
  Nat.leb lo (byte c) && Nat.leb (byte c) hi.

Definition is_lower (c : ascii) : bool := in_range 97 122 c.
Definition is_upper (c : ascii) : bool := in_range 65 90 c.
Definition is_digit (c : ascii) : bool := in_range 48 57 c.

(** [c] is one of the bytes of [set]. *)
Fixpoint mem (c : ascii) (set : string) : bool :=
  match set with
  | EmptyString => false
  | String d rest => ceq c d || mem c rest
  end.

Fixpoint has_prefix (p s : string) : bool :=
  match p, s with
  | EmptyString, _ => true
  | String a p', String b s' => ceq a b && has_prefix p' s'
  | String _ _, EmptyString => false
  end.

Fixpoint str_take (n : nat) (s : string) : string :=
  match n, s with
  | O, _ => EmptyString
  | S n', String c s' => String c (str_take n' s')
  | S _, EmptyString => EmptyString
  end.

Fixpoint str_drop (n : nat) (s : string) : string :=
  match n, s with
  | O, _ => s
  | S n', String _ s' => str_drop n' s'
  | S _, EmptyString => EmptyString
  end.

Fixpoint str_rev_app (s acc : string) : string :=
  match s with
  | EmptyString => acc
  | String c s' => str_rev_app s' (String c acc)
  end.

Definition str_rev (s : string) : string := str_rev_app s EmptyString.

Definition has_suffix (p s : string) : bool := has_prefix (str_rev p) (str_rev s).

(** [strings.IndexByte]: the first index of [c] in [s]. *)
Fixpoint index_char (c : ascii) (s : string) : option nat :=
  match s with
  | EmptyString => None
  | String d s' =>
      if ceq c d then Some O
      else match index_char c s' with Some i => Some (S i) | None => None end
  end.

(** [strings.LastIndexByte]. *)
Fixpoint last_index_char (c : ascii) (s : string) : option nat :=
  match s with
  | EmptyString => None
  | String d s' =>
      match last_index_char c s' with
      | Some i => Some (S i)
      | None => if ceq c d then Some O else None
      end
  end.

(** [strings.Index] for a non-empty needle. *)
Fixpoint index_str (needle s : string) : option nat :=
  if has_prefix needle s then Some O
  else match s with
       | EmptyString => None
       | String _ s' => match index_str needle s' with Some i => Some (S i) | None => None end
       end.

Definition contains_char (c : ascii) (s : string) : bool := mem c s.

Fixpoint count_char (c : ascii) (s : string) : nat :=
  match s with
  | EmptyString => O
  | String d s' => (if ceq c d then 1 else 0) + count_char c s'
  end.

(** [strings.Cut(s, sep)] for a one-byte separator: before, after, found. *)
Definition cut_char (c : ascii) (s : string) : string * string * bool :=
  match index_char c s with
  | Some i => (str_take i s, str_drop (S i) s, true)
  | None => (s, EmptyString, false)
  end.

(** [strings.ToLower] on the ASCII bytes a URL scheme is made of. *)
Fixpoint to_lower (s : string) : string :=
  match s with
  | EmptyString => EmptyString
  | String c s' =>
      String (if is_upper c then ascii_of_nat (byte c + 32) else c) (to_lower s')
  end.

(** *** [strings.TrimSpace]

    Go trims, on both sides, every rune for which [unicode.IsSpace] holds.
    On the UTF-8 bytes of the string those runes are exactly the following
    encodings: the ASCII bytes TAB, LF, VT, FF, CR and SPACE, U+0085 and
    U+00A0 (two bytes), and U+1680, U+2000..U+200A, U+2028, U+2029, U+202F,
    U+205F, U+3000 (three bytes). An invalid byte decodes to U+FFFD, which
    is not a space, so trimming stops there. *)

Definition ascii_space (c : ascii) : bool :=
  in_range 9 13 c || (Nat.eqb (byte c) 32).

Definition space2 (c1 c2 : ascii) : bool :=
  (Nat.eqb (byte c1) 194) && ((Nat.eqb (byte c2) 133) || (Nat.eqb (byte c2) 160)).

Definition space3 (c1 c2 c3 : ascii) : bool :=
  ((Nat.eqb (byte c1) 225) && (Nat.eqb (byte c2) 154) && (Nat.eqb (byte c3) 128))
  || ((Nat.eqb (byte c1) 226) && (Nat.eqb (byte c2) 128)
      && (in_range 128 138 c3 || (Nat.eqb (byte c3) 168) || (Nat.eqb (byte c3) 169) || (Nat.eqb (byte c3) 175)))
  || ((Nat.eqb (byte c1) 226) && (Nat.eqb (byte c2) 129) && (Nat.eqb (byte c3) 159))
  || ((Nat.eqb (byte c1) 227) && (Nat.eqb (byte c2) 128) && (Nat.eqb (byte c3) 128)).

(** Drop leading space encodings, given how to recognise encodings of one,
    two and three bytes at the head of the string. *)
Fixpoint trim_head (sp1 : ascii -> bool) (sp2 : ascii -> ascii -> bool)
    (sp3 : ascii -> ascii -> ascii -> bool) (s : string) : string :=
  match s with
  | EmptyString => EmptyString
  | String c1 r1 =>
      if sp1 c1 then trim_head sp1 sp2 sp3 r1 else
      match r1 with
      | EmptyString => s
      | String c2 r2 =>
          if sp2 c1 c2 then trim_head sp1 sp2 sp3 r2 else
          match r2 with
          | EmptyString => s
          | String c3 r3 => if sp3 c1 c2 c3 then trim_head sp1 sp2 sp3 r3 else s
          end
      end
  end.

Definition trim_left (s : string) : string := trim_head ascii_space space2 space3 s.

(** On the reversed string the encodings are read last byte first. *)
Definition trim_right (s : string) : string :=
  str_rev (trim_head ascii_space (fun c2 c1 => space2 c1 c2)
                     (fun c3 c2 c1 => space3 c1 c2 c3) (str_rev s)).

Definition TrimSpace (s : string) : string := trim_right (trim_left s).

End GoStr.

Import GoStr.

(* ================================================================= *)
(** ** Go's [net/url]: [Parse] and [URL.String]

    The parts of the Go 1.22 [net/url] package that [baseURL] runs:
    [Parse] (with [getScheme], [parseAuthority], [parseHost], [setPath],
    [setFragment]), [unescape], [escape], [shouldEscape], [validEncoded],
    [EscapedPath], [EscapedFragment] and [String]. The error values are
    collapsed to [None]: [baseURL] only tests [err != nil]. *)

Module NetURL.

Inductive encoding :=
| encodePath | encodePathSegment | encodeHost | encodeZone
| encodeUserPassword | encodeQueryComponent | encodeFragment.

Definition is_host_mode (m : encoding) : bool :=
  match m with encodeHost | encodeZone => true | _ => false end.

Definition ch (n : nat) : ascii := ascii_of_nat n.

Definition ishex (c : ascii) : bool :=
  is_digit c || in_range 97 102 c || in_range 65 70 c.

Definition unhex (c : ascii) : nat :=
  if is_digit c then byte c - 48
  else if in_range 97 102 c then byte c - 87
  else if in_range 65 70 c then byte c - 55
  else 0.

(** The host sub-delimiters, [:], [[], [\]], [<], [>] and the double quote
    (byte 34). *)
Definition host_ok (c : ascii) : bool :=
  mem c "!$&'()*+,;=:[]<>" || Nat.eqb (byte c) 34.

Definition shouldEscape (c : ascii) (mode : encoding) : bool :=
  if is_lower c || is_upper c || is_digit c then false
  else if is_host_mode mode && host_ok c then false
  else if mem c "-_.~" then false
  else if mem c "$&+,/:;=?@" then
    match mode with
    | encodePath => ceq c "?"
    | encodePathSegment => mem c "/;,?"
    | encodeUserPassword => mem c "@/?:"
    | encodeQueryComponent => true
    | encodeFragment => false
    | encodeHost | encodeZone => true
    end
  else if (match mode with encodeFragment => true | _ => false end) && mem c "!()*" then false
  else true.

(** [unescape]: Go validates every escape in a first pass and decodes in a
    second; one pass that fails on the same inputs decodes the same. *)
Fixpoint unescape (s : string) (mode : encoding) : option string :=
  match s with
  | EmptyString => Some EmptyString
  | String c rest =>
      if ceq c "%" then
        match rest with
        | String h1 (String h2 rest') =>
            if ishex h1 && ishex h2 then
              let v := ch (unhex h1 * 16 + unhex h2) in
              if (match mode with encodeHost => true | _ => false end)
                 && Nat.ltb (unhex h1) 8 && negb (ceq h1 "2" && ceq h2 "5")
              then None
              else if (match mode with encodeZone => true | _ => false end)
                      && negb (ceq h1 "2" && ceq h2 "5")
                      && negb (Nat.eqb (byte v) 32) && shouldEscape v encodeHost
              then None
              else match unescape rest' mode with
                   | Some t => Some (String v t)
                   | None => None
                   end
            else None
        | _ => None
        end
      else if ceq c "+" then
        match unescape rest mode with
        | Some t =>
            Some (String (match mode with encodeQueryComponent => " "%char | _ => "+"%char end) t)
        | None => None
        end
      else if is_host_mode mode && Nat.ltb (byte c) 128 && shouldEscape c mode then None
      else match unescape rest mode with
           | Some t => Some (String c t)
           | None => None
           end
  end.

Definition upperhex (n : nat) : ascii := ch (if Nat.ltb n 10 then 48 + n else 55 + n).

Fixpoint escape (s : string) (mode : encoding) : string :=
  match s with
  | EmptyString => EmptyString
  | String c rest =>
      if ceq c " " && (match mode with encodeQueryComponent => true | _ => false end)
      then String "+" (escape rest mode)
      else if shouldEscape c mode
      then String "%" (String (upperhex (byte c / 16)) (String (upperhex (byte c mod 16))
             (escape rest mode)))
      else String c (escape rest mode)
  end.

Fixpoint validEncoded (s : string) (mode : encoding) : bool :=
  match s with
  | EmptyString => true
  | String c rest =>
      (if mem c "!$&'()*+,;=:@[]%" then true else negb (shouldEscape c mode))
      && validEncoded rest mode
  end.

Record Userinfo := mkUserinfo {
  username : string;
  password : string;
  passwordSet : bool
}.

Record URL := mkURL {
  Scheme : string;
  Opaque : string;
  User : option Userinfo;
  Host : string;
  Path : string;
  RawPath : string;
  OmitHost : bool;
  ForceQuery : bool;
  RawQuery : string;
  Fragment : string;
  RawFragment : string
}.

Definition empty_url : URL := mkURL "" "" None "" "" "" false false "" "" "".

Definition stringContainsCTLByte (s : string) : bool :=
  let fix go s := match s with
                  | EmptyString => false
                  | String c r => Nat.ltb (byte c) 32 || Nat.eqb (byte c) 127 || go r
                  end in go s.

Inductive scheme_scan := NoScheme | SchemeErr | SchemeAt (i : nat).

Fixpoint scan_scheme (s : string) (i : nat) : scheme_scan :=
  match s with
  | EmptyString => NoScheme
  | String c rest =>
      if is_lower c || is_upper c then scan_scheme rest (S i)
      else if is_digit c || mem c "+-." then
        (if Nat.eqb i 0 then NoScheme else scan_scheme rest (S i))
      else if ceq c ":" then
        (if Nat.eqb i 0 then SchemeErr else SchemeAt i)
      else NoScheme
  end.

Definition getScheme (raw : string) : option (string * string) :=
  match scan_scheme raw 0 with
  | NoScheme => Some ("", raw)
  | SchemeErr => None
  | SchemeAt i => Some (str_take i raw, str_drop (S i) raw)
  end.

Definition validOptionalPort (port : string) : bool :=
  match port with
  | EmptyString => true
  | String c rest =>
      ceq c ":" &&
      (let fix digits s := match s with
                           | EmptyString => true
                           | String d r => is_digit d && digits r
                           end in digits rest)
  end.

Definition parseHost (host : string) : option string :=
  if has_prefix "[" host then
    match last_index_char "]" host with
    | None => None
    | Some i =>
        if negb (validOptionalPort (str_drop (S i) host)) then None else
        match index_str "%25" (str_take i host) with
        | Some zone =>
            match unescape (str_take zone host) encodeHost,
                  unescape (str_drop zone (str_take i host)) encodeZone,
                  unescape (str_drop i host) encodeHost with
            | Some h1, Some h2, Some h3 => Some (h1 ++ h2 ++ h3)
            | _, _, _ => None
            end
        | None => unescape host encodeHost
        end
    end
  else
    match last_index_char ":" host with
    | Some i =>
        if negb (validOptionalPort (str_drop i host)) then None
        else unescape host encodeHost
    | None => unescape host encodeHost
    end.

Definition validUserinfo (s : string) : bool :=
  let fix go s := match s with
                  | EmptyString => true
                  | String c r =>
                      (is_upper c || is_lower c || is_digit c || mem c "-._:~!$&'()*+,;=%@")
                      && go r
                  end in go s.

Definition parseAuthority (authority : string) : option (option Userinfo * string) :=
  let i := last_index_char "@" authority in
  let hostpart := match i with None => authority | Some i => str_drop (S i) authority end in
  match parseHost hostpart with
  | None => None
  | Some host =>
      match i with
      | None => Some (None, host)
      | Some i =>
          let userinfo := str_take i authority in
          if negb (validUserinfo userinfo) then None
          else if negb (contains_char ":" userinfo) then
            match unescape userinfo encodeUserPassword with
            | Some u => Some (Some (mkUserinfo u "" false), host)
            | None => None
            end
          else
            let '(name, pass, _) := cut_char ":" userinfo in
            match unescape name encodeUserPassword, unescape pass encodeUserPassword with
            | Some n, Some p => Some (Some (mkUserinfo n p true), host)
            | _, _ => None
            end
      end
  end.

Definition setPath (u : URL) (p : string) : option URL :=
  match unescape p encodePath with
  | None => None
  | Some path =>
      Some {| Scheme := Scheme u; Opaque := Opaque u; User := User u; Host := Host u;
              Path := path;
              RawPath := if String.eqb p (escape path encodePath) then "" else p;
              OmitHost := OmitHost u; ForceQuery := ForceQuery u; RawQuery := RawQuery u;
              Fragment := Fragment u; RawFragment := RawFragment u |}
  end.

(** [parse(rawURL, viaRequest=false)]. *)
Definition parse (rawURL : string) : option URL :=
  if stringContainsCTLByte rawURL then None
  else if String.eqb rawURL "*" then
    Some {| Scheme := ""; Opaque := ""; User := None; Host := ""; Path := "*"; RawPath := "";
            OmitHost := false; ForceQuery := false; RawQuery := ""; Fragment := "";
            RawFragment := "" |}
  else
  match getScheme rawURL with
  | None => None
  | Some (scheme0, rest0) =>
      let scheme := to_lower scheme0 in
      let '(force, rest, rawq) :=
        if has_suffix "?" rest0 && Nat.eqb (count_char "?" rest0) 1
        then (true, str_take (String.length rest0 - 1) rest0, "")
        else let '(b, a, _) := cut_char "?" rest0 in (false, b, a) in
      let base := {| Scheme := scheme; Opaque := ""; User := None; Host := ""; Path := "";
                     RawPath := ""; OmitHost := false; ForceQuery := force; RawQuery := rawq;
                     Fragment := ""; RawFragment := "" |} in
      if negb (has_prefix "/" rest) && negb (String.eqb scheme "") then
        Some {| Scheme := scheme; Opaque := rest; User := None; Host := ""; Path := "";
                RawPath := ""; OmitHost := false; ForceQuery := force; RawQuery := rawq;
                Fragment := ""; RawFragment := "" |}
      else if negb (has_prefix "/" rest)
              && contains_char ":" (let '(seg, _, _) := cut_char "/" rest in seg) then None
      else if (negb (String.eqb scheme "") || negb (has_prefix "///" rest))
              && has_prefix "//" rest then
        let authority0 := str_drop 2 rest in
        let '(authority, rest') :=
          match index_char "/" authority0 with
          | Some i => (str_take i authority0, str_drop i authority0)
          | None => (authority0, "")
          end in
        match parseAuthority authority with
        | None => None
        | Some (user, host) =>
            setPath {| Scheme := scheme; Opaque := ""; User := user; Host := host; Path := "";
                       RawPath := ""; OmitHost := false; ForceQuery := force; RawQuery := rawq;
                       Fragment := ""; RawFragment := "" |} rest'
        end
      else
        setPath {| Scheme := scheme; Opaque := ""; User := None; Host := ""; Path := "";
                   RawPath := "";
                   OmitHost := negb (String.eqb scheme "") && has_prefix "/" rest;
                   ForceQuery := force; RawQuery := rawq; Fragment := ""; RawFragment := "" |}
                rest
  end.

Definition setFragment (u : URL) (f : string) : option URL :=
  match unescape f encodeFragment with
  | None => None
  | Some frag =>
      Some {| Scheme := Scheme u; Opaque := Opaque u; User := User u; Host := Host u;
              Path := Path u; RawPath := RawPath u; OmitHost := OmitHost u;
              ForceQuery := ForceQuery u; RawQuery := RawQuery u; Fragment := frag;
              RawFragment := if String.eqb f (escape frag encodeFragment) then "" else f |}
  end.

(** [url.Parse]. *)
Definition Parse (rawURL : string) : option URL :=
  let '(u, frag, _) := cut_char "#" rawURL in
  match parse u with
  | None => None
  | Some url => if String.eqb frag "" then Some url else setFragment url frag
  end.

Definition EscapedPath (u : URL) : string :=
  if negb (String.eqb (RawPath u) "") && validEncoded (RawPath u) encodePath
     && (match unescape (RawPath u) encodePath with
         | Some p => String.eqb p (Path u) | None => false end)
  then RawPath u
  else if String.eqb (Path u) "*" then "*"
  else escape (Path u) encodePath.

Definition EscapedFragment (u : URL) : string :=
  if negb (String.eqb (RawFragment u) "") && validEncoded (RawFragment u) encodeFragment
     && (match unescape (RawFragment u) encodeFragment with
         | Some f => String.eqb f (Fragment u) | None => false end)
  then RawFragment u
  else escape (Fragment u) encodeFragment.

Definition userinfo_String (ui : Userinfo) : string :=
  escape (username ui) encodeUserPassword
  ++ (if passwordSet ui then ":" ++ escape (password ui) encodeUserPassword else "").

(** [URL.String]. *)
Definition String_ (u : URL) : string :=
  let pre := if String.eqb (Scheme u) "" then "" else Scheme u ++ ":" in
  let body :=
    if negb (String.eqb (Opaque u) "") then Opaque u
    else
      let auth :=
        if negb (String.eqb (Scheme u) "") || negb (String.eqb (Host u) "")
           || (match User u with Some _ => true | None => false end) then
          if OmitHost u && String.eqb (Host u) "" && (match User u with None => true | _ => false end)
          then ""
          else (if negb (String.eqb (Host u) "") || negb (String.eqb (Path u) "")
                   || (match User u with Some _ => true | None => false end)
                then "//" else "")
               ++ (match User u with Some ui => userinfo_String ui ++ "@" | None => "" end)
               ++ (if String.eqb (Host u) "" then "" else escape (Host u) encodeHost)
        else "" in
      let path := EscapedPath u in
      let slash := if negb (String.eqb path "") && negb (has_prefix "/" path)
                      && negb (String.eqb (Host u) "") then "/" else "" in
      let dot := if String.eqb (pre ++ auth ++ slash) ""
                    && contains_char ":" (let '(seg, _, _) := cut_char "/" path in seg)
                 then "./" else "" in
      auth ++ slash ++ dot ++ path in
  pre ++ body
  ++ (if ForceQuery u || negb (String.eqb (RawQuery u) "") then "?" ++ RawQuery u else "")
  ++ (if String.eqb (Fragment u) "" then "" else "#" ++ EscapedFragment u).

End NetURL.

(* ================================================================= *)
(** ** The identity normaliser (store.go, [baseURL]) *)

(** [parsed.RawQuery = ""; parsed.Fragment = ""]. *)
Definition strip_query_fragment (u : NetURL.URL) : NetURL.URL :=
  {| NetURL.Scheme := NetURL.Scheme u; NetURL.Opaque := NetURL.Opaque u;
     NetURL.User := NetURL.User u; NetURL.Host := NetURL.Host u; NetURL.Path := NetURL.Path u;
     NetURL.RawPath := NetURL.RawPath u; NetURL.OmitHost := NetURL.OmitHost u;
     NetURL.ForceQuery := NetURL.ForceQuery u; NetURL.RawQuery := "";
     NetURL.Fragment := ""; NetURL.RawFragment := NetURL.RawFragment u |}.

Definition baseURL (raw0 : string) : string :=
  let raw := TrimSpace raw0 in
  if String.eqb raw "" then ""
  else match NetURL.Parse raw with
       | None => raw
       | Some parsed => NetURL.String_ (strip_query_fragment parsed)
       end.


(* ================================================================= *)
(** ** Go values: [time.Time] and the structs of tui_charm.go *)

(** A [time.Time]: its instant, in nanoseconds from the Unix epoch, and its
    location. [UTC] is the nil [*Location] that [time.Time{}] and [t.UTC()]
    carry; the monotonic clock reading is not kept, since the store reads a
    time only through [IsZero], [Unix] and [Add]. *)
Inductive location := UTC | Location (name : string).

Record time := mkTime { unix_nano : Z; loc : location }.

Definition nano_per_sec : Z := 1000000000%Z.

(** The zero [time.Time]: January 1, year 1, 00:00:00 UTC. *)
Definition zero_time : time := mkTime (-62135596800 * nano_per_sec)%Z UTC.

(** [t.IsZero()]: the instant of [time.Time{}], in any location. *)
Definition IsZero (t : time) : bool := Z.eqb (unix_nano t) (unix_nano zero_time).

(** [t.Unix()]: the Unix second, rounded down. *)
Definition Unix (t : time) : Z := (unix_nano t / nano_per_sec)%Z.

(** Seconds from January 1, year 1 to the Unix epoch. *)
Definition year1_sec : Z := 62135596800%Z.

(** [t.Add(d)], [d] a [time.Duration] in nanoseconds: Go keeps the seconds
    from January 1, year 1 in an [int64] and saturates them at
    [2^63 - 1] or [-(2^63 - 1)] when the sum overflows. *)
Definition time_add (t : time) (d : Z) : time :=
  let total := (unix_nano t + d)%Z in
  let ext := (total / nano_per_sec + year1_sec)%Z in
  let ext := if Z.ltb (2 ^ 63 - 1) ext then (2 ^ 63 - 1)%Z
             else if Z.ltb ext (- 2 ^ 63) then (- (2 ^ 63 - 1))%Z else ext in
  mkTime ((ext - year1_sec) * nano_per_sec + total mod nano_per_sec)%Z (loc t).

Definition timeToUnix (value : time) : Z := if IsZero value then 0%Z else Unix value.

(** [time.Unix(s, 0).UTC()]. It is also how the examples below write a
    time, as a coercion from its Unix second. *)
Definition unix_time (s : Z) : time := mkTime (s * nano_per_sec)%Z UTC.
Coercion unix_time : Z >-> time.

(** [timeFromUnix] reads a nullable INTEGER column; NULL and 0 are read
    alike, so a column is modelled by a [Z] holding 0 for NULL. *)
Definition timeFromUnix (value : Z) : time :=
  if Z.eqb value 0 then zero_time else unix_time value.

Definition boolToInt (value : bool) : Z := if value then 1%Z else 0%Z.
Definition intToBool (value : Z) : bool := negb (Z.eqb value 0).

Module Art.
Record Article := mkArticle {
  ID : Z; FeedID : Z; GUID : string; Title : string; URL : string; BaseURL : string;
  Author : string; Content : string; ContentText : string;
  PublishedAt : time; FetchedAt : time; IsRead : bool; IsStarred : bool; FeedTitle : string
}.
End Art.
Abbreviation Article := Art.Article.

Module Fd.
Record Feed := mkFeed {
  ID : Z; Title : string; URL : string; SiteURL : string; Description : string;
  LastFetched : time; CreatedAt : time; UpdatedAt : time
}.
End Fd.
Abbreviation Feed := Fd.Feed.

Module Sm.
Record Summary := mkSummary {
  ID : Z; ArticleID : Z; Content : string; Model : string; GeneratedAt : time
}.
End Sm.
Abbreviation Summary := Sm.Summary.

Module Sv.
Record Saved := mkSaved {
  ArticleID : Z; RaindropID : Z; Tags : list string; SavedAt : time
}.
End Sv.
Abbreviation Saved := Sv.Saved.

Module Dl.
Record Deleted := mkDeleted {
  FeedID : Z; GUID : string; Article : Art.Article; DeletedAt : time
}.
End Dl.
Abbreviation Deleted := Dl.Deleted.

(** [article] with a new [ID], [BaseURL] or flags (Go field assignments). *)
Definition set_ID (a : Article) (id : Z) : Article :=
  Art.mkArticle id (Art.FeedID a) (Art.GUID a) (Art.Title a) (Art.URL a) (Art.BaseURL a)
    (Art.Author a) (Art.Content a) (Art.ContentText a) (Art.PublishedAt a) (Art.FetchedAt a)
    (Art.IsRead a) (Art.IsStarred a) (Art.FeedTitle a).

Definition set_BaseURL (a : Article) (b : string) : Article :=
  Art.mkArticle (Art.ID a) (Art.FeedID a) (Art.GUID a) (Art.Title a) (Art.URL a) b
    (Art.Author a) (Art.Content a) (Art.ContentText a) (Art.PublishedAt a) (Art.FetchedAt a)
    (Art.IsRead a) (Art.IsStarred a) (Art.FeedTitle a).

(* ================================================================= *)
(** ** The tables (store.go, [initSchema]) *)

(** A row of [articles]; [base_url] is the one column the code leaves NULL
    (it was added by [ALTER TABLE] and [ImportState] does not write it). *)
Record article_row := mkArticleRow {
  ar_id : Z; ar_feed_id : Z; ar_guid : string; ar_title : string; ar_url : string;
  ar_base_url : option string; ar_author : string; ar_content : string;
  ar_content_text : string; ar_published_at : Z; ar_fetched_at : Z;
  ar_is_read : Z; ar_is_starred : Z; ar_feed_title : string
}.

Record deleted_row := mkDeletedRow {
  dr_id : Z; dr_feed_id : Z; dr_guid : string; dr_title : string; dr_url : string;
  dr_base_url : option string; dr_author : string; dr_content : string;
  dr_content_text : string; dr_published_at : Z; dr_fetched_at : Z;
  dr_is_read : Z; dr_is_starred : Z; dr_feed_title : string; dr_deleted_at : Z
}.

Record feed_row := mkFeedRow {
  fr_id : Z; fr_title : string; fr_url : string; fr_site_url : string;
  fr_description : string; fr_last_fetched : Z; fr_created_at : Z; fr_updated_at : Z
}.

Record summary_row := mkSummaryRow {
  sr_id : Z; sr_article_id : Z; sr_content : string; sr_model : string; sr_generated_at : Z
}.

Record saved_row := mkSavedRow {
  sv_article_id : Z; sv_raindrop_id : Z; sv_tags : string; sv_saved_at : Z
}.

Record source_row := mkSourceRow {
  src_article_id : Z; src_feed_id : Z; src_published_at : Z
}.

(** The database: every table as the list of its rows in rowid order, and
    the rowid the engine draws at random for a table whose largest rowid is
    already [2^63 - 1] (see [new_rowid]), given the rowids of the table. *)
Record DB := mkDB {
  feeds : list feed_row;
  articles : list article_row;
  summaries : list summary_row;
  saved : list saved_row;
  deleted : list deleted_row;
  article_sources : list source_row;
  rowid_draw : list Z -> option Z
}.

Definition with_articles (db : DB) (l : list article_row) : DB :=
  mkDB (feeds db) l (summaries db) (saved db) (deleted db) (article_sources db) (rowid_draw db).
Definition with_summaries (db : DB) (l : list summary_row) : DB :=
  mkDB (feeds db) (articles db) l (saved db) (deleted db) (article_sources db) (rowid_draw db).
Definition with_saved (db : DB) (l : list saved_row) : DB :=
  mkDB (feeds db) (articles db) (summaries db) l (deleted db) (article_sources db) (rowid_draw db).
Definition with_deleted (db : DB) (l : list deleted_row) : DB :=
  mkDB (feeds db) (articles db) (summaries db) (saved db) l (article_sources db) (rowid_draw db).
Definition with_sources (db : DB) (l : list source_row) : DB :=
  mkDB (feeds db) (articles db) (summaries db) (saved db) (deleted db) l (rowid_draw db).
Definition with_feeds (db : DB) (l : list feed_row) : DB :=
  mkDB l (articles db) (summaries db) (saved db) (deleted db) (article_sources db) (rowid_draw db).

(** One more than the largest rowid of a table, 1 for an empty table. *)
Definition next_rowid (ids : list Z) : Z :=
  match ids with
  | [] => 1%Z
  | i :: rest => (fold_right Z.max i rest + 1)%Z
  end.

(** The largest rowid, [2^63 - 1]. *)
Definition MAX_ROWID : Z := (2 ^ 63 - 1)%Z.

(** The rowid SQLite gives a row inserted without one ([OP_NewRowid]):
    [next_rowid], unless the largest rowid is already [MAX_ROWID]; then it
    draws random candidates in [1, 2^62] until one is unused, and fails with
    [SQLITE_FULL] after 100 tries. [draw] is that draw: any answer that is
    not an unused rowid of that range stands for the failure. *)
Definition new_rowid (draw : list Z -> option Z) (ids : list Z) : option Z :=
  if forallb (fun i => Z.ltb i MAX_ROWID) ids then Some (next_rowid ids) else
  match draw ids with
  | Some v => if Z.leb 1 v && Z.leb v (2 ^ 62) && negb (existsb (Z.eqb v) ids)
              then Some v else None
  | None => None
  end.

(** The error of [SQLITE_FULL]. *)
Definition sqlite_full : string := "database or disk is full".

(** An [INSERT] with an [INTEGER PRIMARY KEY]: the row takes its place in
    rowid order. *)
Fixpoint insert_by_key {R} (key : R -> Z) (r : R) (l : list R) : list R :=
  match l with
  | [] => [r]
  | x :: rest => if Z.ltb (key r) (key x) then r :: l else x :: insert_by_key key r rest
  end.

(* ================================================================= *)
(** ** Statements and transactions

    A statement runs against the database and either succeeds, with a value
    and the database it leaves, or fails with an error. Storage failures
    ([SQLITE_BUSY], I/O errors, and the fault-injection hooks of store.go
    such as [beginTx], [commitTx] and [lastInsertID]) are given by an oracle
    [fault] that says which statements fail; constraint violations of the
    schema are decided by the rows. *)

Inductive result (A : Type) : Type :=
| Ok (a : A)
| Err (e : string).
Arguments Ok {A} a.
Arguments Err {A} e.

Definition TxM (A : Type) : Type := DB -> result (A * DB).

Definition ret {A} (a : A) : TxM A := fun db => Ok (a, db).

Definition bind {A B} (m : TxM A) (k : A -> TxM B) : TxM B :=
  fun db => match m db with
            | Ok (a, db') => k a db'
            | Err e => Err e
            end.

Definition throw {A} (e : string) : TxM A := fun _ => Err e.

Notation "x <- m ;; k" := (bind m (fun x => k))
  (at level 61, m at next level, right associativity).
Notation "m ;; k" := (bind m (fun _ => k))
  (at level 61, right associativity).

(** Rows of a table. *)
Definition opt_str_eqb (o : option string) (s : string) : bool :=
  match o with Some t => String.eqb t s | None => false end.

Definition article_exists (db : DB) (id : Z) : bool :=
  existsb (fun r => Z.eqb (ar_id r) id) (articles db).

Definition feed_exists (db : DB) (id : Z) : bool :=
  existsb (fun f => Z.eqb (fr_id f) id) (feeds db).

Definition source_exists (db : DB) (a f : Z) : bool :=
  existsb (fun s => Z.eqb (src_article_id s) a && Z.eqb (src_feed_id s) f) (article_sources db).

(** [DELETE FROM articles WHERE id = ?], with the [ON DELETE CASCADE] of
    [summaries], [saved] and [article_sources]. *)
Definition delete_article_cascade (id : Z) (db : DB) : DB :=
  mkDB (feeds db)
       (filter (fun r => negb (Z.eqb (ar_id r) id)) (articles db))
       (filter (fun s => negb (Z.eqb (sr_article_id s) id)) (summaries db))
       (filter (fun s => negb (Z.eqb (sv_article_id s) id)) (saved db))
       (deleted db)
       (filter (fun s => negb (Z.eqb (src_article_id s) id)) (article_sources db))
       (rowid_draw db).

(** [INSERT INTO articles] without an id: the new row takes [new_rowid];
    [UNIQUE(feed_id, guid)] is checked. *)
Definition insert_article_auto (mk : Z -> article_row) (db : DB) : result (Z * DB) :=
  match new_rowid (rowid_draw db) (map ar_id (articles db)) with
  | None => Err sqlite_full
  | Some id =>
      let r := mk id in
      if existsb (fun x => Z.eqb (ar_feed_id x) (ar_feed_id r) && String.eqb (ar_guid x) (ar_guid r))
                 (articles db)
      then Err "UNIQUE constraint failed: articles.feed_id, articles.guid"
      else Ok (id, with_articles db (insert_by_key ar_id r (articles db)))
  end.

(** The row [InsertArticles] and [UndeleteLast] write for an [Article]. *)
Definition article_row_of (a : Article) (id : Z) : article_row :=
  mkArticleRow id (Art.FeedID a) (Art.GUID a) (Art.Title a) (Art.URL a) (Some (Art.BaseURL a))
    (Art.Author a) (Art.Content a) (Art.ContentText a)
    (timeToUnix (Art.PublishedAt a)) (timeToUnix (Art.FetchedAt a))
    (boolToInt (Art.IsRead a)) (boolToInt (Art.IsStarred a)) (Art.FeedTitle a).

(** [scanArticle]: a NULL [base_url] cannot be scanned into a Go string. *)
Definition scanArticle (r : article_row) : option Article :=
  match ar_base_url r with
  | None => None
  | Some b =>
      Some (Art.mkArticle (ar_id r) (ar_feed_id r) (ar_guid r) (ar_title r) (ar_url r) b
              (ar_author r) (ar_content r) (ar_content_text r)
              (timeFromUnix (ar_published_at r)) (timeFromUnix (ar_fetched_at r))
              (negb (Z.eqb (ar_is_read r) 0)) (negb (Z.eqb (ar_is_starred r) 0))
              (ar_feed_title r))
  end.

(** [scanDeleted]: the tombstone id and the article it holds. *)
Definition scanDeleted (r : deleted_row) : option (Z * Article) :=
  match dr_base_url r with
  | None => None
  | Some b =>
      Some (dr_id r,
            Art.mkArticle 0 (dr_feed_id r) (dr_guid r) (dr_title r) (dr_url r) b
              (dr_author r) (dr_content r) (dr_content_text r)
              (timeFromUnix (dr_published_at r)) (timeFromUnix (dr_fetched_at r))
              (negb (Z.eqb (dr_is_read r) 0)) (negb (Z.eqb (dr_is_starred r) 0))
              (dr_feed_title r))
  end.

(** [ExportState], the snapshot store_state.go writes as JSON. *)
Module St.
Record ExportState := mkExportState {
  Version : Z; ExportedAt : time; Feeds : list Feed; Articles : list Article;
  Summaries : list Summary; Saved : list Saved; Deleted : list Deleted
}.
End St.

Section Store.

(** Which statements the storage engine fails, given the statement and the
    database it runs on. *)
Variable fault : string -> DB -> bool.

Definition exec {A} (sql : string) (f : DB -> result (A * DB)) : TxM A :=
  fun db => if fault sql db then Err sql else f db.

(** [rows.Next()]: [false] at the end of the rows and also when the
    iteration fails; the loops of store.go never read [rows.Err()]. *)
Definition rows_next : TxM bool := fun db => Ok (negb (fault "rows.Next" db), db).

(** [for rows.Next() { rows.Scan(...) }] collecting every row read. *)
Fixpoint collect {R} (rows : list R) : TxM (list R) :=
  match rows with
  | [] => ret []
  | r :: rest =>
      more <- rows_next ;;
      if more then (rs <- collect rest ;; ret (r :: rs)) else ret []
  end.

(** [beginTx], the body, then [commitTx]; the deferred [tx.Rollback()]
    discards every write of the body when it fails or the commit fails. *)
Definition transact {A} (body : TxM A) (db : DB) : DB * result A :=
  if fault "BEGIN" db then (db, Err "BEGIN") else
  match body db with
  | Err e => (db, Err e)
  | Ok (a, db') => if fault "COMMIT" db' then (db, Err "COMMIT") else (db', Ok a)
  end.

(** A statement run on [s.db] outside any transaction: it commits alone. *)
Definition autocommit {A} (m : TxM A) (db : DB) : DB * result A :=
  match m db with
  | Ok (a, db') => (db', Ok a)
  | Err e => (db, Err e)
  end.

(* ----------------------------------------------------------------- *)
(** *** [findArticleIDByBaseURL] and [ensureArticleSource] *)

Definition findArticleIDByBaseURL (base : string) : TxM Z :=
  if String.eqb (TrimSpace base) "" then ret 0%Z else
  exec "SELECT id FROM articles WHERE base_url = ? LIMIT 1"
    (fun db => Ok (match find (fun r => opt_str_eqb (ar_base_url r) base) (articles db) with
                   | Some r => ar_id r
                   | None => 0%Z
                   end, db)).

(** [article_sources] has only SQLite's implicit rowid, which the code never
    sets: a new row gets one more than the largest, and goes last. *)
Definition ensureArticleSource (articleID feedID : Z) (publishedAt : time) : TxM unit :=
  found <- exec "SELECT 1 FROM article_sources WHERE article_id = ? AND feed_id = ?"
             (fun db => Ok (source_exists db articleID feedID, db)) ;;
  if found then
    if IsZero publishedAt then ret tt else
    exec "UPDATE article_sources SET published_at = ? WHERE article_id = ? AND feed_id = ? AND (published_at IS NULL OR published_at = 0)"
      (fun db => Ok (tt, with_sources db
         (map (fun s => if Z.eqb (src_article_id s) articleID && Z.eqb (src_feed_id s) feedID
                           && Z.eqb (src_published_at s) 0
                        then mkSourceRow (src_article_id s) (src_feed_id s) (timeToUnix publishedAt)
                        else s) (article_sources db))))
  else
    exec "INSERT INTO article_sources (article_id, feed_id, published_at) VALUES (?, ?, ?)"
      (fun db =>
         if negb (article_exists db articleID) || negb (feed_exists db feedID)
         then Err "FOREIGN KEY constraint failed"
         else Ok (tt, with_sources db (article_sources db
                         ++ [mkSourceRow articleID feedID (timeToUnix publishedAt)]))).

(* ----------------------------------------------------------------- *)
(** *** [InsertArticles] (store.go) *)

Definition set_GUID (a : Article) (g : string) : Article :=
  Art.mkArticle (Art.ID a) (Art.FeedID a) g (Art.Title a) (Art.URL a) (Art.BaseURL a)
    (Art.Author a) (Art.Content a) (Art.ContentText a) (Art.PublishedAt a) (Art.FetchedAt a)
    (Art.IsRead a) (Art.IsStarred a) (Art.FeedTitle a).

(** The base identity [InsertArticles] derives for a URL. *)
Definition ingest_base (u : string) : string :=
  let b := baseURL u in if String.eqb b "" then u else b.

(** [if article.GUID == "" { article.GUID = article.URL }] and
    [article.BaseURL = ...]. *)
Definition normalize_incoming (a : Article) : Article :=
  let a1 := if String.eqb (Art.GUID a) "" then set_GUID a (Art.URL a) else a in
  set_BaseURL a1 (ingest_base (Art.URL a1)).

(** [article.FeedID], [article.FeedTitle] and a zero [FetchedAt]. *)
Definition claim_for_feed (feed : Feed) (now : time) (a : Article) : Article :=
  Art.mkArticle (Art.ID a) (Fd.ID feed) (Art.GUID a) (Art.Title a) (Art.URL a) (Art.BaseURL a)
    (Art.Author a) (Art.Content a) (Art.ContentText a) (Art.PublishedAt a)
    (if IsZero (Art.FetchedAt a) then now else Art.FetchedAt a)
    (Art.IsRead a) (Art.IsStarred a) (Fd.Title feed).

Definition select_guids_articles (feedID : Z) : TxM (list string) :=
  rows <- exec "SELECT guid FROM articles WHERE feed_id = ?"
            (fun db => Ok (map ar_guid (filter (fun r => Z.eqb (ar_feed_id r) feedID)
                                               (articles db)), db)) ;;
  collect rows.

Definition select_guids_deleted (feedID : Z) : TxM (list string) :=
  rows <- exec "SELECT guid FROM deleted WHERE feed_id = ?"
            (fun db => Ok (map dr_guid (filter (fun r => Z.eqb (dr_feed_id r) feedID)
                                               (deleted db)), db)) ;;
  collect rows.

Definition insert_article_stmt (a : Article) : TxM Z :=
  exec "INSERT INTO articles (feed_id, guid, title, url, base_url, author, content, content_text, published_at, fetched_at, is_read, is_starred, feed_title) VALUES (?, ?, ?, ?, ?, ?, ?, ?, ?, ?, ?, ?, ?)"
    (insert_article_auto (article_row_of a)).

Definition lastInsertID (id : Z) : TxM Z := exec "lastInsertID" (fun db => Ok (id, db)).

(** The [for _, article := range incoming] loop; [seen] is the Go map
    [map[string]bool], kept as the list of its keys. *)
Fixpoint insert_loop (feed : Feed) (now : time) (seen : list string) (added : list Article)
    (incoming : list Article) : TxM (list Article) :=
  match incoming with
  | [] => ret added
  | article0 :: rest =>
      let article := normalize_incoming article0 in
      if existsb (String.eqb (Art.GUID article)) seen
      then insert_loop feed now seen added rest
      else
        let seen' := Art.GUID article :: seen in
        let article := claim_for_feed feed now article in
        existingID <- findArticleIDByBaseURL (Art.BaseURL article) ;;
        if negb (Z.eqb existingID 0) then
          ensureArticleSource existingID (Fd.ID feed) (Art.PublishedAt article) ;;
          insert_loop feed now seen' added rest
        else
          r <- insert_article_stmt article ;;
          id <- lastInsertID r ;;
          ensureArticleSource id (Fd.ID feed) (Art.PublishedAt article) ;;
          insert_loop feed now seen' (added ++ [set_ID article id]) rest
  end.

Definition touch_feed (feedID : Z) (now : time) : TxM unit :=
  exec "UPDATE feeds SET last_fetched = ?, updated_at = ? WHERE id = ?"
    (fun db => Ok (tt, with_feeds db
       (map (fun f => if Z.eqb (fr_id f) feedID
                      then mkFeedRow (fr_id f) (fr_title f) (fr_url f) (fr_site_url f)
                             (fr_description f) (timeToUnix now) (fr_created_at f) (timeToUnix now)
                      else f) (feeds db)))).

Definition InsertArticles_body (feed : Feed) (now : time) (incoming : list Article)
    : TxM (list Article) :=
  g1 <- select_guids_articles (Fd.ID feed) ;;
  g2 <- select_guids_deleted (Fd.ID feed) ;;
  added <- insert_loop feed now (g1 ++ g2) [] incoming ;;
  touch_feed (Fd.ID feed) now ;;
  ret added.

(** [func (s *Store) InsertArticles(feed Feed, incoming []Article)]; [now]
    is the value of [time.Now().UTC()] during the call. *)
Definition InsertArticles (feed : Feed) (now : time) (incoming : list Article)
    : DB -> DB * result (list Article) :=
  transact (InsertArticles_body feed now incoming).


(* ----------------------------------------------------------------- *)
(** *** [MergeDuplicateArticles] and [existsByID] (store.go) *)

Definition existsByID (table : string) (articleID : Z) : TxM bool :=
  exec ("SELECT 1 FROM " ++ table ++ " WHERE article_id = ? LIMIT 1")
    (fun db =>
       if String.eqb table "summaries"
       then Ok (existsb (fun s => Z.eqb (sr_article_id s) articleID) (summaries db), db)
       else if String.eqb table "saved"
       then Ok (existsb (fun s => Z.eqb (sv_article_id s) articleID) (saved db), db)
       else Err ("no such table: " ++ table)).

(** [UPDATE summaries SET article_id = ? WHERE article_id = ?], under
    [article_id UNIQUE] and the foreign key to [articles]. *)
Definition move_summaries (existingID id : Z) (db : DB) : result (unit * DB) :=
  if negb (existsb (fun s => Z.eqb (sr_article_id s) id) (summaries db)) || Z.eqb existingID id
  then Ok (tt, db)
  else if existsb (fun s => Z.eqb (sr_article_id s) existingID) (summaries db)
  then Err "UNIQUE constraint failed: summaries.article_id"
  else if negb (article_exists db existingID) then Err "FOREIGN KEY constraint failed"
  else Ok (tt, with_summaries db
         (map (fun s => if Z.eqb (sr_article_id s) id
                        then mkSummaryRow (sr_id s) existingID (sr_content s) (sr_model s)
                               (sr_generated_at s)
                        else s) (summaries db))).

(** [UPDATE saved SET article_id = ? WHERE article_id = ?]; [article_id] is
    the primary key of [saved]. *)
Definition move_saved (existingID id : Z) (db : DB) : result (unit * DB) :=
  if negb (existsb (fun s => Z.eqb (sv_article_id s) id) (saved db)) || Z.eqb existingID id
  then Ok (tt, db)
  else if existsb (fun s => Z.eqb (sv_article_id s) existingID) (saved db)
  then Err "UNIQUE constraint failed: saved.article_id"
  else if negb (article_exists db existingID) then Err "FOREIGN KEY constraint failed"
  else Ok (tt, with_saved db
         (map (fun s => if Z.eqb (sv_article_id s) id
                        then mkSavedRow existingID (sv_raindrop_id s) (sv_tags s) (sv_saved_at s)
                        else s) (saved db))).

Definition delete_summaries_of (id : Z) (db : DB) : DB :=
  with_summaries db (filter (fun s => negb (Z.eqb (sr_article_id s) id)) (summaries db)).

Definition delete_saved_of (id : Z) (db : DB) : DB :=
  with_saved db (filter (fun s => negb (Z.eqb (sv_article_id s) id)) (saved db)).

Definition set_base_url (id : Z) (b : string) (db : DB) : DB :=
  with_articles db
    (map (fun r => if Z.eqb (ar_id r) id
                   then mkArticleRow (ar_id r) (ar_feed_id r) (ar_guid r) (ar_title r) (ar_url r)
                          (Some b) (ar_author r) (ar_content r) (ar_content_text r)
                          (ar_published_at r) (ar_fetched_at r) (ar_is_read r)
                          (ar_is_starred r) (ar_feed_title r)
                   else r) (articles db)).

(** The identity [MergeDuplicateArticles] recomputes for a row. *)
Definition merge_identity (urlValue baseValue : string) : string :=
  let normalized := baseURL urlValue in
  let normalized := if String.eqb normalized "" then TrimSpace baseValue else normalized in
  if String.eqb normalized "" then urlValue else normalized.

(** [baseToID], the Go map [map[string]int], as an association list. *)
Fixpoint lookup_id (k : string) (m : list (string * Z)) : option Z :=
  match m with
  | [] => None
  | (k', v) :: m' => if String.eqb k k' then Some v else lookup_id k m'
  end.

(** The body of [if existingID, ok := baseToID[baseValue]; ok { ... }]:
    row [id] (of feed [feedID]) is merged into [existingID]. *)
Definition merge_into (existingID id feedID publishedAt : Z) : TxM unit :=
  ensureArticleSource existingID feedID (timeFromUnix publishedAt) ;;
  hasSummary <- existsByID "summaries" existingID ;;
  (if hasSummary
   then exec "DELETE FROM summaries WHERE article_id = ?"
          (fun db => Ok (tt, delete_summaries_of id db))
   else exec "UPDATE summaries SET article_id = ? WHERE article_id = ?"
          (move_summaries existingID id)) ;;
  hasSaved <- existsByID "saved" existingID ;;
  (if hasSaved
   then exec "DELETE FROM saved WHERE article_id = ?"
          (fun db => Ok (tt, delete_saved_of id db))
   else exec "UPDATE saved SET article_id = ? WHERE article_id = ?"
          (move_saved existingID id)) ;;
  exec "DELETE FROM articles WHERE id = ?" (fun db => Ok (tt, delete_article_cascade id db)).

(** The [for rows.Next()] loop over [SELECT id, feed_id, url, base_url,
    published_at FROM articles ORDER BY id]. *)
Fixpoint merge_loop (baseToID : list (string * Z)) (rows : list article_row) : TxM unit :=
  match rows with
  | [] => ret tt
  | r :: rest =>
      more <- rows_next ;;
      if negb more then ret tt else
      match ar_base_url r with
      | None => throw "sql: Scan error on column index 3, name base_url: converting NULL to string is unsupported"
      | Some baseValue =>
          let normalized := merge_identity (ar_url r) baseValue in
          (if negb (String.eqb normalized baseValue)
           then exec "UPDATE articles SET base_url = ? WHERE id = ?"
                  (fun db => Ok (tt, set_base_url (ar_id r) normalized db))
           else ret tt) ;;
          match lookup_id normalized baseToID with
          | Some existingID =>
              merge_into existingID (ar_id r) (ar_feed_id r) (ar_published_at r) ;;
              merge_loop baseToID rest
          | None =>
              ensureArticleSource (ar_id r) (ar_feed_id r) (timeFromUnix (ar_published_at r)) ;;
              merge_loop ((normalized, ar_id r) :: baseToID) rest
          end
      end
  end.

Definition MergeDuplicateArticles_body : TxM unit :=
  rows <- exec "SELECT id, feed_id, url, base_url, published_at FROM articles ORDER BY id"
            (fun db => Ok (articles db, db)) ;;
  merge_loop [] rows.

Definition MergeDuplicateArticles : DB -> DB * result unit :=
  transact MergeDuplicateArticles_body.

(* ----------------------------------------------------------------- *)
(** *** [DeleteArticle] and [UndeleteLast] (store.go) *)

Definition select_article (id : Z) : TxM (option article_row) :=
  exec "SELECT id, feed_id, guid, title, url, base_url, author, content, content_text, published_at, fetched_at, is_read, is_starred, feed_title FROM articles WHERE id = ?"
    (fun db => Ok (find (fun r => Z.eqb (ar_id r) id) (articles db), db)).

(** [INSERT INTO deleted (...)] without an id: the tombstone takes
    [new_rowid] of [deleted]. *)
Definition insert_deleted_auto (mk : Z -> deleted_row) (db : DB) : result (unit * DB) :=
  match new_rowid (rowid_draw db) (map dr_id (deleted db)) with
  | None => Err sqlite_full
  | Some id => Ok (tt, with_deleted db (insert_by_key dr_id (mk id) (deleted db)))
  end.

Definition deleted_row_of (article : Article) (deletedAt : time) (id : Z) : deleted_row :=
  mkDeletedRow id (Art.FeedID article) (Art.GUID article) (Art.Title article) (Art.URL article)
    (Some (Art.BaseURL article)) (Art.Author article) (Art.Content article)
    (Art.ContentText article) (timeToUnix (Art.PublishedAt article))
    (timeToUnix (Art.FetchedAt article)) (boolToInt (Art.IsRead article))
    (boolToInt (Art.IsStarred article)) (Art.FeedTitle article) (timeToUnix deletedAt).

Definition DeleteArticle_body (now : time) (id : Z) (article : Article) : TxM Article :=
  exec "DELETE FROM articles WHERE id = ?" (fun db => Ok (tt, delete_article_cascade id db)) ;;
  exec "DELETE FROM summaries WHERE article_id = ?" (fun db => Ok (tt, delete_summaries_of id db)) ;;
  exec "DELETE FROM saved WHERE article_id = ?" (fun db => Ok (tt, delete_saved_of id db)) ;;
  exec "INSERT INTO deleted (feed_id, guid, title, url, base_url, author, content, content_text, published_at, fetched_at, is_read, is_starred, feed_title, deleted_at) VALUES (?, ?, ?, ?, ?, ?, ?, ?, ?, ?, ?, ?, ?, ?)"
    (insert_deleted_auto (deleted_row_of article now)) ;;
  ret article.

(** [func (s *Store) DeleteArticle(id int) (Article, error)]: the row is read
    outside the transaction ([s.db.QueryRow]); [now] is
    [time.Now().UTC()]. *)
Definition DeleteArticle (now : time) (id : Z) (db : DB) : DB * result Article :=
  match autocommit (select_article id) db with
  | (db1, Ok (Some r)) =>
      match scanArticle r with
      | Some article => transact (DeleteArticle_body now id article) db1
      | None => (db1, Err "article not found")
      end
  | (db1, _) => (db1, Err "article not found")
  end.

(** The row of [ORDER BY id DESC LIMIT 1]. *)
Fixpoint max_deleted (l : list deleted_row) : option deleted_row :=
  match l with
  | [] => None
  | r :: rest =>
      match max_deleted rest with
      | Some m => if Z.ltb (dr_id r) (dr_id m) then Some m else Some r
      | None => Some r
      end
  end.

Definition select_last_deleted : TxM (option deleted_row) :=
  exec "SELECT id, feed_id, guid, title, url, base_url, author, content, content_text, published_at, fetched_at, is_read, is_starred, feed_title FROM deleted ORDER BY id DESC LIMIT 1"
    (fun db => Ok (max_deleted (deleted db), db)).

Definition delete_deleted (id : Z) (db : DB) : DB :=
  with_deleted db (filter (fun r => negb (Z.eqb (dr_id r) id)) (deleted db)).

(** [func (s *Store) UndeleteLast() (Article, error)]: every statement runs
    on [s.db] and commits on its own; there is no transaction. *)
Definition UndeleteLast (db : DB) : DB * result Article :=
  match autocommit select_last_deleted db with
  | (db1, Ok (Some r)) =>
      match scanDeleted r with
      | None => (db1, Err "no deleted article")
      | Some (deletedID, article0) =>
          let article :=
            if String.eqb (Art.BaseURL article0) ""
            then set_BaseURL article0 (baseURL (Art.URL article0)) else article0 in
          match autocommit (insert_article_stmt article) db1 with
          | (db2, Err e) => (db2, Err e)
          | (db2, Ok res) =>
              match autocommit (lastInsertID res) db2 with
              | (db3, Err e) => (db3, Err e)
              | (db3, Ok id) =>
                  let article := set_ID article id in
                  match autocommit (exec "DELETE FROM deleted WHERE id = ?"
                                      (fun db => Ok (tt, delete_deleted deletedID db))) db3 with
                  | (db4, Err e) => (db4, Err e)
                  | (db4, Ok _) => (db4, Ok article)
                  end
              end
          end
      end
  | (db1, _) => (db1, Err "no deleted article")
  end.

(* ----------------------------------------------------------------- *)
(** *** [ExportState] and [ImportState] (store_state.go)

    The JSON file is abstracted: [ExportState] yields the [ExportState]
    value it would marshal, and [ImportState] takes the value
    [stateUnmarshal] decoded from the file. [tagsMarshal] and
    [tagsUnmarshal] are the JSON codecs of the tag list of [saved]. *)

Variable tagsMarshal : list string -> string.
Variable tagsUnmarshal : string -> list string.

Definition exportStateVersion : Z := 1.

Definition feed_of (r : feed_row) : Feed :=
  Fd.mkFeed (fr_id r) (fr_title r) (fr_url r) (fr_site_url r) (fr_description r)
    (timeFromUnix (fr_last_fetched r)) (timeFromUnix (fr_created_at r))
    (timeFromUnix (fr_updated_at r)).

(** [s.Articles()]: the scan loop returns what it has read so far at the
    first row it cannot scan. *)
Fixpoint scan_articles (rows : list article_row) : list Article :=
  match rows with
  | [] => []
  | r :: rest => match scanArticle r with
                 | Some a => a :: scan_articles rest
                 | None => []
                 end
  end.

Definition summary_of (r : summary_row) : Summary :=
  Sm.mkSummary (sr_id r) (sr_article_id r) (sr_content r) (sr_model r)
    (timeFromUnix (sr_generated_at r)).

Definition saved_of (r : saved_row) : Saved :=
  Sv.mkSaved (sv_article_id r) (sv_raindrop_id r)
    (if String.eqb (sv_tags r) "" then [] else tagsUnmarshal (sv_tags r))
    (timeFromUnix (sv_saved_at r)).

Fixpoint scan_deleted (rows : list deleted_row) : list Deleted :=
  match rows with
  | [] => []
  | r :: rest =>
      match dr_base_url r with
      | None => []
      | Some b =>
          Dl.mkDeleted (dr_feed_id r) (dr_guid r)
            (Art.mkArticle 0 (dr_feed_id r) (dr_guid r) (dr_title r) (dr_url r) b
               (dr_author r) (dr_content r) (dr_content_text r)
               (timeFromUnix (dr_published_at r)) (timeFromUnix (dr_fetched_at r))
               (intToBool (dr_is_read r)) (intToBool (dr_is_starred r)) (dr_feed_title r))
            (timeFromUnix (dr_deleted_at r))
          :: scan_deleted rest
      end
  end.

Definition import_feed (feed : Feed) : TxM unit :=
  exec "INSERT INTO feeds (id, title, url, site_url, description, last_fetched, created_at, updated_at) VALUES (?, ?, ?, ?, ?, ?, ?, ?)"
    (fun db =>
       if existsb (fun f => Z.eqb (fr_id f) (Fd.ID feed)) (feeds db)
       then Err "UNIQUE constraint failed: feeds.id"
       else if existsb (fun f => String.eqb (fr_url f) (Fd.URL feed)) (feeds db)
       then Err "UNIQUE constraint failed: feeds.url"
       else Ok (tt, with_feeds db (insert_by_key fr_id
              (mkFeedRow (Fd.ID feed) (Fd.Title feed) (Fd.URL feed) (Fd.SiteURL feed)
                 (Fd.Description feed) (timeToUnix (Fd.LastFetched feed))
                 (timeToUnix (Fd.CreatedAt feed)) (timeToUnix (Fd.UpdatedAt feed)))
              (feeds db)))).

(** The [INSERT INTO articles] of [ImportState] lists no [base_url]: the
    column is left NULL. *)
Definition import_article (article : Article) : TxM unit :=
  exec "INSERT INTO articles (id, feed_id, guid, title, url, author, content, content_text, published_at, fetched_at, is_read, is_starred, feed_title) VALUES (?, ?, ?, ?, ?, ?, ?, ?, ?, ?, ?, ?, ?)"
    (fun db =>
       if article_exists db (Art.ID article)
       then Err "UNIQUE constraint failed: articles.id"
       else if existsb (fun x => Z.eqb (ar_feed_id x) (Art.FeedID article)
                                 && String.eqb (ar_guid x) (Art.GUID article)) (articles db)
       then Err "UNIQUE constraint failed: articles.feed_id, articles.guid"
       else Ok (tt, with_articles db (insert_by_key ar_id
              (mkArticleRow (Art.ID article) (Art.FeedID article) (Art.GUID article)
                 (Art.Title article) (Art.URL article) None (Art.Author article)
                 (Art.Content article) (Art.ContentText article)
                 (timeToUnix (Art.PublishedAt article)) (timeToUnix (Art.FetchedAt article))
                 (boolToInt (Art.IsRead article)) (boolToInt (Art.IsStarred article))
                 (Art.FeedTitle article))
              (articles db)))).

Definition import_summary (summary : Summary) : TxM unit :=
  exec "INSERT INTO summaries (id, article_id, content, model, generated_at) VALUES (?, ?, ?, ?, ?)"
    (fun db =>
       if existsb (fun s => Z.eqb (sr_id s) (Sm.ID summary)) (summaries db)
       then Err "UNIQUE constraint failed: summaries.id"
       else if existsb (fun s => Z.eqb (sr_article_id s) (Sm.ArticleID summary)) (summaries db)
       then Err "UNIQUE constraint failed: summaries.article_id"
       else if negb (article_exists db (Sm.ArticleID summary))
       then Err "FOREIGN KEY constraint failed"
       else Ok (tt, with_summaries db (insert_by_key sr_id
              (mkSummaryRow (Sm.ID summary) (Sm.ArticleID summary) (Sm.Content summary)
                 (Sm.Model summary) (timeToUnix (Sm.GeneratedAt summary)))
              (summaries db)))).

Definition import_saved (sv : Saved) : TxM unit :=
  blob <- exec "tagsMarshal" (fun db => Ok (tagsMarshal (Sv.Tags sv), db)) ;;
  exec "INSERT INTO saved (article_id, raindrop_id, tags, saved_at) VALUES (?, ?, ?, ?)"
    (fun db =>
       if existsb (fun s => Z.eqb (sv_article_id s) (Sv.ArticleID sv)) (saved db)
       then Err "UNIQUE constraint failed: saved.article_id"
       else if negb (article_exists db (Sv.ArticleID sv))
       then Err "FOREIGN KEY constraint failed"
       else Ok (tt, with_saved db (insert_by_key sv_article_id
              (mkSavedRow (Sv.ArticleID sv) (Sv.RaindropID sv) blob (timeToUnix (Sv.SavedAt sv)))
              (saved db)))).

(** The [INSERT INTO deleted] of [ImportState] lists no [base_url] either. *)
Definition import_deleted (d : Deleted) : TxM unit :=
  let article := Dl.Article d in
  exec "INSERT INTO deleted (feed_id, guid, title, url, author, content, content_text, published_at, fetched_at, is_read, is_starred, feed_title, deleted_at) VALUES (?, ?, ?, ?, ?, ?, ?, ?, ?, ?, ?, ?, ?)"
    (insert_deleted_auto (fun id =>
       mkDeletedRow id (Dl.FeedID d) (Dl.GUID d) (Art.Title article) (Art.URL article) None
         (Art.Author article) (Art.Content article) (Art.ContentText article)
         (timeToUnix (Art.PublishedAt article)) (timeToUnix (Art.FetchedAt article))
         (boolToInt (Art.IsRead article)) (boolToInt (Art.IsStarred article))
         (Art.FeedTitle article) (timeToUnix (Dl.DeletedAt d)))).

(** [for _, x := range xs { ... }] with an early [return err]. *)
Fixpoint for_each {X} (f : X -> TxM unit) (xs : list X) : TxM unit :=
  match xs with
  | [] => ret tt
  | x :: rest => f x ;; for_each f rest
  end.

(** [DELETE FROM articles] cascades to [summaries], [saved] and
    [article_sources]; [DELETE FROM feeds] cascades to [article_sources]. *)
Definition delete_all_articles (db : DB) : DB :=
  mkDB (feeds db) [] [] [] (deleted db) [] (rowid_draw db).

Definition delete_all_feeds (db : DB) : DB :=
  mkDB [] (articles db) (summaries db) (saved db) (deleted db) [] (rowid_draw db).

Definition ImportState_body (state : St.ExportState) : TxM unit :=
  exec "DELETE FROM summaries" (fun db => Ok (tt, with_summaries db [])) ;;
  exec "DELETE FROM saved" (fun db => Ok (tt, with_saved db [])) ;;
  exec "DELETE FROM deleted" (fun db => Ok (tt, with_deleted db [])) ;;
  exec "DELETE FROM articles" (fun db => Ok (tt, delete_all_articles db)) ;;
  exec "DELETE FROM feeds" (fun db => Ok (tt, delete_all_feeds db)) ;;
  for_each import_feed (St.Feeds state) ;;
  for_each import_article (St.Articles state) ;;
  for_each import_summary (St.Summaries state) ;;
  for_each import_saved (St.Saved state) ;;
  for_each import_deleted (St.Deleted state).

(** [func (s *Store) ImportState(path string) error], from the decoded
    file on. *)
Definition ImportState (state : St.ExportState) (db : DB) : DB * result unit :=
  if negb (Z.eqb (St.Version state) exportStateVersion)
  then (db, Err "unsupported export format")
  else transact (ImportState_body state) db.

(* ----------------------------------------------------------------- *)
(** *** Restore-by-window ([UndeleteByPublishedDays])

    Modelled from the spec (section 4.4, Restore-by-window): the method is
    called by the terminal UI and its tests but its body is not part of the
    sources. [days <= 0] is rejected before any I/O; the cutoff is
    [now - days] days; the tombstones whose publish time is at or after the
    cutoff are counted (none is an error, as the tests expect) and processed
    in id order inside one transaction. *)

Definition cutoff_of (now : time) (days : Z) : Z := (timeToUnix now - days * 86400)%Z.

Definition in_window (cutoff : Z) (t : deleted_row) : bool := Z.leb cutoff (dr_published_at t).

(** Modelled from the spec: the identity of a tombstone is recomputed from
    its URL, falling back to its stored base identity, then to its URL. *)
Definition restore_identity (t : deleted_row) : string :=
  let b := baseURL (dr_url t) in
  let b := if String.eqb b "" then match dr_base_url t with Some s => s | None => "" end else b in
  if String.eqb b "" then dr_url t else b.

(** Modelled from the spec: the live article holding an identity (4.2.d). *)
Definition find_live_by_base (identity : string) : TxM (option article_row) :=
  exec "SELECT id, is_read, is_starred FROM articles WHERE base_url = ? LIMIT 1"
    (fun db => Ok (find (fun r => opt_str_eqb (ar_base_url r) identity) (articles db), db)).

Definition set_flags (id : Z) (isRead isStarred : Z) (db : DB) : DB :=
  with_articles db
    (map (fun r => if Z.eqb (ar_id r) id
                   then mkArticleRow (ar_id r) (ar_feed_id r) (ar_guid r) (ar_title r) (ar_url r)
                          (ar_base_url r) (ar_author r) (ar_content r) (ar_content_text r)
                          (ar_published_at r) (ar_fetched_at r) isRead isStarred
                          (ar_feed_title r)
                   else r) (articles db)).

(** Modelled from the spec: the article a tombstone restores as a new row. *)
Definition restored_article (t : deleted_row) (identity : string) : Article :=
  Art.mkArticle 0 (dr_feed_id t) (dr_guid t) (dr_title t) (dr_url t) identity
    (dr_author t) (dr_content t) (dr_content_text t)
    (timeFromUnix (dr_published_at t)) (timeFromUnix (dr_fetched_at t))
    (intToBool (dr_is_read t)) (intToBool (dr_is_starred t)) (dr_feed_title t).

(** Modelled from the spec: one tombstone is folded into the live article
    of its identity (read: unread wins; starred: starred wins) or restored
    as a new article with its source; the tombstone is then deleted. *)
Definition restore_tombstone (t : deleted_row) : TxM unit :=
  let identity := restore_identity t in
  existing <- find_live_by_base identity ;;
  match existing with
  | Some e =>
      exec "UPDATE articles SET is_read = ?, is_starred = ? WHERE id = ?"
        (fun db => Ok (tt, set_flags (ar_id e)
           (boolToInt (intToBool (ar_is_read e) && intToBool (dr_is_read t)))
           (boolToInt (intToBool (ar_is_starred e) || intToBool (dr_is_starred t))) db)) ;;
      ensureArticleSource (ar_id e) (dr_feed_id t) (timeFromUnix (dr_published_at t))
  | None =>
      let article := restored_article t identity in
      r <- insert_article_stmt article ;;
      id <- lastInsertID r ;;
      ensureArticleSource id (dr_feed_id t) (Art.PublishedAt article)
  end ;;
  exec "DELETE FROM deleted WHERE id = ?" (fun db => Ok (tt, delete_deleted (dr_id t) db)).

(** Modelled from the spec: the body of the restore transaction. *)
Definition UndeleteByPublishedDays_body (now : time) (days : Z) : TxM Z :=
  let cutoff := cutoff_of now days in
  count <- exec "SELECT COUNT(*) FROM deleted WHERE published_at >= ?"
             (fun db => Ok (Z.of_nat (length (filter (in_window cutoff) (deleted db))), db)) ;;
  if Z.eqb count 0 then throw "no deleted articles in range" else
  rows <- exec "SELECT ... FROM deleted WHERE published_at >= ? ORDER BY id"
            (fun db => Ok (filter (in_window cutoff) (deleted db), db)) ;;
  for_each restore_tombstone rows ;;
  ret count.

(** Modelled from the spec: [restore-by-window(days)]. *)
Definition UndeleteByPublishedDays (now : time) (days : Z) (db : DB) : DB * result Z :=
  if Z.leb days 0 then (db, Err "invalid days") else
  transact (UndeleteByPublishedDays_body now days) db.

(* ----------------------------------------------------------------- *)
(** *** Readers, feeds, summaries, bookmarks and retention (store.go)

    Apart from [DeleteFeed], these methods run their statements on [s.db]
    outside any transaction: each statement commits on its own, and an
    error ends the method with the writes of the earlier statements kept.
    [now] is the value of [time.Now().UTC()] during the call. *)

(** [rowsAffected(result)], a fault-injection hook of store.go, on a
    statement that changed [n] rows. *)
Definition rowsAffected (n : Z) : TxM Z := exec "rowsAffected" (fun db => Ok (n, db)).

(** [rows, err := s.db.Query(...)] ([nil] on an error) and the
    [for rows.Next()] loop over the rows of [table]. *)
Definition query_rows {R} (sql : string) (table : DB -> list R) (db : DB) : list R :=
  match (rows <- exec sql (fun db => Ok (table db, db)) ;; collect rows) db with
  | Ok (rs, _) => rs
  | Err _ => []
  end.

(** [func (s *Store) Feeds() []Feed]. *)
Definition Feeds (db : DB) : list Feed :=
  map feed_of (query_rows "SELECT id, title, url, site_url, description, last_fetched, created_at, updated_at FROM feeds ORDER BY id" feeds db).

(** [func (s *Store) Articles() []Article]: the loop returns what it has
    read at the first row [scanArticle] rejects. *)
Definition Articles (db : DB) : list Article :=
  scan_articles (query_rows "SELECT id, feed_id, guid, title, url, base_url, author, content, content_text, published_at, fetched_at, is_read, is_starred, feed_title FROM articles ORDER BY id" articles db).

(** [func (s *Store) Summaries() []Summary]. *)
Definition Summaries (db : DB) : list Summary :=
  map summary_of (query_rows "SELECT id, article_id, content, model, generated_at FROM summaries ORDER BY id" summaries db).

(** [func (s *Store) Saved() []Saved] ([Saved] names the type here);
    [article_id] is the rowid of [saved]. *)
Definition SavedItems (db : DB) : list Sv.Saved :=
  map saved_of (query_rows "SELECT article_id, raindrop_id, tags, saved_at FROM saved ORDER BY article_id" saved db).

(** [func (s *Store) Deleted() []Deleted] ([Deleted] names the type here):
    the loop returns what it has read at the first row with a NULL
    [base_url]. *)
Definition DeletedItems (db : DB) : list Dl.Deleted :=
  scan_deleted (query_rows "SELECT feed_id, guid, title, url, base_url, author, content, content_text, published_at, fetched_at, is_read, is_starred, feed_title, deleted_at FROM deleted ORDER BY id" deleted db).

(** [func (s *Store) ExportState(path string) error]: the state it
    marshals and writes to [path]; [now] is [time.Now().UTC()], and
    [stateMarshalIndent] and [stateWriteFile] are the hooks of
    store_state.go. *)
Definition ExportState (path : string) (now : time) (db : DB) : result St.ExportState :=
  if String.eqb path "" then Err "missing export path" else
  let state := St.mkExportState exportStateVersion now
                 (Feeds db) (Articles db) (Summaries db) (SavedItems db) (DeletedItems db) in
  if fault "stateMarshalIndent" db then Err "stateMarshalIndent" else
  if fault "stateWriteFile" db then Err "stateWriteFile" else
  Ok state.

(** The row [INSERT INTO feeds] and [UPDATE feeds] write for [feed]. *)
Definition feed_row_of (feed : Feed) (id : Z) : feed_row :=
  mkFeedRow id (Fd.Title feed) (Fd.URL feed) (Fd.SiteURL feed) (Fd.Description feed)
    (timeToUnix (Fd.LastFetched feed)) (timeToUnix (Fd.CreatedAt feed))
    (timeToUnix (Fd.UpdatedAt feed)).

(** [INSERT INTO feeds] without an id, under [url UNIQUE]. *)
Definition insert_feed_auto (feed : Feed) (db : DB) : result (Z * DB) :=
  match new_rowid (rowid_draw db) (map fr_id (feeds db)) with
  | None => Err sqlite_full
  | Some id =>
      if existsb (fun f => String.eqb (fr_url f) (Fd.URL feed)) (feeds db)
      then Err "UNIQUE constraint failed: feeds.url"
      else Ok (id, with_feeds db (insert_by_key fr_id (feed_row_of feed id) (feeds db)))
  end.

(** [feed] with a new [ID] (Go field assignment). *)
Definition set_feed_ID (feed : Feed) (id : Z) : Feed :=
  Fd.mkFeed id (Fd.Title feed) (Fd.URL feed) (Fd.SiteURL feed) (Fd.Description feed)
    (Fd.LastFetched feed) (Fd.CreatedAt feed) (Fd.UpdatedAt feed).

(** [if feed.CreatedAt.IsZero() { feed.CreatedAt = now }] and
    [if feed.UpdatedAt.IsZero() { feed.UpdatedAt = feed.CreatedAt }]. *)
Definition feed_defaults (now : time) (feed : Feed) : Feed :=
  let createdAt := if IsZero (Fd.CreatedAt feed) then now else Fd.CreatedAt feed in
  let updatedAt := if IsZero (Fd.UpdatedAt feed) then createdAt else Fd.UpdatedAt feed in
  Fd.mkFeed (Fd.ID feed) (Fd.Title feed) (Fd.URL feed) (Fd.SiteURL feed) (Fd.Description feed)
    (Fd.LastFetched feed) createdAt updatedAt.

(** [func (s *Store) InsertFeed(feed Feed) (Feed, error)]. *)
Definition InsertFeed (now : time) (feed0 : Feed) (db : DB) : DB * result Feed :=
  match autocommit (exec "SELECT id FROM feeds WHERE url = ?"
          (fun db => Ok (find (fun f => String.eqb (fr_url f) (Fd.URL feed0)) (feeds db), db))) db with
  | (db1, Err e) => (db1, Err e)
  | (db1, Ok (Some _)) => (db1, Err "feed already exists")
  | (db1, Ok None) =>
      let feed := feed_defaults now feed0 in
      match autocommit (exec "INSERT INTO feeds (title, url, site_url, description, last_fetched, created_at, updated_at) VALUES (?, ?, ?, ?, ?, ?, ?)"
              (insert_feed_auto feed)) db1 with
      | (db2, Err e) => (db2, Err e)
      | (db2, Ok res) =>
          match autocommit (lastInsertID res) db2 with
          | (db3, Err e) => (db3, Err e)
          | (db3, Ok id) => (db3, Ok (set_feed_ID feed id))
          end
      end
  end.

(** [UPDATE feeds SET ... WHERE id = ?] under [url UNIQUE]; it yields the
    number of rows changed. *)
Definition update_feed_stmt (feed : Feed) (db : DB) : result (Z * DB) :=
  let hit := filter (fun f => Z.eqb (fr_id f) (Fd.ID feed)) (feeds db) in
  if negb (Nat.eqb (length hit) 0)
     && existsb (fun f => negb (Z.eqb (fr_id f) (Fd.ID feed)) && String.eqb (fr_url f) (Fd.URL feed))
                (feeds db)
  then Err "UNIQUE constraint failed: feeds.url"
  else Ok (Z.of_nat (length hit), with_feeds db
         (map (fun f => if Z.eqb (fr_id f) (Fd.ID feed) then feed_row_of feed (Fd.ID feed) else f)
              (feeds db))).

(** [func (s *Store) UpdateFeed(feed Feed) error]. *)
Definition UpdateFeed (now : time) (feed0 : Feed) (db : DB) : DB * result unit :=
  let feed := Fd.mkFeed (Fd.ID feed0) (Fd.Title feed0) (Fd.URL feed0) (Fd.SiteURL feed0)
                (Fd.Description feed0) (Fd.LastFetched feed0) (Fd.CreatedAt feed0) now in
  match autocommit (exec "UPDATE feeds SET title = ?, url = ?, site_url = ?, description = ?, last_fetched = ?, created_at = ?, updated_at = ? WHERE id = ?"
          (update_feed_stmt feed)) db with
  | (db1, Err e) => (db1, Err e)
  | (db1, Ok n) =>
      match autocommit (rowsAffected n) db1 with
      | (db2, Err e) => (db2, Err e)
      | (db2, Ok rows) => if Z.eqb rows 0 then (db2, Err "feed not found") else (db2, Ok tt)
      end
  end.

(** [DELETE FROM feeds WHERE id = ?], with the [ON DELETE CASCADE] of
    [article_sources]; [articles.feed_id] has no foreign key. *)
Definition delete_feed_cascade (id : Z) (db : DB) : DB :=
  mkDB (filter (fun f => negb (Z.eqb (fr_id f) id)) (feeds db))
       (articles db) (summaries db) (saved db) (deleted db)
       (filter (fun s => negb (Z.eqb (src_feed_id s) id)) (article_sources db))
       (rowid_draw db).

(** [x] is the id of an article row that [p] selects. *)
Definition removed_article (p : article_row -> bool) (db : DB) (x : Z) : bool :=
  existsb (fun r => p r && Z.eqb (ar_id r) x) (articles db).

(** [DELETE FROM articles WHERE ...] on the rows [p] selects, with the
    [ON DELETE CASCADE] of [summaries], [saved] and [article_sources]. *)
Definition delete_articles_where (p : article_row -> bool) (db : DB) : DB :=
  mkDB (feeds db)
       (filter (fun r => negb (p r)) (articles db))
       (filter (fun s => negb (removed_article p db (sr_article_id s))) (summaries db))
       (filter (fun s => negb (removed_article p db (sv_article_id s))) (saved db))
       (deleted db)
       (filter (fun s => negb (removed_article p db (src_article_id s))) (article_sources db))
       (rowid_draw db).

Definition DeleteFeed_body (id : Z) : TxM unit :=
  exec "DELETE FROM feeds WHERE id = ?" (fun db => Ok (tt, delete_feed_cascade id db)) ;;
  exec "DELETE FROM articles WHERE feed_id = ?"
    (fun db => Ok (tt, delete_articles_where (fun r => Z.eqb (ar_feed_id r) id) db)).

(** [func (s *Store) DeleteFeed(id int) error]. *)
Definition DeleteFeed (id : Z) : DB -> DB * result unit := transact (DeleteFeed_body id).

(** [Summary{}]. *)
Definition zero_summary : Summary := Sm.mkSummary 0 0 "" "" zero_time.

(** [func (s *Store) FindSummary(articleID int) (Summary, bool)]. *)
Definition FindSummary (articleID : Z) (db : DB) : Summary * bool :=
  match exec "SELECT id, article_id, content, model, generated_at FROM summaries WHERE article_id = ?"
          (fun db => Ok (find (fun s => Z.eqb (sr_article_id s) articleID) (summaries db), db)) db with
  | Ok (Some r, _) => (summary_of r, true)
  | _ => (zero_summary, false)
  end.

(** [INSERT INTO summaries] without an id, under [article_id UNIQUE] and
    the foreign key to [articles]. *)
Definition insert_summary_auto (mk : Z -> summary_row) (db : DB) : result (Z * DB) :=
  match new_rowid (rowid_draw db) (map sr_id (summaries db)) with
  | None => Err sqlite_full
  | Some id =>
      let r := mk id in
      if existsb (fun s => Z.eqb (sr_article_id s) (sr_article_id r)) (summaries db)
      then Err "UNIQUE constraint failed: summaries.article_id"
      else if negb (article_exists db (sr_article_id r)) then Err "FOREIGN KEY constraint failed"
      else Ok (id, with_summaries db (insert_by_key sr_id r (summaries db)))
  end.

(** [UPDATE summaries SET content = ?, model = ?, generated_at = ? WHERE
    article_id = ?]. *)
Definition update_summary_rows (summary : Summary) (db : DB) : DB :=
  with_summaries db
    (map (fun s => if Z.eqb (sr_article_id s) (Sm.ArticleID summary)
                   then mkSummaryRow (sr_id s) (sr_article_id s) (Sm.Content summary)
                          (Sm.Model summary) (timeToUnix (Sm.GeneratedAt summary))
                   else s) (summaries db)).

(** [summary] with a new [ID] or [GeneratedAt] (Go field assignments). *)
Definition set_summary_ID (summary : Summary) (id : Z) : Summary :=
  Sm.mkSummary id (Sm.ArticleID summary) (Sm.Content summary) (Sm.Model summary)
    (Sm.GeneratedAt summary).

Definition set_GeneratedAt (summary : Summary) (t : time) : Summary :=
  Sm.mkSummary (Sm.ID summary) (Sm.ArticleID summary) (Sm.Content summary) (Sm.Model summary) t.

(** [func (s *Store) UpsertSummary(summary Summary) (Summary, error)]; a
    missing row leaves [existingID] at 0. *)
Definition UpsertSummary (now : time) (summary0 : Summary) (db : DB) : DB * result Summary :=
  match autocommit (exec "SELECT id FROM summaries WHERE article_id = ?"
          (fun db => Ok (match find (fun s => Z.eqb (sr_article_id s) (Sm.ArticleID summary0))
                                    (summaries db) with
                         | Some s => sr_id s
                         | None => 0%Z
                         end, db))) db with
  | (db1, Err e) => (db1, Err e)
  | (db1, Ok existingID) =>
      let summary := if IsZero (Sm.GeneratedAt summary0)
                     then set_GeneratedAt summary0 now else summary0 in
      if negb (Z.eqb existingID 0) then
        let summary := set_summary_ID summary existingID in
        match autocommit (exec "UPDATE summaries SET content = ?, model = ?, generated_at = ? WHERE article_id = ?"
                (fun db => Ok (tt, update_summary_rows summary db))) db1 with
        | (db2, Err e) => (db2, Err e)
        | (db2, Ok _) => (db2, Ok summary)
        end
      else
        match autocommit (exec "INSERT INTO summaries (article_id, content, model, generated_at) VALUES (?, ?, ?, ?)"
                (insert_summary_auto (fun id => mkSummaryRow id (Sm.ArticleID summary)
                   (Sm.Content summary) (Sm.Model summary) (timeToUnix (Sm.GeneratedAt summary))))) db1 with
        | (db2, Err e) => (db2, Err e)
        | (db2, Ok res) =>
            match autocommit (lastInsertID res) db2 with
            | (db3, Err e) => (db3, Err e)
            | (db3, Ok id) => (db3, Ok (set_summary_ID summary id))
            end
        end
  end.

(** [UPDATE articles SET ... WHERE id = ?] under [UNIQUE(feed_id, guid)];
    it yields the number of rows changed. *)
Definition update_article_stmt (article : Article) (db : DB) : result (Z * DB) :=
  let id := Art.ID article in
  let hit := filter (fun r => Z.eqb (ar_id r) id) (articles db) in
  if negb (Nat.eqb (length hit) 0)
     && existsb (fun x => negb (Z.eqb (ar_id x) id) && Z.eqb (ar_feed_id x) (Art.FeedID article)
                          && String.eqb (ar_guid x) (Art.GUID article)) (articles db)
  then Err "UNIQUE constraint failed: articles.feed_id, articles.guid"
  else Ok (Z.of_nat (length hit), with_articles db
         (map (fun r => if Z.eqb (ar_id r) id then article_row_of article id else r) (articles db))).

(** [func (s *Store) UpdateArticle(article Article) error]. *)
Definition UpdateArticle (article0 : Article) (db : DB) : DB * result unit :=
  let article := if String.eqb (Art.BaseURL article0) ""
                 then set_BaseURL article0 (baseURL (Art.URL article0)) else article0 in
  match autocommit (exec "UPDATE articles SET feed_id = ?, guid = ?, title = ?, url = ?, base_url = ?, author = ?, content = ?, content_text = ?, published_at = ?, fetched_at = ?, is_read = ?, is_starred = ?, feed_title = ? WHERE id = ?"
          (update_article_stmt article)) db with
  | (db1, Err e) => (db1, Err e)
  | (db1, Ok n) =>
      match autocommit (rowsAffected n) db1 with
      | (db2, Err e) => (db2, Err e)
      | (db2, Ok rows) => if Z.eqb rows 0 then (db2, Err "article not found") else (db2, Ok tt)
      end
  end.

(** Go's [int64] arithmetic: results wrap modulo 2^64. *)
Definition wrap64 (z : Z) : Z := ((z + 2 ^ 63) mod 2 ^ 64 - 2 ^ 63)%Z.

Definition hour_ns : Z := 3600000000000%Z.

(** [-time.Duration(days) * 24 * time.Hour], in nanoseconds. *)
Definition retention_window (days : Z) : Z :=
  wrap64 (wrap64 (wrap64 (- days) * 24) * hour_ns).

(** [timeToUnix(cutoff)] in [DeleteOldArticles]. *)
Definition retention_cutoff (now : time) (days : Z) : Z :=
  timeToUnix (time_add now (retention_window days)).

(** [fetched_at < ?]; the column always holds an integer, since every
    [INSERT] writes [timeToUnix] of a time. *)
Definition fetched_before (cutoff : Z) (r : article_row) : bool := Z.ltb (ar_fetched_at r) cutoff.

(** [func (s *Store) CleanupOrphanSummaries()]: both errors are dropped. *)
Definition CleanupOrphanSummaries (db : DB) : DB :=
  let db1 := fst (autocommit (exec "DELETE FROM summaries WHERE article_id NOT IN (SELECT id FROM articles)"
               (fun db => Ok (tt, with_summaries db
                  (filter (fun s => article_exists db (sr_article_id s)) (summaries db))))) db) in
  fst (autocommit (exec "DELETE FROM saved WHERE article_id NOT IN (SELECT id FROM articles)"
         (fun db => Ok (tt, with_saved db
            (filter (fun s => article_exists db (sv_article_id s)) (saved db))))) db1).

(** [func (s *Store) DeleteOldArticles(days int) int]. *)
Definition DeleteOldArticles (now : time) (days : Z) (db : DB) : DB * Z :=
  let cutoff := retention_cutoff now days in
  match autocommit (exec "SELECT COUNT(*) FROM articles WHERE fetched_at < ?"
          (fun db => Ok (Z.of_nat (length (filter (fetched_before cutoff) (articles db))), db))) db with
  | (db1, Err _) => (db1, 0%Z)
  | (db1, Ok count) =>
      match autocommit (exec "DELETE FROM articles WHERE fetched_at < ?"
              (fun db => Ok (tt, delete_articles_where (fetched_before cutoff) db))) db1 with
      | (db2, Err _) => (db2, 0%Z)
      | (db2, Ok _) => (CleanupOrphanSummaries db2, count)
      end
  end.

(** [func (s *Store) Compact(days int) int]. *)
Definition Compact (now : time) (days : Z) (db : DB) : DB * Z := DeleteOldArticles now days db.

(** [INSERT INTO saved] with its [article_id] primary key, under the
    foreign key to [articles]. *)
Definition insert_saved_row (r : saved_row) (db : DB) : result (unit * DB) :=
  if existsb (fun s => Z.eqb (sv_article_id s) (sv_article_id r)) (saved db)
  then Err "UNIQUE constraint failed: saved.article_id"
  else if negb (article_exists db (sv_article_id r)) then Err "FOREIGN KEY constraint failed"
  else Ok (tt, with_saved db (insert_by_key sv_article_id r (saved db))).

(** [UPDATE saved SET raindrop_id = ?, tags = ?, saved_at = ? WHERE
    article_id = ?]; it yields the number of rows changed. *)
Definition update_saved_stmt (articleID raindropID : Z) (blob : string) (savedAt : Z) (db : DB)
    : result (Z * DB) :=
  Ok (Z.of_nat (length (filter (fun s => Z.eqb (sv_article_id s) articleID) (saved db))),
      with_saved db (map (fun s => if Z.eqb (sv_article_id s) articleID
                                   then mkSavedRow articleID raindropID blob savedAt else s)
                         (saved db))).

(** [func (s *Store) SaveToRaindrop(articleID int, raindropID int, tags
    []string) error]; [tagsMarshal] is the hook of store.go. *)
Definition SaveToRaindrop (now : time) (articleID raindropID : Z) (tags : list string) (db : DB)
    : DB * result unit :=
  match autocommit (exec "tagsMarshal" (fun db => Ok (tagsMarshal tags, db))) db with
  | (db1, Err e) => (db1, Err e)
  | (db1, Ok blob) =>
      match autocommit (exec "UPDATE saved SET raindrop_id = ?, tags = ?, saved_at = ? WHERE article_id = ?"
              (update_saved_stmt articleID raindropID blob (timeToUnix now))) db1 with
      | (db2, Err e) => (db2, Err e)
      | (db2, Ok n) =>
          match autocommit (rowsAffected n) db2 with
          | (db3, Err e) => (db3, Err e)
          | (db3, Ok rows) =>
              if Z.eqb rows 0 then
                match autocommit (exec "INSERT INTO saved (article_id, raindrop_id, tags, saved_at) VALUES (?, ?, ?, ?)"
                        (insert_saved_row (mkSavedRow articleID raindropID blob (timeToUnix now)))) db3 with
                | (db4, Err e) => (db4, Err e)
                | (db4, Ok _) => (db4, Ok tt)
                end
              else (db3, Ok tt)
          end
      end
  end.

(** [func (s *Store) SavedCount() int]. *)
Definition SavedCount (db : DB) : Z :=
  match exec "SELECT COUNT(*) FROM saved" (fun db => Ok (Z.of_nat (length (saved db)), db)) db with
  | Ok (n, _) => n
  | Err _ => 0%Z
  end.

End Store.

(* ================================================================= *)
(** ** Notions used by the statements *)

(** The rows of [article_sources] for one (article, feed) pair. *)
Definition src_of (db : DB) (a f : Z) : list source_row :=
  filter (fun s => Z.eqb (src_article_id s) a && Z.eqb (src_feed_id s) f) (article_sources db).

(** The first published time of a sequence of observations that is known,
    as the store writes it ([timeToUnix]); 0 if none is. *)
Fixpoint first_known (ts : list time) : Z :=
  match ts with
  | [] => 0%Z
  | t :: rest => if Z.eqb (timeToUnix t) 0 then first_known rest else timeToUnix t
  end.

(** The [UPDATE article_sources] of [ensureArticleSource] on one row. *)
Definition refresh_src (a f : Z) (t : time) (s : source_row) : source_row :=
  if Z.eqb (src_article_id s) a && Z.eqb (src_feed_id s) f && Z.eqb (src_published_at s) 0
  then mkSourceRow (src_article_id s) (src_feed_id s) (timeToUnix t) else s.

(** The storage engine that never fails. *)
Definition no_fault : string -> DB -> bool := fun _ _ => false.

(** The engine's random rowid draw in the examples: it never succeeds; no
    example table reaches [MAX_ROWID]. *)
Definition no_draw : list Z -> option Z := fun _ => None.

(** A small store used by the examples: two feeds, one article. *)
Definition ex_feed_row (id : Z) (url : string) : feed_row := mkFeedRow id "" url "" "" 0 0 0.

Definition ex_row (id feed : Z) (guid url : string) (base : option string) : article_row :=
  mkArticleRow id feed guid "" url base "" "" "" 0 0 0 0 "".

Definition ex_db1 : DB :=
  mkDB [ex_feed_row 1 "https://a.test/rss"; ex_feed_row 2 "https://b.test/rss"] [ex_row 1 1 "g" "https://x.test/p" (Some "https://x.test/p")]
       [] [] [] [] no_draw.

(** The snapshot [ExportState] takes of [ex_db1]. *)
Definition ex_state : St.ExportState :=
  match ExportState no_fault (fun _ => []) "state.json" 0%Z ex_db1 with
  | Ok st => st
  | Err _ => St.mkExportState 0%Z 0%Z [] [] [] [] []
  end.

(** An article whose stored base identity is empty though its URL has one. *)
Definition ex_db9 : DB :=
  mkDB [ex_feed_row 1 "https://a.test/rss"] [ex_row 1 1 "g" "https://x.test/p?q=1" (Some "")]
       [] [] [] [] no_draw.

(** The value of a result, [d] for an error. *)
Definition ok_or {A} (d : A) (r : result A) : A :=
  match r with Ok a => a | Err _ => d end.

Definition zero_article : Article :=
  Art.mkArticle 0 0 "" "" "" "" "" "" "" zero_time zero_time false false "".

(** One tombstone and no live article. *)
Definition ex_db5 : DB :=
  mkDB [ex_feed_row 1 "https://a.test/rss"] []
       [] [] [mkDeletedRow 1 1 "g" "" "https://x.test/p" (Some "https://x.test/p") "" "" "" 0 0 0 0 "" 0]
       [] no_draw.

(** Two live articles of one identity. *)
Definition ex_db_dup : DB :=
  mkDB [ex_feed_row 1 "https://a.test/rss"; ex_feed_row 2 "https://b.test/rss"]
       [ex_row 1 1 "g1" "https://x.test/p?a=1" (Some "https://x.test/p");
        ex_row 2 2 "g2" "https://x.test/p?a=2" (Some "https://x.test/p")]
       [] [] [] [] no_draw.

(** A live article, read and not starred, and an unread, starred tombstone
    of the same identity from another feed. *)
Definition ex_tomb6 : deleted_row :=
  mkDeletedRow 1 2 "g2" "" "https://x.test/p" (Some "https://x.test/p") "" "" "" 1000 0 0 1 "" 0.

Definition ex_live6 : article_row :=
  mkArticleRow 1 1 "g" "" "https://x.test/p" (Some "https://x.test/p") "" "" "" 0 0 1 0 "".

Definition ex_db6 : DB :=
  mkDB [ex_feed_row 1 "https://a.test/rss"; ex_feed_row 2 "https://b.test/rss"] [ex_live6]
       [] [] [ex_tomb6] [] no_draw.

(** Two tombstones of the identity of [ex_live6] in the window: a read,
    unstarred one, then an unread, starred one. *)
Definition ex_tomb6a : deleted_row :=
  mkDeletedRow 1 2 "g2" "" "https://x.test/p" (Some "https://x.test/p") "" "" "" 1000 0 1 0 "" 0.

Definition ex_tomb6b : deleted_row :=
  mkDeletedRow 2 2 "g3" "" "https://x.test/p?a=1" (Some "https://x.test/p") "" "" "" 1000 0 0 1 "" 0.

Definition ex_db6b : DB :=
  mkDB [ex_feed_row 1 "https://a.test/rss"; ex_feed_row 2 "https://b.test/rss"] [ex_live6]
       [] [] [ex_tomb6a; ex_tomb6b] [] no_draw.

(** The article [UndeleteLast] inserts for a scanned tombstone. *)
Definition undelete_article (article0 : Article) : Article :=
  if String.eqb (Art.BaseURL article0) "" then set_BaseURL article0 (baseURL (Art.URL article0))
  else article0.

(** The rows of a table that belong to article [x]. *)
Definition summaries_for (db : DB) (x : Z) : list summary_row :=
  filter (fun s => Z.eqb (sr_article_id s) x) (summaries db).

Definition saved_for (db : DB) (x : Z) : list saved_row :=
  filter (fun s => Z.eqb (sv_article_id s) x) (saved db).

(** A summary, or a bookmark, moved onto article [a]. *)
Definition retarget_summary (a : Z) (s : summary_row) : summary_row :=
  mkSummaryRow (sr_id s) a (sr_content s) (sr_model s) (sr_generated_at s).

Definition retarget_saved (a : Z) (s : saved_row) : saved_row :=
  mkSavedRow a (sv_raindrop_id s) (sv_tags s) (sv_saved_at s).

(** Two live articles; article 2 has a summary, both have a bookmark. *)
Definition ex_db4 : DB :=
  mkDB [ex_feed_row 1 "https://a.test/rss"; ex_feed_row 2 "https://b.test/rss"]
       [ex_row 1 1 "g1" "https://x.test/p?a=1" (Some "https://x.test/p");
        ex_row 2 2 "g2" "https://x.test/p?a=2" (Some "https://x.test/p")]
       [mkSummaryRow 7 2 "summary" "model" 0]
       [mkSavedRow 1 11 "" 0; mkSavedRow 2 12 "" 0] [] [] no_draw.

(** The two bytes that start a query and a fragment in a URL. *)
Definition qf (c : ascii) : Prop := c = "?"%char \/ c = "#"%char.

(** The bytes [getScheme] accepts in a scheme. *)
Definition scheme_char (c : ascii) : bool := is_lower c || is_upper c || is_digit c || mem c "+-.".

(** The surviving rows before the cursor carry the keys of [baseToID]. *)
Definition merge_inv (m : list (string * Z)) (P rest : list article_row) (db : DB) : Prop :=
  articles db = (P ++ rest)%list /\ NoDup (map ar_id (P ++ rest)%list)
  /\ map ar_base_url P = map (fun kv => Some (fst kv)) (rev m) /\ NoDup (map fst m).

(** The non-blank stored base identities of the rows. *)
Definition live_identities (l : list article_row) : list string :=
  flat_map (fun r => match ar_base_url r with
                     | Some b => if String.eqb (TrimSpace b) "" then [] else [b]
                     | None => []
                     end) l.

(** What ingestion keeps: positive rowids, and no two rows sharing a
    non-blank base identity. *)
Definition ins_inv (db : DB) : Prop :=
  Forall (fun r => (0 < ar_id r)%Z) (articles db) /\ NoDup (live_identities (articles db)).

(** A feed, incoming articles and an empty store for the ingest examples. *)
Definition ex_feed1 : Feed := Fd.mkFeed 1 "" "https://a.test/rss" "" "" 0%Z 0%Z 0%Z.

Definition ex_in (guid url : string) : Article :=
  Art.mkArticle 0 0 guid "" url "" "" "" "" 1000%Z 0%Z false false "".

Definition ex_db0 : DB := mkDB [ex_feed_row 1 "https://a.test/rss"] [] [] [] [] [] no_draw.

(** The store after ingesting two articles with no URL. *)
Definition ex_ing : DB :=
  fst (InsertArticles no_fault ex_feed1 5000%Z [ex_in "a" ""; ex_in "b" ""] ex_db0).

(** The GUID and the base identity [InsertArticles] derives for an incoming
    article. *)
Definition incoming_guid (a : Article) : string := Art.GUID (normalize_incoming a).

Definition incoming_identity (a : Article) : string := Art.BaseURL (normalize_incoming a).

(** [M] of the fold count: the incoming articles whose identity is the
    stored base identity of a live row. *)
Definition live_match (rows : list article_row) (a : Article) : bool :=
  existsb (fun r => opt_str_eqb (ar_base_url r) (incoming_identity a)) rows.

Definition count_live (rows : list article_row) (incoming : list Article) : nat :=
  length (filter (live_match rows) incoming).

(** The GUIDs [InsertArticles] reads for a feed before its loop. *)
Definition known_guids (db : DB) (feedID : Z) : list string :=
  (map ar_guid (filter (fun r => Z.eqb (ar_feed_id r) feedID) (articles db))
   ++ map dr_guid (filter (fun r => Z.eqb (dr_feed_id r) feedID) (deleted db)))%list.

(** An incoming article, the id of the live row it ends up in, and the
    [article_sources] row linking that row to the feed. *)
Definition lands_in (db : DB) (feedID : Z) (a : Article) (t : Z) : Prop :=
  exists r, In r (articles db) /\ ar_id r = t /\ ar_base_url r = Some (incoming_identity a)
            /\ source_exists db t feedID = true.

(** Two incoming articles: one of the identity of [ex_db1]'s article, one new. *)
Definition ex_batch3 : list Article :=
  [ex_in "a" "https://x.test/p?a=1"; ex_in "b" "https://y.test/q"].

(** A row that reconciliation has settled: its stored identity is the one
    [merge_identity] recomputes from it, and it has a source row for its
    own feed. *)
Definition settled (db : DB) (r : article_row) : Prop :=
  exists b, ar_base_url r = Some b /\ merge_identity (ar_url r) b = b
            /\ source_exists db (ar_id r) (ar_feed_id r) = true.

(** The rows before the cursor of [merge_loop] are settled; the rows after
    it have trimmed URLs. *)
Definition fix_inv (P rest : list article_row) (db : DB) : Prop :=
  articles db = (P ++ rest)%list /\ NoDup (map ar_id (P ++ rest)%list)
  /\ Forall (fun r => TrimSpace (ar_url r) = ar_url r) rest /\ Forall (settled db) P.

(** The counts of the tables. *)
Definition table_counts (db : DB) : nat * nat * nat * nat :=
  (length (articles db), length (article_sources db), length (summaries db), length (saved db)).

(** Two live articles whose URLs differ only by a leading space, both with
    an empty stored identity. *)
Definition ex_db2 : DB :=
  mkDB [ex_feed_row 1 "https://a.test/rss"]
       [ex_row 1 1 "g1" " #a" (Some ""); ex_row 2 1 "g2" "#a" (Some "")] [] [] [] [] no_draw.

(** Stores, values and notions used by the further properties below. *)

Local Open Scope Z_scope.

(** The shape [ImportState] leaves: no stored base identity anywhere. *)
Definition imported_shape (db : DB) : Prop :=
  Forall (fun r => ar_base_url r = None) (articles db)
  /\ Forall (fun r => dr_base_url r = None) (deleted db).

(** Two feeds with an article each; the article of feed 2 is also seen
    in feed 1; a summary, a bookmark. *)
Definition ex_db_feeds : DB :=
  mkDB [ex_feed_row 1 "https://a.test/rss"; ex_feed_row 2 "https://b.test/rss"]
       [ex_row 1 1 "g1" "https://x.test/p" (Some "https://x.test/p");
        ex_row 2 2 "g2" "https://y.test/q" (Some "https://y.test/q")]
       [mkSummaryRow 7 1 "summary" "model" 0] [mkSavedRow 2 11 "" 0] []
       [mkSourceRow 1 1 0; mkSourceRow 1 2 0; mkSourceRow 2 2 0] no_draw.

(** Feeds given to [InsertFeed] and [UpdateFeed] in the examples, and a
    storage engine that fails exactly at one statement. *)
Definition ex_feed_new : Feed := Fd.mkFeed 0 "C" "https://c.test/rss" "" "" 0 0 0.
Definition ex_feed_dup : Feed := Fd.mkFeed 0 "A" "https://a.test/rss" "" "" 0 0 0.
Definition ex_feed_upd : Feed := Fd.mkFeed 2 "B" "https://b.test/atom" "" "" 0 10 10.
Definition fault_at (s : string) : string -> DB -> bool := fun s' _ => String.eqb s' s.

(** The summary [UpsertSummary] stores: a zero [GeneratedAt] is replaced by
    the current time. *)
Definition normalized_summary (now : time) (s0 : Summary) : Summary :=
  if IsZero (Sm.GeneratedAt s0) then set_GeneratedAt s0 now else s0.

(** A summary for article 1, and a store whose summary row has id 0. *)
Definition ex_summary : Summary := Sm.mkSummary 0 1 "text" "model" zero_time.

(** [ex_db1] with a summary of its article. *)
Definition ex_db_sum0 : DB :=
  with_summaries ex_db1 [mkSummaryRow 0 1 "old" "model" 5].

(** The article [UpdateArticle] writes: a blank [BaseURL] is recomputed
    from the URL. *)
Definition filled_article (article0 : Article) : Article :=
  if String.eqb (Art.BaseURL article0) "" then set_BaseURL article0 (baseURL (Art.URL article0))
  else article0.

(** Article 1 of [ex_db1], retitled and read, with a tracking parameter. *)
Definition ex_article_upd : Article :=
  Art.mkArticle 1 1 "g" "new title" "https://x.test/p?utm=1" "" "" "" "" 0 0 true false "".

(** Two articles fetched at 100 and 90000; a summary and a bookmark of a
    missing article. *)
Definition ex_db_old : DB :=
  mkDB [ex_feed_row 1 "https://a.test/rss"]
       [mkArticleRow 1 1 "g1" "" "https://x.test/1" (Some "https://x.test/1") "" "" "" 0 100 0 0 "";
        mkArticleRow 2 1 "g2" "" "https://x.test/2" (Some "https://x.test/2") "" "" "" 0 90000 0 0 ""]
       [mkSummaryRow 7 1 "s" "m" 0; mkSummaryRow 8 2 "s" "m" 0; mkSummaryRow 9 5 "s" "m" 0]
       [mkSavedRow 1 11 "" 0; mkSavedRow 5 12 "" 0] [] [] no_draw.

(** The row [ImportState] inserts for a summary. *)
Definition imported_summary_row (s : Summary) : summary_row :=
  mkSummaryRow (Sm.ID s) (Sm.ArticleID s) (Sm.Content s) (Sm.Model s) (timeToUnix (Sm.GeneratedAt s)).

(** [ex_db1] with a summary of its article, generated at time 5. *)
Definition ex_db_sum : DB := with_summaries ex_db1 [mkSummaryRow 7 1 "summary" "model" 5].

Local Close Scope Z_scope.

(* ================================================================= *)
(** ** Proofs *)

(** *** Sanity checks of the normaliser *)

Example trim_ex : TrimSpace "  ab c " = "ab c".
Proof. reflexivity. Qed.
Example baseURL_ex1 : baseURL "https://x.test/post?a=1" = "https://x.test/post".
Proof. vm_compute. reflexivity. Qed.
Example baseURL_ex2 : baseURL "https://x.test/post?b=2#c" = "https://x.test/post".
Proof. vm_compute. reflexivity. Qed.

(** *** The statement monad *)

Lemma bind_inv {A B} (m : TxM A) (k : A -> TxM B) db b db' :
  bind m k db = Ok (b, db') ->
  exists a db1, m db = Ok (a, db1) /\ k a db1 = Ok (b, db').
Proof.
  unfold bind. destruct (m db) as [[a db1]|e]; intro H; [|discriminate].
  exists a, db1. auto.
Qed.

Lemma exec_inv {A} fault sql (f : DB -> result (A * DB)) db a db' :
  exec fault sql f db = Ok (a, db') -> fault sql db = false /\ f db = Ok (a, db').
Proof. unfold exec. destruct (fault sql db); [discriminate | auto]. Qed.

Ltac inv_bind H :=
  let a := fresh "a" in let d := fresh "db" in let H1 := fresh "Hm" in let H2 := fresh "Hk" in
  apply bind_inv in H; destruct H as (a & d & H1 & H2).

Ltac inv_exec H :=
  let Hf := fresh "Hfault" in apply exec_inv in H; destruct H as [Hf H].

Lemma ret_inv {A} (a : A) db a' db' : ret a db = Ok (a', db') -> a' = a /\ db' = db.
Proof. unfold ret. intro H. inversion H. auto. Qed.

(** A failed transaction leaves the database as it was. *)
Lemma transact_err {A} fault (body : TxM A) db db' e :
  transact fault body db = (db', Err e) -> db' = db.
Proof.
  unfold transact. destruct (fault "BEGIN" db); [intro H; inversion H; auto|].
  destruct (body db) as [[a db1]|e']; [|intro H; inversion H; auto].
  destruct (fault "COMMIT" db1); intro H; inversion H; auto.
Qed.

Lemma transact_ok {A} fault (body : TxM A) db db' a :
  transact fault body db = (db', Ok a) -> body db = Ok (a, db').
Proof.
  unfold transact. destruct (fault "BEGIN" db); [intro H; inversion H|].
  destruct (body db) as [[a' db1]|e']; [|intro H; inversion H].
  destruct (fault "COMMIT" db1); intro H; inversion H; subst; auto.
Qed.

Lemma with_sources_same db : with_sources db (article_sources db) = db.
Proof. destruct db; reflexivity. Qed.

Lemma map_refresh_zero a f t l :
  IsZero t = true -> map (refresh_src a f t) l = l.
Proof.
  intro Hz. assert (E : timeToUnix t = 0%Z) by (unfold timeToUnix; rewrite Hz; reflexivity).
  induction l as [|s l IH]; [reflexivity|].
  simpl. rewrite IH. f_equal. unfold refresh_src. rewrite E.
  destruct s as [sa sf sp]; simpl.
  destruct (Z.eqb sa a && Z.eqb sf f && Z.eqb sp 0) eqn:E'; [|reflexivity].
  apply andb_true_iff in E' as [_ E']. apply Z.eqb_eq in E'. subst. reflexivity.
Qed.

(** What a successful [ensureArticleSource] did: refreshed the existing
    row, or inserted one (both foreign keys holding). *)
Lemma ensure_inv fault a f t db u db' :
  ensureArticleSource fault a f t db = Ok (u, db') ->
  (source_exists db a f = true
   /\ db' = with_sources db (map (refresh_src a f t) (article_sources db)))
  \/ (source_exists db a f = false /\ article_exists db a = true /\ feed_exists db f = true
      /\ db' = with_sources db (article_sources db ++ [mkSourceRow a f (timeToUnix t)])).
Proof.
  unfold ensureArticleSource. intro H. inv_bind H. inv_exec Hm. inversion Hm; subst a0 db0.
  destruct (source_exists db a f) eqn:Ex.
  - left. split; [reflexivity|].
    destruct (IsZero t) eqn:Z.
    + apply ret_inv in Hk as [_ ->]. rewrite map_refresh_zero by exact Z.
      symmetry; apply with_sources_same.
    + inv_exec Hk. inversion Hk. reflexivity.
  - right. inv_exec Hk.
    destruct (article_exists db a) eqn:A, (feed_exists db f) eqn:F; simpl in Hk; try discriminate.
    inversion Hk. auto.
Qed.

(** *** [ensureArticleSource] on one (article, feed) pair *)

Lemma src_of_with_map a f t l db :
  src_of (with_sources db (map (refresh_src a f t) l)) a f
  = map (refresh_src a f t) (filter (fun s => Z.eqb (src_article_id s) a && Z.eqb (src_feed_id s) f) l).
Proof.
  unfold src_of. simpl. induction l as [|s l IH]; [reflexivity|]. simpl.
  assert (E : Z.eqb (src_article_id (refresh_src a f t s)) a && Z.eqb (src_feed_id (refresh_src a f t s)) f
              = Z.eqb (src_article_id s) a && Z.eqb (src_feed_id s) f).
  { unfold refresh_src. destruct (_ && _ && _); reflexivity. }
  rewrite E. destruct (Z.eqb (src_article_id s) a && Z.eqb (src_feed_id s) f); simpl; rewrite IH; reflexivity.
Qed.

Lemma src_of_with_app a f l r db :
  src_of (with_sources db (l ++ [r])) a f
  = (filter (fun s => Z.eqb (src_article_id s) a && Z.eqb (src_feed_id s) f) l
    ++ filter (fun s => Z.eqb (src_article_id s) a && Z.eqb (src_feed_id s) f) [r])%list.
Proof. unfold src_of. simpl. apply filter_app. Qed.

Lemma src_of_nil_exists db a f : src_of db a f = [] -> source_exists db a f = false.
Proof.
  unfold src_of, source_exists. induction (article_sources db) as [|s l IH]; [reflexivity|].
  simpl. destruct (_ && _); [discriminate|auto].
Qed.

Lemma src_of_cons_exists db a f r l : src_of db a f = r :: l -> source_exists db a f = true.
Proof.
  unfold src_of, source_exists. induction (article_sources db) as [|s l' IH]; [discriminate|].
  simpl. destruct (_ && _); [reflexivity|auto].
Qed.

(** One call: a missing row is created with the observation; a stored 0
    takes the observation; a stored known time stays. *)
Lemma ensure_src_step fault a f t db u db' :
  ensureArticleSource fault a f t db = Ok (u, db') ->
  (src_of db a f = [] -> src_of db' a f = [mkSourceRow a f (timeToUnix t)])
  /\ (forall p, src_of db a f = [mkSourceRow a f p] ->
       src_of db' a f = [mkSourceRow a f (if Z.eqb p 0 then timeToUnix t else p)]).
Proof.
  intro H. apply ensure_inv in H.
  destruct H as [(Ex & ->) | (Ex & _ & _ & ->)]; split.
  - intro N. apply src_of_nil_exists in N. congruence.
  - intros p Hp. rewrite src_of_with_map. unfold src_of in Hp. rewrite Hp. simpl.
    unfold refresh_src. simpl. rewrite !Z.eqb_refl. simpl.
    destruct (Z.eqb p 0); reflexivity.
  - intro N. rewrite src_of_with_app. unfold src_of in N. rewrite N. simpl.
    rewrite !Z.eqb_refl. reflexivity.
  - intros p Hp. apply src_of_cons_exists in Hp. congruence.
Qed.

Lemma for_each_cons_inv {X} (g : X -> TxM unit) x xs db u db' :
  for_each g (x :: xs) db = Ok (u, db') ->
  exists db1, g x db = Ok (tt, db1) /\ for_each g xs db1 = Ok (u, db').
Proof.
  simpl. intro H. apply bind_inv in H. destruct H as ([] & db1 & H1 & H2). eauto.
Qed.

Lemma ensure_seq_known fault a f ts : forall db db' p,
  for_each (fun t => ensureArticleSource fault a f t) ts db = Ok (tt, db') ->
  src_of db a f = [mkSourceRow a f p] ->
  src_of db' a f = [mkSourceRow a f (if Z.eqb p 0 then first_known ts else p)].
Proof.
  induction ts as [|t ts IH]; intros db db' p H Hp.
  - simpl in H. inversion H; subst. destruct (Z.eqb p 0) eqn:E; [|exact Hp].
    apply Z.eqb_eq in E. subst. exact Hp.
  - apply for_each_cons_inv in H as (db1 & H1 & H2).
    apply ensure_src_step in H1 as [_ H1]. specialize (H1 p Hp).
    rewrite (IH _ _ _ H2 H1). simpl.
    destruct (Z.eqb p 0) eqn:E; [reflexivity|]. rewrite E. reflexivity.
Qed.

(** *** Loops and invariants *)

Lemma for_each_preserve {X} (P : DB -> Prop) (g : X -> TxM unit) :
  (forall x db db', g x db = Ok (tt, db') -> P db -> P db') ->
  forall xs db db', for_each g xs db = Ok (tt, db') -> P db -> P db'.
Proof.
  intros Hg xs. induction xs as [|x xs IH]; intros db db' H HP.
  - simpl in H. inversion H; subst. exact HP.
  - apply for_each_cons_inv in H as (db1 & H1 & H2). eauto.
Qed.

Lemma insert_by_key_Forall {R} (Q : R -> Prop) key r l :
  Q r -> Forall Q l -> Forall Q (insert_by_key key r l).
Proof.
  intros Hr Hl. induction Hl as [|x l Hx Hl IH]; simpl; [constructor; auto|].
  destruct (Z.ltb (key r) (key x)); constructor; auto.
Qed.

(** *** [ImportState] *)

Definition no_identities (db : DB) : Prop :=
  Forall (fun r => ar_base_url r = None) (articles db) /\ article_sources db = [].

Ltac exec_step H :=
  let Hf := fresh "Hfault" in
  unfold exec in H; destruct (_ : bool) eqn:Hf in H; [discriminate|].

Lemma import_article_keeps fault x db db' :
  import_article fault x db = Ok (tt, db') -> no_identities db -> no_identities db'.
Proof.
  unfold import_article. intro H. inv_exec H.
  destruct (article_exists db _); [discriminate|].
  destruct (existsb _ _); [discriminate|]. inversion H; subst.
  intros [H1 H2]. split; [|exact H2]. simpl.
  apply insert_by_key_Forall; auto.
Qed.

Lemma import_feed_keeps fault x db db' :
  import_feed fault x db = Ok (tt, db') -> no_identities db -> no_identities db'.
Proof.
  unfold import_feed. intro H. inv_exec H.
  destruct (existsb _ _); [discriminate|]. destruct (existsb _ _); [discriminate|].
  inversion H; subst. intros [H1 H2]. split; assumption.
Qed.

Lemma import_summary_keeps fault x db db' :
  import_summary fault x db = Ok (tt, db') -> no_identities db -> no_identities db'.
Proof.
  unfold import_summary. intro H. inv_exec H.
  destruct (existsb _ _); [discriminate|]. destruct (existsb _ _); [discriminate|].
  destruct (negb _); [discriminate|].
  inversion H; subst. intros [H1 H2]. split; assumption.
Qed.

Lemma import_saved_keeps fault tm x db db' :
  import_saved fault tm x db = Ok (tt, db') -> no_identities db -> no_identities db'.
Proof.
  unfold import_saved. intro H. inv_bind H. inv_exec Hm. inversion Hm; subst. inv_exec Hk.
  destruct (existsb _ _); [discriminate|]. destruct (negb _); [discriminate|].
  inversion Hk; subst. intros [H1 H2]. split; assumption.
Qed.

Lemma import_deleted_keeps fault x db db' :
  import_deleted fault x db = Ok (tt, db') -> no_identities db -> no_identities db'.
Proof.
  unfold import_deleted. intro H. inv_exec H. unfold insert_deleted_auto in H.
  destruct (new_rowid _ _); inversion H; subst. intros [H1 H2]. split; assumption.
Qed.

(** *** [DeleteArticle] and [UndeleteLast] *)

Lemma fold_max_ge i rest : forall x, In x (i :: rest) -> (x <= fold_right Z.max i rest)%Z.
Proof.
  induction rest as [|j rest IH]; intros x Hx.
  - destruct Hx as [->|[]]. simpl. lia.
  - simpl. destruct Hx as [->|[->|Hx]].
    + specialize (IH x (or_introl eq_refl)). lia.
    + lia.
    + specialize (IH x (or_intror Hx)). lia.
Qed.

(** A row inserted without an id gets an id above every id of its table. *)
Lemma next_rowid_gt ids : Forall (fun x => (x < next_rowid ids)%Z) ids.
Proof.
  apply Forall_forall. destruct ids as [|i rest]; [intros x []|].
  intros x Hx. apply fold_max_ge in Hx. simpl. lia.
Qed.

Lemma next_rowid_pos ids : Forall (fun x => (0 < x)%Z) ids -> (0 < next_rowid ids)%Z.
Proof.
  destruct ids as [|i rest]; [simpl; lia|].
  intro H. inversion H; subst.
  pose proof (fold_max_ge i rest i (or_introl eq_refl)). simpl. lia.
Qed.

Lemma new_rowid_cases draw ids id :
  new_rowid draw ids = Some id ->
  (Forall (fun i => (i < MAX_ROWID)%Z) ids /\ id = next_rowid ids)
  \/ ((1 <= id <= 2 ^ 62)%Z /\ ~ In id ids).
Proof.
  unfold new_rowid. destruct (forallb _ ids) eqn:F.
  - intro H. inversion H; subst. left. split; [|reflexivity].
    apply Forall_forall. intros x Hx. rewrite forallb_forall in F.
    apply Z.ltb_lt, F, Hx.
  - destruct (draw ids) as [v|]; [|discriminate].
    destruct (Z.leb 1 v) eqn:A; [|discriminate]. destruct (Z.leb v (2 ^ 62)) eqn:B; [|discriminate].
    destruct (existsb (Z.eqb v) ids) eqn:C; [discriminate|].
    intro H. inversion H; subst. right. apply Z.leb_le in A. apply Z.leb_le in B.
    split; [lia|]. intro I. rewrite <- (Bool.not_true_iff_false) in C. apply C.
    apply existsb_exists. exists id. split; [exact I | apply Z.eqb_refl].
Qed.

(** A rowid the engine gives is not in use, and positive when the table's
    are. *)
Lemma new_rowid_fresh draw ids id : new_rowid draw ids = Some id -> ~ In id ids.
Proof.
  intro H. destruct (new_rowid_cases _ _ _ H) as [[_ ->] | [_ N]]; [|exact N].
  intro I. pose proof (next_rowid_gt ids) as G. rewrite Forall_forall in G.
  specialize (G _ I). lia.
Qed.

Lemma new_rowid_pos draw ids id :
  Forall (fun x => (0 < x)%Z) ids -> new_rowid draw ids = Some id -> (0 < id)%Z.
Proof.
  intros P H. destruct (new_rowid_cases _ _ _ H) as [[_ ->] | [R _]]; [|lia].
  apply next_rowid_pos, P.
Qed.

(** Below [MAX_ROWID], the rowid is [next_rowid]. *)
Lemma new_rowid_seq draw ids :
  Forall (fun i => (i < MAX_ROWID)%Z) ids -> new_rowid draw ids = Some (next_rowid ids).
Proof.
  intro F. unfold new_rowid. replace (forallb _ ids) with true; [reflexivity|].
  symmetry. apply forallb_forall. intros x Hx. rewrite Forall_forall in F.
  apply Z.ltb_lt, F, Hx.
Qed.

Lemma next_rowid_le_max ids :
  Forall (fun i => (i < MAX_ROWID)%Z) ids -> (next_rowid ids <= MAX_ROWID)%Z.
Proof.
  destruct ids as [|i rest]; [unfold MAX_ROWID; simpl; lia|].
  intro F. simpl. induction rest as [|j rest IH]; simpl.
  - inversion F; subst. lia.
  - inversion F as [|? ? Fi Fr]; subst. inversion Fr as [|? ? Fj Fr']; subst.
    assert (F' : Forall (fun i0 => (i0 < MAX_ROWID)%Z) (i :: rest)) by (constructor; assumption).
    specialize (IH F'). simpl in IH. lia.
Qed.

(** A row whose key is above every key of the table goes last. *)
Lemma insert_by_key_last {R} (key : R -> Z) r l :
  Forall (fun x => (key x < key r)%Z) l -> insert_by_key key r l = (l ++ [r])%list.
Proof.
  induction 1 as [|x l Hx _ IH]; [reflexivity|].
  simpl. destruct (Z.ltb_spec (key r) (key x)); [lia|]. rewrite IH. reflexivity.
Qed.

Lemma insert_by_key_perm {R} (key : R -> Z) r l : Permutation (insert_by_key key r l) (r :: l).
Proof.
  induction l as [|x l IH]; simpl; [auto|].
  destruct (Z.ltb (key r) (key x)); [reflexivity|].
  rewrite IH. apply perm_swap.
Qed.

Lemma insert_by_key_In {R} (key : R -> Z) r l x :
  In x (insert_by_key key r l) <-> x = r \/ In x l.
Proof.
  split.
  - intro I. apply (Permutation_in _ (insert_by_key_perm key r l)) in I. destruct I; auto.
  - intro I. apply (Permutation_in _ (Permutation_sym (insert_by_key_perm key r l))).
    destruct I as [->|I]; [left; reflexivity | right; exact I].
Qed.

Lemma max_deleted_last l x :
  Forall (fun r => (dr_id r < dr_id x)%Z) l -> max_deleted (l ++ [x])%list = Some x.
Proof.
  induction 1 as [|r l Hr Hl IH]; [reflexivity|].
  simpl. rewrite IH. apply Z.ltb_lt in Hr. rewrite Hr. reflexivity.
Qed.

Lemma time_roundtrip v : timeFromUnix (timeToUnix (timeFromUnix v)) = timeFromUnix v.
Proof.
  unfold timeFromUnix. destruct (Z.eqb_spec v 0) as [->|N]; [reflexivity|].
  unfold timeToUnix, IsZero, Unix, unix_time, zero_time, nano_per_sec. cbn [unix_nano].
  destruct (Z.eqb_spec (v * 1000000000) (-62135596800 * 1000000000)) as [E|E].
  - rewrite Z.eqb_refl. f_equal. symmetry; exact E.
  - rewrite Z.div_mul by discriminate. apply Z.eqb_neq in N. rewrite N. reflexivity.
Qed.

Lemma flag_roundtrip x : negb (Z.eqb (boolToInt (negb (Z.eqb x 0))) 0) = negb (Z.eqb x 0).
Proof. destruct (Z.eqb x 0); reflexivity. Qed.

(** What a successful [DeleteArticle] did. *)
Lemma DeleteArticle_inv fault now id db db1 a :
  DeleteArticle fault now id db = (db1, Ok a) ->
  exists r tid, find (fun r => Z.eqb (ar_id r) id) (articles db) = Some r
    /\ scanArticle r = Some a
    /\ new_rowid (rowid_draw db) (map dr_id (deleted db)) = Some tid
    /\ deleted db1 = insert_by_key dr_id (deleted_row_of a now tid) (deleted db).
Proof.
  unfold DeleteArticle, autocommit, select_article, exec.
  destruct (fault _ db); [intro H; inversion H|].
  destruct (find _ (articles db)) as [r|] eqn:F; [|intro H; inversion H].
  destruct (scanArticle r) as [a0|] eqn:S; [|intro H; inversion H].
  intro H. apply transact_ok in H. unfold DeleteArticle_body in H.
  do 3 (apply bind_inv in H as (? & ? & E1 & H); apply exec_inv in E1 as [_ E1];
        inversion E1; subst; clear E1).
  apply bind_inv in H as (? & ? & E1 & H); apply exec_inv in E1 as [_ E1].
  unfold insert_deleted_auto in E1. simpl in E1.
  destruct (new_rowid _ _) as [tid|] eqn:N; inversion E1; subst; clear E1.
  apply ret_inv in H as [-> ->]. exists r, tid. simpl. auto.
Qed.
(** What a successful [UndeleteLast] did. *)
Lemma UndeleteLast_inv fault db1 db2 a' :
  UndeleteLast fault db1 = (db2, Ok a') ->
  exists r deletedID article0 nid,
    max_deleted (deleted db1) = Some r /\ scanDeleted r = Some (deletedID, article0)
    /\ new_rowid (rowid_draw db1) (map ar_id (articles db1)) = Some nid
    /\ a' = set_ID (undelete_article article0) nid
    /\ articles db2 = insert_by_key ar_id (article_row_of (undelete_article article0) nid)
                                   (articles db1)
    /\ deleted db2 = filter (fun x => negb (Z.eqb (dr_id x) deletedID)) (deleted db1).
Proof.
  unfold UndeleteLast, autocommit at 1, select_last_deleted, exec at 1.
  destruct (fault _ db1); [intro H; inversion H|].
  destruct (max_deleted (deleted db1)) as [r|] eqn:M; [|intro H; inversion H].
  destruct (scanDeleted r) as [[deletedID article0]|] eqn:S; [|intro H; inversion H].
  fold (undelete_article article0).
  unfold autocommit at 1, insert_article_stmt, exec at 1, insert_article_auto.
  destruct (fault _ db1); [intro H; inversion H|].
  destruct (new_rowid _ _) as [nid|] eqn:N; [|intro H; inversion H].
  destruct (existsb _ _); [intro H; inversion H|].
  unfold autocommit at 1, lastInsertID, exec at 1.
  destruct (fault _ _); [intro H; inversion H|].
  unfold autocommit, exec.
  destruct (fault _ _); intro H; inversion H; subst.
  exists r, deletedID, article0, nid. repeat split; auto.
Qed.
Lemma ensure_keeps fault a f t db u db' :
  ensureArticleSource fault a f t db = Ok (u, db') ->
  feeds db' = feeds db /\ articles db' = articles db /\ summaries db' = summaries db
  /\ saved db' = saved db /\ deleted db' = deleted db.
Proof.
  intro H. apply ensure_inv in H as [(_ & ->) | (_ & _ & _ & ->)]; repeat split; reflexivity.
Qed.

(** *** [strings.TrimSpace] is idempotent *)

Lemma str_app_assoc (a b c : string) : (a ++ b) ++ c = a ++ (b ++ c).
Proof. induction a as [|x a IH]; simpl; [reflexivity | rewrite IH; reflexivity]. Qed.

Lemma str_app_nil (a : string) : a ++ "" = a.
Proof. induction a as [|x a IH]; simpl; [reflexivity | rewrite IH; reflexivity]. Qed.

Lemma str_rev_app_spec s : forall acc, str_rev_app s acc = str_rev s ++ acc.
Proof.
  induction s as [|c s IH]; intro acc; [reflexivity|]. unfold str_rev. simpl.
  rewrite IH, (IH (String c "")), str_app_assoc. reflexivity.
Qed.

Lemma str_rev_cons c s : str_rev (String c s) = str_rev s ++ String c "".
Proof. unfold str_rev at 1. simpl. apply str_rev_app_spec. Qed.

Lemma str_rev_distr a b : str_rev (a ++ b) = str_rev b ++ str_rev a.
Proof.
  induction a as [|c a IH]; simpl.
  - rewrite str_app_nil. reflexivity.
  - rewrite !str_rev_cons, IH, str_app_assoc. reflexivity.
Qed.

Lemma str_rev_involutive s : str_rev (str_rev s) = s.
Proof.
  induction s as [|c s IH]; [reflexivity|].
  rewrite str_rev_cons, str_rev_distr, IH. reflexivity.
Qed.

Section TrimHead.
Variables (sp1 : ascii -> bool) (sp2 : ascii -> ascii -> bool) (sp3 : ascii -> ascii -> ascii -> bool).

Local Notation th := (trim_head sp1 sp2 sp3).

(** [trim_head] drops a prefix. *)
Lemma trim_head_suffix s : exists p, s = p ++ th s.
Proof.
  induction s as [s IH] using (well_founded_induction
    (Wf_nat.well_founded_ltof _ String.length)).
  destruct s as [|c1 r1]; [exists ""; reflexivity|]. simpl.
  destruct (sp1 c1).
  { destruct (IH r1) as [p E]; [unfold Wf_nat.ltof; simpl; lia|].
    exists (String c1 p). simpl. congruence. }
  destruct r1 as [|c2 r2]; [exists ""; reflexivity|].
  destruct (sp2 c1 c2).
  { destruct (IH r2) as [p E]; [unfold Wf_nat.ltof; simpl; lia|].
    exists (String c1 (String c2 p)). simpl. congruence. }
  destruct r2 as [|c3 r3]; [exists ""; reflexivity|].
  destruct (sp3 c1 c2 c3); [|exists ""; reflexivity].
  destruct (IH r3) as [p E]; [unfold Wf_nat.ltof; simpl; lia|].
  exists (String c1 (String c2 (String c3 p))). simpl. congruence.
Qed.

Lemma str_length_app a b : String.length (a ++ b) = String.length a + String.length b.
Proof. induction a as [|c a IH]; simpl; [reflexivity | rewrite IH; reflexivity]. Qed.

Lemma trim_head_length s : String.length (th s) <= String.length s.
Proof. destruct (trim_head_suffix s) as [p E]. rewrite E at 2. rewrite str_length_app. lia. Qed.

Lemma trim_head_idem s : th (th s) = th s.
Proof.
  induction s as [s IH] using (well_founded_induction
    (Wf_nat.well_founded_ltof _ String.length)).
  destruct s as [|c1 r1]; [reflexivity|]. simpl.
  destruct (sp1 c1) eqn:E1.
  { apply IH. unfold Wf_nat.ltof. simpl. lia. }
  destruct r1 as [|c2 r2]; [simpl; rewrite E1; reflexivity|].
  destruct (sp2 c1 c2) eqn:E2.
  { apply IH. unfold Wf_nat.ltof. simpl. lia. }
  destruct r2 as [|c3 r3]; [simpl; rewrite E1, E2; reflexivity|].
  destruct (sp3 c1 c2 c3) eqn:E3.
  { apply IH. unfold Wf_nat.ltof. simpl. lia. }
  simpl. rewrite E1, E2, E3. reflexivity.
Qed.

(** A prefix of a string [trim_head] keeps whole is kept whole. *)
Lemma trim_head_prefix_fixed a b : th (a ++ b) = a ++ b -> th a = a.
Proof.
  destruct a as [|c1 r1]; [reflexivity|]. simpl.
  assert (L : forall x, th x = String c1 (r1 ++ b) ->
              String.length x < String.length (String c1 (r1 ++ b)) -> False).
  { intros x E Lx. pose proof (trim_head_length x) as Ly. rewrite E in Ly. lia. }
  destruct (sp1 c1) eqn:E1.
  { intro E. exfalso. apply (L _ E). simpl. rewrite str_length_app.
    destruct r1; simpl; lia. }
  destruct r1 as [|c2 r2]; [reflexivity|]. simpl.
  destruct (sp2 c1 c2) eqn:E2.
  { intro E. exfalso. apply (L _ E). simpl. rewrite str_length_app. lia. }
  destruct r2 as [|c3 r3]; [reflexivity|]. simpl.
  destruct (sp3 c1 c2 c3) eqn:E3; [|reflexivity].
  intro E. exfalso. apply (L _ E). simpl. rewrite str_length_app. lia.
Qed.

End TrimHead.

Lemma trim_right_prefix s : exists q, s = trim_right s ++ q.
Proof.
  unfold trim_right.
  destruct (trim_head_suffix ascii_space (fun c2 c1 => space2 c1 c2)
              (fun c3 c2 c1 => space3 c1 c2 c3) (str_rev s)) as [p E].
  exists (str_rev p). rewrite <- str_rev_distr, <- E, str_rev_involutive. reflexivity.
Qed.

Lemma trim_right_idem s : trim_right (trim_right s) = trim_right s.
Proof. unfold trim_right. rewrite str_rev_involutive, trim_head_idem. reflexivity. Qed.

Lemma TrimSpace_idem s : TrimSpace (TrimSpace s) = TrimSpace s.
Proof.
  unfold TrimSpace.
  assert (F : trim_left (trim_right (trim_left s)) = trim_right (trim_left s)).
  { destruct (trim_right_prefix (trim_left s)) as [q E].
    apply (trim_head_prefix_fixed _ _ _ _ q). rewrite <- E. apply trim_head_idem. }
  rewrite F. apply trim_right_idem.
Qed.

(** *** No query or fragment byte in a serialised URL *)

Lemma mem_app c a b : mem c (a ++ b) = mem c a || mem c b.
Proof. induction a as [|d a IH]; simpl; [reflexivity | rewrite IH, orb_assoc; reflexivity]. Qed.

Lemma mem_take c n s : mem c s = false -> mem c (str_take n s) = false.
Proof.
  revert n. induction s as [|d s IH]; intros [|n]; simpl; auto.
  intro H. apply orb_false_iff in H as [H1 H2]. rewrite H1, IH; auto.
Qed.

Lemma mem_drop c n s : mem c s = false -> mem c (str_drop n s) = false.
Proof.
  revert n. induction s as [|d s IH]; intros [|n]; simpl; auto.
  intro H. apply orb_false_iff in H as [H1 H2]. auto.
Qed.

Lemma index_char_take c s i : index_char c s = Some i -> mem c (str_take i s) = false.
Proof.
  revert i. induction s as [|d s IH]; intros i; simpl; [discriminate|].
  destruct (ceq c d) eqn:E.
  - intro H. inversion H. reflexivity.
  - destruct (index_char c s) as [j|]; intro H; inversion H; subst. simpl. rewrite E. simpl. auto.
Qed.

Lemma index_char_none c s : index_char c s = None -> mem c s = false.
Proof.
  induction s as [|d s IH]; simpl; [auto|].
  destruct (ceq c d); [discriminate|]. destruct (index_char c s); [discriminate|]. auto.
Qed.

Lemma cut_char_before c s : mem c (fst (fst (cut_char c s))) = false.
Proof.
  unfold cut_char. destruct (index_char c s) eqn:E; simpl.
  - exact (index_char_take _ _ _ E).
  - exact (index_char_none _ _ E).
Qed.

Lemma cut_char_before_keeps c d s : mem d s = false -> mem d (fst (fst (cut_char c s))) = false.
Proof. unfold cut_char. intro H. destruct (index_char c s); [exact (mem_take _ _ _ H) | exact H]. Qed.

Lemma cut_char_after_keeps c d s : mem d s = false -> mem d (snd (fst (cut_char c s))) = false.
Proof. unfold cut_char. intro H. destruct (index_char c s); [exact (mem_drop _ _ _ H) | reflexivity]. Qed.

Lemma ceq_neq c d : c <> d -> ceq c d = false.
Proof. intro N. unfold ceq. destruct (Ascii.eqb_spec c d); congruence. Qed.

Lemma upperhex_qf c n : qf c -> n < 16 -> NetURL.upperhex n <> c.
Proof.
  intros Hc Hn. destruct Hc as [-> | ->];
  do 16 (destruct n as [|n]; [vm_compute; discriminate|]); lia.
Qed.

Lemma escape_clean c mode s :
  qf c -> NetURL.shouldEscape c mode = true -> mem c (NetURL.escape s mode) = false.
Proof.
  intros Hc Hs. induction s as [|d s IH]; [reflexivity|]. cbn [NetURL.escape].
  assert (B : byte d < 256) by apply nat_ascii_bounded.
  destruct (ceq d " " && _).
  - cbn [mem]. rewrite IH. destruct Hc as [-> | ->]; reflexivity.
  - destruct (NetURL.shouldEscape d mode) eqn:E; cbn [mem].
    + rewrite IH.
      rewrite (ceq_neq c "%"); [| destruct Hc as [-> | ->]; discriminate].
      rewrite (ceq_neq c (NetURL.upperhex (byte d / 16))).
      2:{ apply not_eq_sym, upperhex_qf; [exact Hc|]. apply Nat.Div0.div_lt_upper_bound. lia. }
      rewrite (ceq_neq c (NetURL.upperhex (byte d mod 16))); [reflexivity|].
      apply not_eq_sym, upperhex_qf; [exact Hc|]. apply Nat.mod_upper_bound. lia.
    + rewrite IH, ceq_neq; [reflexivity|]. intros ->. congruence.
Qed.

Lemma validEncoded_clean c mode s :
  qf c -> NetURL.shouldEscape c mode = true -> NetURL.validEncoded s mode = true ->
  mem c s = false.
Proof.
  intros Hc Hs. induction s as [|d s IH]; [reflexivity|]. intro H.
  change (((if mem d "!$&'()*+,;=:@[]%" then true else negb (NetURL.shouldEscape d mode))
           && NetURL.validEncoded s mode) = true) in H.
  change (ceq c d || mem c s = false).
  apply andb_true_iff in H as [H1 H2]. rewrite IH by exact H2.
  rewrite ceq_neq; [reflexivity|]. intros <-.
  assert (M : mem c "!$&'()*+,;=:@[]%" = false) by (destruct Hc as [-> | ->]; reflexivity).
  rewrite M, Hs in H1. discriminate.
Qed.


Lemma scan_scheme_take s : forall k i,
  NetURL.scan_scheme s k = NetURL.SchemeAt i ->
  k <= i /\ forall c, scheme_char c = false -> mem c (str_take (i - k) s) = false.
Proof.
  induction s as [|d s IH]; intros k i; cbn [NetURL.scan_scheme]; [intro H; discriminate H|].
  assert (STEP : NetURL.scan_scheme s (S k) = NetURL.SchemeAt i -> scheme_char d = true ->
                 k <= i /\ forall c, scheme_char c = false -> mem c (str_take (i - k) (String d s)) = false).
  { intros H Hd. destruct (IH _ _ H) as [L F]. split; [lia|]. intros c Hc.
    replace (i - k) with (S (i - S k)) by lia. cbn [str_take mem]. rewrite F by exact Hc.
    rewrite ceq_neq; [reflexivity|]. intros <-. congruence. }
  destruct (is_lower d || is_upper d) eqn:E1.
  { intro H. apply STEP; [exact H|]. unfold scheme_char. rewrite E1. reflexivity. }
  destruct (is_digit d || mem d "+-.") eqn:E2.
  { destruct (Nat.eqb k 0); [intro H; discriminate H|]. intro H. apply STEP; [exact H|].
    unfold scheme_char. rewrite E1. cbn [orb]. exact E2. }
  destruct (ceq d ":"); [|intro H; discriminate H].
  destruct (Nat.eqb k 0); [intro H; discriminate H|].
  intro H. inversion H; subst. split; [lia|]. intros c _. rewrite Nat.sub_diag. reflexivity.
Qed.

Lemma qf_not_scheme c : qf c -> scheme_char c = false.
Proof. intros [-> | ->]; reflexivity. Qed.

Lemma to_lower_clean c s : qf c -> mem c s = false -> mem c (to_lower s) = false.
Proof.
  intro Hc. induction s as [|d s IH]; [auto|]. cbn [to_lower mem].
  intro H. apply orb_false_iff in H as [H1 H2]. rewrite IH by exact H2.
  destruct (is_upper d) eqn:U; [|rewrite H1; reflexivity].
  rewrite ceq_neq; [reflexivity|]. intros ->.
  unfold is_upper, in_range in U. apply andb_true_iff in U as [U1 U2].
  apply Nat.leb_le in U1, U2. unfold byte in *.
  assert (Q : nat_of_ascii "?"%char = 63) by reflexivity.
  assert (S : nat_of_ascii "#"%char = 35) by reflexivity.
  destruct Hc as [Hc|Hc]; apply (f_equal nat_of_ascii) in Hc;
    rewrite nat_ascii_embedding in Hc by lia; rewrite ?Q, ?S in Hc; lia.
Qed.

Lemma getScheme_clean raw scheme0 rest0 :
  NetURL.getScheme raw = Some (scheme0, rest0) ->
  (forall c, qf c -> mem c (to_lower scheme0) = false)
  /\ (forall c, mem c raw = false -> mem c rest0 = false).
Proof.
  unfold NetURL.getScheme. destruct (NetURL.scan_scheme raw 0) eqn:E; intro H; inversion H; subst.
  - split; [reflexivity | auto].
  - apply scan_scheme_take in E as [_ F]. rewrite Nat.sub_0_r in F. split.
    + intros c Hc. apply to_lower_clean; [exact Hc|]. apply F, qf_not_scheme, Hc.
    + intros c Hr. exact (mem_drop c (S i) raw Hr).
Qed.

Lemma has_suffix_q s : has_suffix "?" s = true -> exists t, s = t ++ "?".
Proof.
  unfold has_suffix. change (str_rev "?") with "?". intro H.
  destruct (str_rev s) as [|d y] eqn:E; [discriminate|].
  cbn [has_prefix] in H. apply andb_true_iff in H as [H _]. unfold ceq in H.
  apply Ascii.eqb_eq in H. subst d.
  exists (str_rev y). rewrite <- (str_rev_involutive s), E, str_rev_cons. reflexivity.
Qed.

Lemma count_char_app c a b : count_char c (a ++ b) = count_char c a + count_char c b.
Proof. induction a as [|d a IH]; simpl; [reflexivity | rewrite IH; lia]. Qed.

Lemma count_zero_mem c s : count_char c s = 0 -> mem c s = false.
Proof.
  induction s as [|d s IH]; simpl; [auto|]. unfold ceq.
  destruct (Ascii.eqb c d); simpl; [discriminate | exact IH].
Qed.

Lemma str_take_app a b : str_take (String.length a) (a ++ b) = a.
Proof. induction a as [|d a IH]; simpl; [reflexivity | rewrite IH; reflexivity]. Qed.

Lemma force_query_rest rest0 :
  has_suffix "?" rest0 = true -> count_char "?" rest0 = 1 ->
  mem "?" (str_take (String.length rest0 - 1) rest0) = false.
Proof.
  intros H C. apply has_suffix_q in H as [t ->].
  rewrite count_char_app in C. simpl in C.
  rewrite str_length_app. simpl. replace (String.length t + 1 - 1) with (String.length t) by lia.
  rewrite str_take_app. apply count_zero_mem. lia.
Qed.

Lemma setPath_keeps u p u' :
  NetURL.setPath u p = Some u' ->
  NetURL.Scheme u' = NetURL.Scheme u /\ NetURL.Opaque u' = NetURL.Opaque u.
Proof.
  unfold NetURL.setPath. destruct (NetURL.unescape p NetURL.encodePath); intro H; inversion H.
  split; reflexivity.
Qed.

Lemma setFragment_keeps u f u' :
  NetURL.setFragment u f = Some u' ->
  NetURL.Scheme u' = NetURL.Scheme u /\ NetURL.Opaque u' = NetURL.Opaque u.
Proof.
  unfold NetURL.setFragment. destruct (NetURL.unescape f NetURL.encodeFragment); intro H; inversion H.
  split; reflexivity.
Qed.

Lemma parse_clean u url :
  NetURL.parse u = Some url ->
  (forall c, qf c -> mem c (NetURL.Scheme url) = false)
  /\ mem "?" (NetURL.Opaque url) = false
  /\ (mem "#" u = false -> mem "#" (NetURL.Opaque url) = false).
Proof.
  unfold NetURL.parse. destruct (NetURL.stringContainsCTLByte u); [discriminate|].
  destruct (String.eqb u "*"); [intro H; inversion H; subst; split; [reflexivity|auto]|].
  destruct (NetURL.getScheme u) as [[scheme0 rest0]|] eqn:G; [|discriminate].
  apply getScheme_clean in G as [GS GR].
  set (T := if has_suffix "?" rest0 && Nat.eqb (count_char "?" rest0) 1
            then (true, str_take (String.length rest0 - 1) rest0, "")
            else let '(b, a, _) := cut_char "?" rest0 in (false, b, a)).
  assert (HT : mem "?" (snd (fst T)) = false
               /\ (mem "#" u = false -> mem "#" (snd (fst T)) = false)).
  { subst T. destruct (has_suffix "?" rest0 && Nat.eqb (count_char "?" rest0) 1) eqn:F.
    - apply andb_true_iff in F as [F1 F2]. apply Nat.eqb_eq in F2. simpl. split.
      + exact (force_query_rest _ F1 F2).
      + intro Hu. apply mem_take, GR, Hu.
    - pose proof (cut_char_before "?" rest0) as B1.
      pose proof (fun Hu => cut_char_before_keeps "?" "#" rest0 (GR _ Hu)) as B2.
      destruct (cut_char "?" rest0) as [[b a] x]. simpl in *. split; assumption. }
  clearbody T. destruct T as [[force rest] rawq]. simpl in HT. destruct HT as [HT1 HT2].
  destruct (negb (has_prefix "/" rest) && negb (String.eqb (to_lower scheme0) "")).
  { intro H. inversion H; subst. simpl. split; [exact GS | split; assumption]. }
  destruct (negb (has_prefix "/" rest) && _); [discriminate|].
  destruct (_ && has_prefix "//" rest).
  - destruct (match index_char "/" (str_drop 2 rest) with
              | Some i => _ | None => _ end) as [authority rest'].
    destruct (NetURL.parseAuthority authority) as [[user host]|]; [|discriminate].
    intro H. apply setPath_keeps in H as [-> ->]. simpl. split; [exact GS | split; reflexivity].
  - intro H. apply setPath_keeps in H as [-> ->]. simpl. split; [exact GS | split; reflexivity].
Qed.

Lemma Parse_clean raw url :
  NetURL.Parse raw = Some url ->
  (forall c, qf c -> mem c (NetURL.Scheme url) = false)
  /\ (forall c, qf c -> mem c (NetURL.Opaque url) = false).
Proof.
  unfold NetURL.Parse. pose proof (cut_char_before "#" raw) as B.
  destruct (cut_char "#" raw) as [[u frag] x]. simpl in B.
  destruct (NetURL.parse u) as [url0|] eqn:P; [|discriminate].
  apply parse_clean in P as (P1 & P2 & P3).
  assert (K : NetURL.Scheme url = NetURL.Scheme url0 /\ NetURL.Opaque url = NetURL.Opaque url0
              -> (forall c, qf c -> mem c (NetURL.Scheme url) = false)
                 /\ (forall c, qf c -> mem c (NetURL.Opaque url) = false)).
  { intros [-> ->]. split; [exact P1|]. intros c [-> | ->]; [exact P2 | exact (P3 B)]. }
  destruct (String.eqb frag "").
  - intro H. inversion H; subst. apply K. split; reflexivity.
  - intro H. apply K. exact (setFragment_keeps _ _ _ H).
Qed.

Lemma mem_app_false c a b : mem c a = false -> mem c b = false -> mem c (a ++ b) = false.
Proof. intros A B. rewrite mem_app, A, B. reflexivity. Qed.

Lemma EscapedPath_clean c u : qf c -> mem c (NetURL.EscapedPath u) = false.
Proof.
  intro Hc. assert (Hs : NetURL.shouldEscape c NetURL.encodePath = true)
    by (destruct Hc as [-> | ->]; reflexivity).
  unfold NetURL.EscapedPath.
  destruct (negb (String.eqb (NetURL.RawPath u) "") && _ && _) eqn:E.
  - apply andb_true_iff in E as [E _]. apply andb_true_iff in E as [_ E].
    exact (validEncoded_clean _ _ _ Hc Hs E).
  - destruct (String.eqb (NetURL.Path u) "*"); [destruct Hc as [-> | ->]; reflexivity|].
    exact (escape_clean _ _ _ Hc Hs).
Qed.

Lemma String_clean c u :
  qf c -> mem c (NetURL.Scheme u) = false -> mem c (NetURL.Opaque u) = false ->
  NetURL.ForceQuery u = false -> NetURL.RawQuery u = "" -> NetURL.Fragment u = "" ->
  mem c (NetURL.String_ u) = false.
Proof.
  intros Hc HS HO HF HQ HR. unfold NetURL.String_. rewrite HF, HQ, HR.
  assert (E0 : String.eqb "" "" = true) by reflexivity. rewrite E0. cbn [orb negb].
  repeat match goal with
  | |- mem _ (_ ++ _) = false => apply mem_app_false
  | |- mem _ (if ?b then _ else _) = false => destruct b
  | |- mem _ (match ?x with _ => _ end) = false => destruct x
  end.
  all: try assumption.
  all: try (destruct Hc as [-> | ->]; reflexivity).
  all: try apply EscapedPath_clean; try assumption.
  all: try (unfold NetURL.userinfo_String; repeat apply mem_app_false;
            try destruct (NetURL.passwordSet _); repeat apply mem_app_false).
  all: try (apply escape_clean; [assumption | destruct Hc as [-> | ->]; reflexivity]).
  all: try (apply escape_clean; [assumption | destruct Hc as [-> | ->]; reflexivity]).
  all: destruct Hc as [-> | ->]; reflexivity.
Qed.

Lemma String_force_query u :
  NetURL.RawQuery u = "" -> NetURL.Fragment u = "" ->
  NetURL.String_ u
  = NetURL.String_ (NetURL.mkURL (NetURL.Scheme u) (NetURL.Opaque u) (NetURL.User u) (NetURL.Host u)
                      (NetURL.Path u) (NetURL.RawPath u) (NetURL.OmitHost u) false
                      (NetURL.RawQuery u) (NetURL.Fragment u) (NetURL.RawFragment u))
    ++ (if NetURL.ForceQuery u then "?" else "").
Proof.
  intros HQ HF. destruct u as [sc op us ho pa rp oh fq rq fr rf]. cbn in HQ, HF. subst rq fr.
  unfold NetURL.String_, NetURL.EscapedPath, NetURL.EscapedFragment.
  cbn [NetURL.Scheme NetURL.Opaque NetURL.User NetURL.Host NetURL.Path NetURL.RawPath
       NetURL.OmitHost NetURL.ForceQuery NetURL.RawQuery NetURL.Fragment NetURL.RawFragment].
  assert (E0 : String.eqb "" "" = true) by reflexivity. rewrite !E0. cbn [orb negb].
  destruct fq; cbn [append]; rewrite ?str_app_assoc, ?str_app_nil; reflexivity.
Qed.

(** *** Rows keyed by an article id *)

Section Keyed.
Context {R : Type} (key : R -> Z).

Lemma keyed_filter_neq A B l :
  A <> B ->
  filter (fun s => Z.eqb (key s) A) (filter (fun s => negb (Z.eqb (key s) B)) l)
  = filter (fun s => Z.eqb (key s) A) l.
Proof.
  intro N. induction l as [|a l IH]; [reflexivity|]. simpl.
  destruct (Z.eqb (key a) B) eqn:E1; destruct (Z.eqb (key a) A) eqn:E2; simpl;
    rewrite ?E2, ?IH; try reflexivity.
  apply Z.eqb_eq in E1, E2. congruence.
Qed.

Lemma keyed_filter_self B l :
  filter (fun s => Z.eqb (key s) B) (filter (fun s => negb (Z.eqb (key s) B)) l) = [].
Proof.
  induction l as [|a l IH]; [reflexivity|]. simpl.
  destruct (Z.eqb (key a) B) eqn:E; simpl; rewrite ?E; exact IH.
Qed.

Lemma keyed_map_to A B (g : R -> R) l :
  (forall s, key (g s) = A) ->
  filter (fun s => Z.eqb (key s) A) l = [] ->
  filter (fun s => Z.eqb (key s) A) (map (fun s => if Z.eqb (key s) B then g s else s) l)
  = map g (filter (fun s => Z.eqb (key s) B) l).
Proof.
  intros Hg. induction l as [|a l IH]; [reflexivity|]. simpl.
  destruct (Z.eqb (key a) A) eqn:EA; [discriminate|]. intro H.
  destruct (Z.eqb (key a) B) eqn:EB; simpl.
  - rewrite Hg, Z.eqb_refl. f_equal. exact (IH H).
  - rewrite EA. exact (IH H).
Qed.

Lemma keyed_map_other x A B (g : R -> R) l :
  (forall s, key (g s) = A) -> x <> A -> x <> B ->
  filter (fun s => Z.eqb (key s) x) (map (fun s => if Z.eqb (key s) B then g s else s) l)
  = filter (fun s => Z.eqb (key s) x) l.
Proof.
  intros Hg NA NB. induction l as [|a l IH]; [reflexivity|]. simpl.
  destruct (Z.eqb (key a) B) eqn:EB.
  - rewrite Hg. apply Z.eqb_eq in EB.
    destruct (Z.eqb_spec A x); [congruence|].
    destruct (Z.eqb_spec (key a) x); [congruence|]. exact IH.
  - simpl. rewrite IH. reflexivity.
Qed.

Lemma keyed_map_id B (g : R -> R) l :
  filter (fun s => Z.eqb (key s) B) l = [] ->
  map (fun s => if Z.eqb (key s) B then g s else s) l = l.
Proof.
  induction l as [|a l IH]; [reflexivity|]. simpl.
  destruct (Z.eqb (key a) B); [discriminate|]. intro H. rewrite (IH H). reflexivity.
Qed.

Lemma keyed_existsb x l :
  existsb (fun s => Z.eqb (key s) x) l
  = match filter (fun s => Z.eqb (key s) x) l with [] => false | _ => true end.
Proof.
  induction l as [|a l IH]; [reflexivity|]. simpl. destruct (Z.eqb (key a) x); auto.
Qed.

Lemma keyed_not_in x l :
  ~ In x (map key l) -> filter (fun s => Z.eqb (key s) x) l = [].
Proof.
  induction l as [|a l IH]; [reflexivity|]. simpl. intro N.
  destruct (Z.eqb_spec (key a) x); [tauto|]. apply IH. tauto.
Qed.

Lemma keyed_nodup_le x l :
  NoDup (map key l) -> (length (filter (fun s => Z.eqb (key s) x) l) <= 1)%nat.
Proof.
  induction l as [|a l IH]; simpl; [lia|]. intro H. apply NoDup_cons_iff in H as [N H].
  destruct (Z.eqb_spec (key a) x).
  - subst x. rewrite (keyed_not_in _ _ N). simpl. lia.
  - exact (IH H).
Qed.

Lemma keyed_nodup_filter p l :
  NoDup (map key l) -> NoDup (map key (filter p l)).
Proof.
  induction l as [|a l IH]; simpl; [auto|]. intro H. apply NoDup_cons_iff in H as [N H].
  destruct (p a); simpl; [|exact (IH H)].
  constructor; [|exact (IH H)].
  intro I. apply N. apply in_map_iff in I as (s & E & I). apply filter_In in I as [I _].
  rewrite <- E. apply in_map. exact I.
Qed.

Lemma keyed_nodup_map A B (g : R -> R) l :
  (forall s, key (g s) = A) ->
  filter (fun s => Z.eqb (key s) A) l = [] ->
  NoDup (map key l) ->
  NoDup (map key (map (fun s => if Z.eqb (key s) B then g s else s) l)).
Proof.
  intro Hg. induction l as [|a l IH]; simpl; [auto|].
  destruct (Z.eqb_spec (key a) A) as [|NA]; [discriminate|]. intros HA H.
  apply NoDup_cons_iff in H as [N H]. constructor; [|exact (IH HA H)].
  rewrite map_map. intro I. apply in_map_iff in I as (s & E & I).
  destruct (Z.eqb_spec (key a) B) as [EB|NB]; destruct (Z.eqb_spec (key s) B) as [ES|NS].
  - apply N. rewrite EB, <- ES. apply in_map. exact I.
  - rewrite Hg in E. assert (F : In s (filter (fun s => Z.eqb (key s) A) l))
      by (apply filter_In; split; [exact I | apply Z.eqb_eq; congruence]).
    rewrite HA in F. destruct F.
  - rewrite !Hg in E. congruence.
  - apply N. rewrite <- E. apply in_map. exact I.
Qed.

(** The rows of a keyed table after [merge_into] moved, or dropped, the
    rows of [B] and deleted [B] itself. *)
Lemma keyed_merge_post A B (g : R -> R) l l' :
  A <> B -> (forall s, key (g s) = A) -> NoDup (map key l) ->
  l' = filter (fun s => negb (Z.eqb (key s) B))
         (if existsb (fun s => Z.eqb (key s) A) l
          then filter (fun s => negb (Z.eqb (key s) B)) l
          else map (fun s => if Z.eqb (key s) B then g s else s) l) ->
  filter (fun s => Z.eqb (key s) A) l'
    = match filter (fun s => Z.eqb (key s) A) l with
      | [] => map g (filter (fun s => Z.eqb (key s) B) l)
      | x => x
      end
  /\ filter (fun s => Z.eqb (key s) B) l' = []
  /\ length (filter (fun s => Z.eqb (key s) A) l')
     = match (filter (fun s => Z.eqb (key s) A) l ++ filter (fun s => Z.eqb (key s) B) l)%list with
       | [] => 0%nat
       | _ => 1%nat
       end
  /\ NoDup (map key l')
  /\ (forall x, x <> A -> x <> B ->
      filter (fun s => Z.eqb (key s) x) l' = filter (fun s => Z.eqb (key s) x) l).
Proof.
  intros N Hg H ->. rewrite keyed_existsb.
  pose proof (keyed_nodup_le A l H) as LA. pose proof (keyed_nodup_le B l H) as LB.
  destruct (filter (fun s => Z.eqb (key s) A) l) as [|r rs] eqn:FA.
  - rewrite (keyed_filter_neq _ _ _ N), (keyed_map_to _ _ _ _ Hg FA).
    split; [reflexivity|]. split; [apply keyed_filter_self|]. split.
    + rewrite length_map. simpl.
      destruct (filter (fun s => Z.eqb (key s) B) l) as [|x [|y t]]; simpl in *; lia.
    + split; [apply keyed_nodup_filter, (keyed_nodup_map A); assumption|].
      intros x NA NB. rewrite (keyed_filter_neq _ _ _ NB). exact (keyed_map_other _ _ _ _ _ Hg NA NB).
  - rewrite !(keyed_filter_neq _ _ _ N), FA.
    split; [reflexivity|]. split; [apply keyed_filter_self|]. split.
    + simpl in *. lia.
    + split; [apply keyed_nodup_filter, keyed_nodup_filter; assumption|].
      intros x NA NB. rewrite !(keyed_filter_neq _ _ _ NB). reflexivity.
Qed.

End Keyed.

(** *** What [merge_into] does to [summaries] and [saved] *)

Lemma move_summaries_ok A B db u db' :
  A <> B -> move_summaries A B db = Ok (u, db') ->
  summaries db' = map (fun s => if Z.eqb (sr_article_id s) B then retarget_summary A s else s)
                    (summaries db)
  /\ saved db' = saved db.
Proof.
  intros N. unfold move_summaries.
  destruct (existsb (fun s => Z.eqb (sr_article_id s) B) (summaries db)) eqn:EB; simpl.
  - destruct (Z.eqb_spec A B); [congruence|]. simpl.
    destruct (existsb (fun s => Z.eqb (sr_article_id s) A) (summaries db)); [intro H; inversion H|].
    destruct (negb (article_exists db A)); [intro H; inversion H|].
    intro H. inversion H; subst. split; reflexivity.
  - intro H. inversion H; subst. split; [|reflexivity].
    rewrite keyed_map_id; [reflexivity|]. rewrite keyed_existsb in EB.
    destruct (filter _ _); [reflexivity | discriminate].
Qed.

Lemma move_saved_ok A B db u db' :
  A <> B -> move_saved A B db = Ok (u, db') ->
  saved db' = map (fun s => if Z.eqb (sv_article_id s) B then retarget_saved A s else s) (saved db)
  /\ summaries db' = summaries db.
Proof.
  intros N. unfold move_saved.
  destruct (existsb (fun s => Z.eqb (sv_article_id s) B) (saved db)) eqn:EB; simpl.
  - destruct (Z.eqb_spec A B); [congruence|]. simpl.
    destruct (existsb (fun s => Z.eqb (sv_article_id s) A) (saved db)); [intro H; inversion H|].
    destruct (negb (article_exists db A)); [intro H; inversion H|].
    intro H. inversion H; subst. split; reflexivity.
  - intro H. inversion H; subst. split; [|reflexivity].
    rewrite keyed_map_id; [reflexivity|]. rewrite keyed_existsb in EB.
    destruct (filter _ _); [reflexivity | discriminate].
Qed.

Lemma merge_into_shape fault A B f p db db' :
  A <> B -> merge_into fault A B f p db = Ok (tt, db') ->
  summaries db' = filter (fun s => negb (Z.eqb (sr_article_id s) B))
    (if existsb (fun s => Z.eqb (sr_article_id s) A) (summaries db)
     then filter (fun s => negb (Z.eqb (sr_article_id s) B)) (summaries db)
     else map (fun s => if Z.eqb (sr_article_id s) B then retarget_summary A s else s) (summaries db))
  /\ saved db' = filter (fun s => negb (Z.eqb (sv_article_id s) B))
    (if existsb (fun s => Z.eqb (sv_article_id s) A) (saved db)
     then filter (fun s => negb (Z.eqb (sv_article_id s) B)) (saved db)
     else map (fun s => if Z.eqb (sv_article_id s) B then retarget_saved A s else s) (saved db)).
Proof.
  intros N H. unfold merge_into in H.
  apply bind_inv in H as ([] & d0 & E0 & H). apply ensure_keeps in E0 as (_ & _ & S0 & V0 & _).
  apply bind_inv in H as (hs & d1 & E1 & H). apply exec_inv in E1 as [_ E1].
  simpl in E1. inversion E1; subst hs d1; clear E1.
  apply bind_inv in H as ([] & d2 & E2 & H). rewrite S0 in E2.
  assert (S2 : summaries d2 =
    (if existsb (fun s => Z.eqb (sr_article_id s) A) (summaries db)
     then filter (fun s => negb (Z.eqb (sr_article_id s) B)) (summaries db)
     else map (fun s => if Z.eqb (sr_article_id s) B then retarget_summary A s else s) (summaries db))
    /\ saved d2 = saved db).
  { destruct (existsb _ (summaries db)); apply exec_inv in E2 as [_ E2].
    - inversion E2; subst d2. simpl. rewrite S0, V0. split; reflexivity.
    - apply move_summaries_ok in E2 as [-> ->]; [|exact N]. rewrite S0, V0. split; reflexivity. }
  destruct S2 as [S2 V2]. clear E2.
  apply bind_inv in H as (hv & d3 & E3 & H). apply exec_inv in E3 as [_ E3].
  simpl in E3. inversion E3; subst hv d3; clear E3.
  apply bind_inv in H as ([] & d4 & E4 & H). rewrite V2 in E4.
  assert (S4 : saved d4 =
    (if existsb (fun s => Z.eqb (sv_article_id s) A) (saved db)
     then filter (fun s => negb (Z.eqb (sv_article_id s) B)) (saved db)
     else map (fun s => if Z.eqb (sv_article_id s) B then retarget_saved A s else s) (saved db))
    /\ summaries d4 = summaries d2).
  { destruct (existsb _ (saved db)); apply exec_inv in E4 as [_ E4].
    - inversion E4; subst d4. simpl. rewrite V2. split; reflexivity.
    - apply move_saved_ok in E4 as [-> ->]; [|exact N]. rewrite V2. split; reflexivity. }
  destruct S4 as [V4 S4]. clear E4.
  apply exec_inv in H as [_ H]. inversion H; subst db'; clear H. simpl.
  rewrite S4, S2, V4. split; reflexivity.
Qed.



Lemma move_summaries_articles A B db u db' :
  move_summaries A B db = Ok (u, db') -> articles db' = articles db.
Proof.
  unfold move_summaries.
  destruct (_ || _); [intro H; inversion H; reflexivity|].
  destruct (existsb _ _); [intro H; discriminate H|].
  destruct (negb _); [intro H; discriminate H|].
  intro H; inversion H; reflexivity.
Qed.

Lemma move_saved_articles A B db u db' :
  move_saved A B db = Ok (u, db') -> articles db' = articles db.
Proof.
  unfold move_saved.
  destruct (_ || _); [intro H; inversion H; reflexivity|].
  destruct (existsb _ _); [intro H; discriminate H|].
  destruct (negb _); [intro H; discriminate H|].
  intro H; inversion H; reflexivity.
Qed.

Lemma merge_into_articles fault A B f p db db' :
  merge_into fault A B f p db = Ok (tt, db') ->
  articles db' = filter (fun r => negb (Z.eqb (ar_id r) B)) (articles db).
Proof.
  intro H. unfold merge_into in H.
  apply bind_inv in H as ([] & d0 & E0 & H). apply ensure_keeps in E0 as (_ & A0 & _).
  apply bind_inv in H as (hs & d1 & E1 & H). apply exec_inv in E1 as [_ E1].
  simpl in E1. inversion E1; subst hs d1; clear E1.
  apply bind_inv in H as ([] & d2 & E2 & H).
  assert (A2 : articles d2 = articles d0).
  { destruct (existsb _ (summaries d0)); apply exec_inv in E2 as [_ E2].
    - inversion E2; reflexivity.
    - exact (move_summaries_articles _ _ _ _ _ E2). }
  apply bind_inv in H as (hv & d3 & E3 & H). apply exec_inv in E3 as [_ E3].
  simpl in E3. inversion E3; subst hv d3; clear E3.
  apply bind_inv in H as ([] & d4 & E4 & H).
  assert (A4 : articles d4 = articles d2).
  { destruct (existsb _ (saved d2)); apply exec_inv in E4 as [_ E4].
    - inversion E4; reflexivity.
    - exact (move_saved_articles _ _ _ _ _ E4). }
  apply exec_inv in H as [_ H]. inversion H; subst db'; clear H. simpl.
  rewrite A4, A2, A0. reflexivity.
Qed.

Lemma lookup_id_none k m : lookup_id k m = None -> ~ In k (map fst m).
Proof.
  induction m as [|[k' v] m IH]; simpl; [auto|].
  destruct (String.eqb_spec k k'); [discriminate|]. intros H [E|I]; [congruence | exact (IH H I)].
Qed.

Lemma NoDup_map_Some (l : list string) : NoDup l -> NoDup (map Some l).
Proof.
  induction l as [|x l IH]; simpl; intro H; [constructor|].
  apply NoDup_cons_iff in H as [N H]. constructor; [|exact (IH H)].
  intro I. apply in_map_iff in I as (y & E & I). inversion E; subst. contradiction.
Qed.

(** Rows whose ids differ from [i] are left alone by an update of row [i]. *)
Lemma map_other_ids (g : article_row -> article_row) i l :
  ~ In i (map ar_id l) ->
  map (fun r => if Z.eqb (ar_id r) i then g r else r) l = l.
Proof.
  induction l as [|r l IH]; simpl; [auto|]. intro N.
  destruct (Z.eqb_spec (ar_id r) i); [tauto|]. rewrite IH; tauto.
Qed.

Lemma filter_other_ids i l :
  ~ In i (map ar_id l) -> filter (fun r => negb (Z.eqb (ar_id r) i)) l = l.
Proof.
  induction l as [|r l IH]; simpl; [auto|]. intro N.
  destruct (Z.eqb_spec (ar_id r) i); [tauto|]. simpl. rewrite IH; tauto.
Qed.

Lemma merge_loop_nodup fault :
  (forall d, fault "rows.Next" d = false) ->
  forall rest m P db db', merge_inv m P rest db ->
  merge_loop fault m rest db = Ok (tt, db') ->
  NoDup (map ar_base_url (articles db')).
Proof.
  intros NF rest. induction rest as [|r rest IH]; intros m P db db' (HA & HI & HB & HK) H.
  - simpl in H. inversion H; subst db'. rewrite HA, app_nil_r, HB, <- map_map.
    apply NoDup_map_Some. rewrite map_rev. apply NoDup_rev. exact HK.
  - cbn [merge_loop] in H. apply bind_inv in H as (more & d0 & E0 & H).
    unfold rows_next in E0. rewrite NF in E0. inversion E0; subst more d0; clear E0.
    cbn [negb] in H.
    destruct (ar_base_url r) as [b|] eqn:Rb; [|discriminate].
    set (n := merge_identity (ar_url r) b) in H.
    set (r' := mkArticleRow (ar_id r) (ar_feed_id r) (ar_guid r) (ar_title r) (ar_url r)
                 (Some n) (ar_author r) (ar_content r) (ar_content_text r)
                 (ar_published_at r) (ar_fetched_at r) (ar_is_read r) (ar_is_starred r)
                 (ar_feed_title r)).
    rewrite map_app in HI. cbn [map] in HI.
    pose proof HI as HI'. apply NoDup_remove_2 in HI'.
    rewrite in_app_iff in HI'.
    assert (NP : ~ In (ar_id r) (map ar_id P)) by tauto.
    assert (NR : ~ In (ar_id r) (map ar_id rest)) by tauto.
    apply bind_inv in H as ([] & d1 & E1 & H).
    assert (A1 : articles d1 = (P ++ r' :: rest)%list).
    { destruct (negb (String.eqb n b)) eqn:En.
      - apply exec_inv in E1 as [_ E1]. inversion E1; subst d1. simpl. rewrite HA.
        rewrite map_app. cbn [map]. rewrite Z.eqb_refl, !map_other_ids by assumption.
        reflexivity.
      - apply ret_inv in E1 as [_ ->]. rewrite HA. apply negb_false_iff, String.eqb_eq in En.
        subst r'. rewrite En. destruct r; simpl in *. rewrite Rb. reflexivity. }
    clear E1.
    destruct (lookup_id n m) as [existingID|] eqn:L.
    + apply bind_inv in H as ([] & d2 & E2 & H).
      apply merge_into_articles in E2. rewrite A1, filter_app in E2. cbn [filter] in E2.
      subst r'. cbn [ar_id] in E2. rewrite Z.eqb_refl, !filter_other_ids in E2 by assumption.
      simpl in E2. apply (IH m P d2 db'); [|exact H].
      split; [exact E2|]. split; [|split; assumption].
      rewrite map_app. apply NoDup_remove_1 in HI. exact HI.
    + apply bind_inv in H as ([] & d2 & E2 & H).
      apply ensure_keeps in E2 as (_ & A2 & _).
      apply (IH ((n, ar_id r) :: m) (P ++ [r'])%list d2 db'); [|exact H].
      split; [rewrite A2, A1, <- app_assoc; reflexivity|].
      split; [rewrite <- app_assoc, map_app; subst r'; simpl; exact HI|].
      split.
      * rewrite map_app, HB. simpl. rewrite map_app. reflexivity.
      * simpl. constructor; [exact (lookup_id_none _ _ L) | exact HK].
Qed.

Lemma collect_keeps {R} fault (rows : list R) : forall db rs db',
  collect fault rows db = Ok (rs, db') -> db' = db.
Proof.
  induction rows as [|x rows IH]; intros db rs db' H.
  - simpl in H. inversion H. reflexivity.
  - cbn [collect] in H. apply bind_inv in H as (more & d0 & E0 & H).
    unfold rows_next in E0. inversion E0; subst d0; clear E0.
    destruct more.
    + apply bind_inv in H as (rs' & d1 & E1 & H). apply ret_inv in H as [_ ->]. eauto.
    + apply ret_inv in H as [_ ->]. reflexivity.
Qed.

Lemma findArticleIDByBaseURL_inv fault base db x db' :
  findArticleIDByBaseURL fault base db = Ok (x, db') ->
  db' = db /\
  (TrimSpace base = "" /\ x = 0%Z
   \/ TrimSpace base <> ""
      /\ x = match find (fun r => opt_str_eqb (ar_base_url r) base) (articles db) with
             | Some r => ar_id r | None => 0%Z end).
Proof.
  unfold findArticleIDByBaseURL. destruct (String.eqb (TrimSpace base) "") eqn:E.
  - intro H. apply ret_inv in H as [-> ->]. apply String.eqb_eq in E. auto.
  - intro H. apply exec_inv in H as [_ H]. inversion H; subst. split; [reflexivity|].
    right. split; [|reflexivity]. intro C. rewrite C in E. discriminate.
Qed.

Lemma insert_article_stmt_inv fault a db id db' :
  insert_article_stmt fault a db = Ok (id, db') ->
  new_rowid (rowid_draw db) (map ar_id (articles db)) = Some id
  /\ articles db' = insert_by_key ar_id (article_row_of a id) (articles db)
  /\ existsb (fun x => Z.eqb (ar_feed_id x) (Art.FeedID a) && String.eqb (ar_guid x) (Art.GUID a))
       (articles db) = false.
Proof.
  unfold insert_article_stmt. intro H. apply exec_inv in H as [_ H].
  unfold insert_article_auto in H. destruct (new_rowid _ _) as [n|] eqn:N; [|discriminate].
  cbn [ar_feed_id ar_guid article_row_of] in H.
  destruct (existsb _ _) eqn:E; [discriminate|]. inversion H; subst. auto.
Qed.

Lemma live_identities_app l1 l2 :
  live_identities (l1 ++ l2)%list = (live_identities l1 ++ live_identities l2)%list.
Proof. apply flat_map_app. Qed.

Lemma find_none_live base l :
  find (fun r => opt_str_eqb (ar_base_url r) base) l = None -> ~ In base (live_identities l).
Proof.
  induction l as [|r l IH]; simpl; [auto|].
  destruct (opt_str_eqb (ar_base_url r) base) eqn:E; [discriminate|]. intros H I.
  apply in_app_iff in I as [I|I]; [|exact (IH H I)].
  destruct (ar_base_url r) as [b|]; [|destruct I].
  destruct (String.eqb (TrimSpace b) ""); [destruct I|]. destruct I as [<-|[]].
  simpl in E. rewrite String.eqb_refl in E. discriminate.
Qed.

Lemma find_some_pos base l r :
  Forall (fun r => (0 < ar_id r)%Z) l ->
  find (fun r => opt_str_eqb (ar_base_url r) base) l = Some r -> ar_id r <> 0%Z.
Proof.
  intros F H. apply find_some in H as [I _]. rewrite Forall_forall in F.
  specialize (F r I). lia.
Qed.

Lemma ins_inv_app db r :
  ins_inv db -> (0 < ar_id r)%Z ->
  (forall b, ar_base_url r = Some b -> TrimSpace b <> "" -> ~ In b (live_identities (articles db))) ->
  ins_inv (with_articles db (articles db ++ [r])%list).
Proof.
  intros [P N] Hr Hb. split; simpl.
  - apply Forall_app. split; [exact P | constructor; [exact Hr | constructor]].
  - rewrite live_identities_app. simpl.
    destruct (ar_base_url r) as [b|] eqn:Rb; [|rewrite !app_nil_r; exact N].
    destruct (String.eqb (TrimSpace b) "") eqn:E; [rewrite !app_nil_r; exact N|].
    apply NoDup_app; [exact N | constructor; [intros [] | constructor] |].
    intros x I [<- | []]. apply (Hb b eq_refl); [|exact I].
    intro C. rewrite C in E. discriminate.
Qed.

Lemma Forall_perm {A} (P : A -> Prop) l l' : Permutation l l' -> Forall P l -> Forall P l'.
Proof.
  intros E F. rewrite Forall_forall in F |- *. intros x I.
  apply F. apply (Permutation_in _ (Permutation_sym E) I).
Qed.

Lemma ins_inv_ins db r :
  ins_inv db -> (0 < ar_id r)%Z ->
  (forall b, ar_base_url r = Some b -> TrimSpace b <> "" -> ~ In b (live_identities (articles db))) ->
  ins_inv (with_articles db (insert_by_key ar_id r (articles db))).
Proof.
  intros Hi Hr Hb. pose proof (ins_inv_app db r Hi Hr Hb) as [P N]. simpl in P, N.
  assert (E : Permutation (articles db ++ [r])%list (insert_by_key ar_id r (articles db))).
  { eapply perm_trans; [apply Permutation_sym, Permutation_cons_append|].
    apply Permutation_sym, insert_by_key_perm. }
  split; simpl.
  - exact (Forall_perm _ _ _ E P).
  - refine (Permutation_NoDup _ N). unfold live_identities. apply Permutation_flat_map, E.
Qed.

Lemma insert_loop_inv fault feed now incoming : forall seen added db res db',
  insert_loop fault feed now seen added incoming db = Ok (res, db') ->
  ins_inv db -> ins_inv db'.
Proof.
  induction incoming as [|a0 rest IH]; intros seen added db res db' H Hi.
  - simpl in H. apply ret_inv in H as [_ ->]. exact Hi.
  - cbn [insert_loop] in H.
    destruct (existsb _ seen); [exact (IH _ _ _ _ _ H Hi)|].
    apply bind_inv in H as (x & d0 & E0 & H).
    apply findArticleIDByBaseURL_inv in E0 as [-> Hx].
    destruct (negb (Z.eqb x 0)) eqn:Nx.
    + apply bind_inv in H as ([] & d1 & E1 & H). apply ensure_keeps in E1 as (F1 & A1 & S1 & V1 & D1).
      apply (IH _ _ _ _ _ H). unfold ins_inv. rewrite A1. exact Hi.
    + apply negb_false_iff, Z.eqb_eq in Nx. subst x.
      apply bind_inv in H as (id & d1 & E1 & H).
      apply insert_article_stmt_inv in E1 as (Eid & A1 & _).
      apply bind_inv in H as (id' & d2 & E2 & H). unfold lastInsertID in E2.
      apply exec_inv in E2 as [_ E2]. inversion E2; subst id' d2; clear E2.
      apply bind_inv in H as ([] & d3 & E3 & H). apply ensure_keeps in E3 as (_ & A3 & _).
      apply (IH _ _ _ _ _ H). unfold ins_inv. rewrite A3, A1.
      destruct Hi as [HP HN].
      pose proof (ins_inv_ins db (article_row_of (claim_for_feed feed now (normalize_incoming a0)) id)
                    (conj HP HN)) as K.
      unfold ins_inv in K. simpl in K. apply K.
      * refine (new_rowid_pos _ _ _ _ Eid). rewrite Forall_map. exact HP.
      * intros b Rb Nb. simpl in Rb. inversion Rb; subst b.
        destruct Hx as [[T _] | [_ Hx]]; [contradiction|].
        destruct (find _ (articles db)) as [r|] eqn:Fd.
        -- exfalso. exact (find_some_pos _ _ _ HP Fd (eq_sym Hx)).
        -- exact (find_none_live _ _ Fd).
Qed.

Lemma select_guids_articles_keeps fault f db g db' :
  select_guids_articles fault f db = Ok (g, db') -> db' = db.
Proof.
  unfold select_guids_articles. intro H. apply bind_inv in H as (rows & d0 & E0 & H).
  apply exec_inv in E0 as [_ E0]. inversion E0; subst. exact (collect_keeps _ _ _ _ _ H).
Qed.

Lemma select_guids_deleted_keeps fault f db g db' :
  select_guids_deleted fault f db = Ok (g, db') -> db' = db.
Proof.
  unfold select_guids_deleted. intro H. apply bind_inv in H as (rows & d0 & E0 & H).
  apply exec_inv in E0 as [_ E0]. inversion E0; subst. exact (collect_keeps _ _ _ _ _ H).
Qed.

Lemma InsertArticles_ins_inv fault feed now incoming db db' added :
  InsertArticles fault feed now incoming db = (db', Ok added) -> ins_inv db -> ins_inv db'.
Proof.
  intros H Hi. apply transact_ok in H. unfold InsertArticles_body in H.
  apply bind_inv in H as (g1 & d1 & E1 & H). apply select_guids_articles_keeps in E1. subst d1.
  apply bind_inv in H as (g2 & d2 & E2 & H). apply select_guids_deleted_keeps in E2. subst d2.
  apply bind_inv in H as (ad & d3 & E3 & H). apply insert_loop_inv in E3; [|exact Hi].
  apply bind_inv in H as ([] & d4 & E4 & H). unfold touch_feed in E4.
  apply exec_inv in E4 as [_ E4]. inversion E4; subst d4; clear E4.
  apply ret_inv in H as [_ ->]. exact E3.
Qed.

Lemma MergeDuplicateArticles_nodup fault db db' :
  (forall d, fault "rows.Next" d = false) ->
  NoDup (map ar_id (articles db)) ->
  MergeDuplicateArticles fault db = (db', Ok tt) ->
  NoDup (map ar_base_url (articles db')).
Proof.
  intros Hf Hn H. apply transact_ok in H. unfold MergeDuplicateArticles_body in H.
  apply bind_inv in H as (rows & d0 & E0 & H). apply exec_inv in E0 as [_ E0].
  inversion E0; subst rows d0; clear E0.
  apply (merge_loop_nodup fault Hf (articles db) [] [] db db'); [|exact H].
  unfold merge_inv. simpl. repeat split; [exact Hn | constructor].
Qed.



Lemma opt_str_eqb_true o s : opt_str_eqb o s = true -> o = Some s.
Proof. destruct o as [t|]; simpl; [intro H; apply String.eqb_eq in H; subst; reflexivity | discriminate]. Qed.

Lemma find_none_existsb {A} (p : A -> bool) l : find p l = None -> existsb p l = false.
Proof. induction l as [|x l IH]; simpl; [auto|]. destruct (p x); [discriminate | exact IH]. Qed.

Lemma find_some_existsb {A} (p : A -> bool) l r : find p l = Some r -> existsb p l = true.
Proof.
  intro H. apply find_some in H as [I E]. apply existsb_exists. eauto.
Qed.

Lemma existsb_eqb_notin x l : ~ In x l -> existsb (String.eqb x) l = false.
Proof.
  induction l as [|y l IH]; simpl; [auto|]. intro N.
  destruct (String.eqb_spec x y); [subst; exfalso; auto | apply IH; tauto].
Qed.

Lemma collect_incl {R} fault (rows : list R) : forall db rs db',
  collect fault rows db = Ok (rs, db') -> incl rs rows.
Proof.
  induction rows as [|x rows IH]; intros db rs db' H.
  - simpl in H. inversion H. apply incl_refl.
  - cbn [collect] in H. apply bind_inv in H as (more & d0 & E0 & H).
    unfold rows_next in E0. inversion E0; subst d0; clear E0.
    destruct more.
    + apply bind_inv in H as (rs' & d1 & E1 & H). apply ret_inv in H as [-> _].
      apply incl_cons; [left; reflexivity|]. apply incl_tl. exact (IH _ _ _ E1).
    + apply ret_inv in H as [-> _]. intros y [].
Qed.

Lemma count_live_le rows l : (count_live rows l <= length l)%nat.
Proof.
  unfold count_live. induction l as [|a l IH]; simpl; [lia|].
  destruct (live_match rows a); simpl; lia.
Qed.

Lemma live_match_snoc rows r a :
  live_match (rows ++ [r])%list a = live_match rows a || opt_str_eqb (ar_base_url r) (incoming_identity a).
Proof. unfold live_match. rewrite existsb_app. simpl. rewrite orb_false_r. reflexivity. Qed.

Lemma count_live_snoc rows r b l :
  ar_base_url r = Some b -> Forall (fun a => incoming_identity a <> b) l ->
  count_live (rows ++ [r])%list l = count_live rows l.
Proof.
  intros Rb F. unfold count_live. induction l as [|a l IH]; [reflexivity|].
  inversion F as [|? ? Na Fl]; subst. simpl. rewrite live_match_snoc, Rb. simpl.
  destruct (String.eqb_spec b (incoming_identity a)) as [E|_]; [congruence|].
  rewrite orb_false_r. destruct (live_match rows a); simpl; rewrite (IH Fl); reflexivity.
Qed.

Lemma live_match_perm rows rows' a :
  Permutation rows rows' -> live_match rows a = live_match rows' a.
Proof.
  intro P. unfold live_match. apply Bool.eq_iff_eq_true. rewrite !existsb_exists.
  split; intros (x & I & E); exists x; split; try exact E.
  - exact (Permutation_in _ P I).
  - exact (Permutation_in _ (Permutation_sym P) I).
Qed.

Lemma count_live_perm rows rows' l :
  Permutation rows rows' -> count_live rows l = count_live rows' l.
Proof.
  intro P. unfold count_live. induction l as [|a l IH]; [reflexivity|].
  simpl. rewrite (live_match_perm _ _ a P). destruct (live_match rows' a); simpl; rewrite IH; reflexivity.
Qed.

Lemma source_exists_refresh db a f t x g :
  existsb (fun s => Z.eqb (src_article_id s) x && Z.eqb (src_feed_id s) g)
    (map (refresh_src a f t) (article_sources db)) = source_exists db x g.
Proof.
  unfold source_exists. induction (article_sources db) as [|s l IH]; [reflexivity|].
  simpl. rewrite IH. unfold refresh_src.
  destruct (_ && _ && _); reflexivity.
Qed.

Lemma ensure_sources fault a f t db u db' :
  ensureArticleSource fault a f t db = Ok (u, db') ->
  source_exists db' a f = true
  /\ (forall x g, source_exists db x g = true -> source_exists db' x g = true).
Proof.
  intro H. apply ensure_inv in H as [(Ex & ->) | (Ex & _ & _ & ->)].
  - split; [|intros x g Hx]; unfold source_exists at 1; simpl;
      rewrite source_exists_refresh; assumption.
  - unfold source_exists; cbn [article_sources with_sources]. split.
    + rewrite existsb_app. simpl. rewrite !Z.eqb_refl. apply orb_true_r.
    + intros x g Hx. rewrite existsb_app, Hx. reflexivity.
Qed.

Lemma insert_article_stmt_sources fault a db id db' :
  insert_article_stmt fault a db = Ok (id, db') -> article_sources db' = article_sources db.
Proof.
  unfold insert_article_stmt. intro H. apply exec_inv in H as [_ H].
  unfold insert_article_auto in H. destruct (new_rowid _ _); [|discriminate].
  destruct (existsb _ _); [discriminate|]. inversion H; subst. reflexivity.
Qed.

Lemma NoDup_snoc_fresh (l : list Z) x : NoDup l -> ~ In x l -> NoDup (l ++ [x])%list.
Proof.
  intros N I. apply NoDup_app; [exact N | repeat constructor; intros [] | ].
  intros y Y [<- | []]. exact (I Y).
Qed.

Lemma insert_loop_fold fault feed now incoming : forall seen added db res db',
  insert_loop fault feed now seen added incoming db = Ok (res, db') ->
  Forall (fun r => (0 < ar_id r)%Z) (articles db) -> NoDup (map ar_id (articles db)) ->
  NoDup (map incoming_guid incoming) -> Forall (fun a => ~ In (incoming_guid a) seen) incoming ->
  Forall (fun a => TrimSpace (incoming_identity a) <> "") incoming ->
  NoDup (map incoming_identity incoming) ->
  exists new, res = (added ++ new)%list
   /\ length new = (length incoming - count_live (articles db) incoming)%nat
   /\ Permutation (articles db') (articles db ++ map (fun a => article_row_of a (Art.ID a)) new)%list
   /\ Forall (fun r => (0 < ar_id r)%Z) (articles db') /\ NoDup (map ar_id (articles db'))
   /\ (forall x g, source_exists db x g = true -> source_exists db' x g = true)
   /\ Forall (fun a => exists r, In r (articles db') /\ ar_base_url r = Some (incoming_identity a)
                               /\ source_exists db' (ar_id r) (Fd.ID feed) = true) incoming.
Proof.
  induction incoming as [|a0 rest IH]; intros seen added db res db' H HP HN HG HS HB HI.
  - simpl in H. apply ret_inv in H as [-> ->]. exists []. rewrite !app_nil_r.
    repeat split; auto.
  - inversion HG as [|? ? G0 HG']; subst. inversion HS as [|? ? S0 HS']; subst.
    inversion HB as [|? ? B0 HB']; subst. inversion HI as [|? ? I0 HI']; subst.
    cbn [insert_loop] in H. fold (incoming_guid a0) in H.
    rewrite (existsb_eqb_notin _ _ S0) in H.
    assert (HS2 : Forall (fun a => ~ In (incoming_guid a) (incoming_guid a0 :: seen)) rest).
    { rewrite Forall_forall in HS' |- *. intros a Ia [E|E]; [|exact (HS' a Ia E)].
      apply G0. rewrite E. apply in_map. exact Ia. }
    assert (HD : Forall (fun a => incoming_identity a <> incoming_identity a0) rest).
    { rewrite Forall_forall. intros a Ia E. apply I0. rewrite <- E. apply in_map. exact Ia. }
    apply bind_inv in H as (x & d0 & E0 & H).
    apply findArticleIDByBaseURL_inv in E0 as [-> Hx].
    destruct Hx as [[T _] | [_ Hx]]; [contradiction|].
    change (Art.BaseURL (claim_for_feed feed now (normalize_incoming a0))) with (incoming_identity a0) in Hx, H.
    destruct (find _ (articles db)) as [r|] eqn:Fd.
    + (* folded into the live row [r] *)
      pose proof (find_some_pos _ _ _ HP Fd) as Rpos. subst x.
      destruct (Z.eqb_spec (ar_id r) 0) as [Z0|_]; [contradiction|]. cbn [negb] in H.
      apply bind_inv in H as ([] & d1 & E1 & H).
      pose proof (ensure_keeps _ _ _ _ _ _ _ E1) as (_ & A1 & _).
      apply ensure_sources in E1 as [Src1 Mono1].
      destruct (IH _ _ _ _ _ H) as (new & Er & Len & Art & P' & N' & Mono & Fa);
        try rewrite A1; auto.
      exists new. split; [exact Er|]. split.
      { cbn [length count_live filter]. unfold count_live in Len |- *. cbn [filter].
        rewrite (find_some_existsb _ _ _ Fd : live_match (articles db) a0 = true). simpl.
        rewrite Len, A1. reflexivity. }
      split; [rewrite A1 in Art; exact Art|].
      split; [exact P'|]. split; [exact N'|]. split; [intros; apply Mono, Mono1; assumption|].
      constructor; [|exact Fa].
      apply find_some in Fd as [Ir Er']. exists r. repeat split.
      * apply (Permutation_in _ (Permutation_sym Art)). rewrite A1.
        apply in_or_app. left. exact Ir.
      * exact (opt_str_eqb_true _ _ Er').
      * apply Mono. exact Src1.
    + (* a new row *)
      subst x. cbn [negb Z.eqb] in H.
      apply bind_inv in H as (id & d1 & E1 & H).
      pose proof (insert_article_stmt_sources _ _ _ _ _ E1) as S1.
      apply insert_article_stmt_inv in E1 as (Eid & A1 & _).
      apply bind_inv in H as (id' & d2 & E2 & H). unfold lastInsertID in E2.
      apply exec_inv in E2 as [_ E2]. inversion E2; subst id' d2; clear E2.
      apply bind_inv in H as ([] & d3 & E3 & H).
      pose proof (ensure_keeps _ _ _ _ _ _ _ E3) as (_ & A3 & _).
      apply ensure_sources in E3 as [Src3 Mono3].
      set (row := article_row_of (claim_for_feed feed now (normalize_incoming a0)) id) in *.
      assert (Rb : ar_base_url row = Some (incoming_identity a0)) by reflexivity.
      assert (Pid : (0 < id)%Z).
      { refine (new_rowid_pos _ _ _ _ Eid). rewrite Forall_map. exact HP. }
      pose proof (new_rowid_fresh _ _ _ Eid) as Fid.
      assert (Pr : Permutation (insert_by_key ar_id row (articles db)) (articles db ++ [row])%list).
      { eapply perm_trans; [apply insert_by_key_perm|]. apply Permutation_cons_append. }
      destruct (IH _ _ _ _ _ H) as (new & Er & Len & Art & P' & N' & Mono & Fa);
        try rewrite A3, A1; auto.
      { refine (Forall_perm _ _ _ (Permutation_sym Pr) _).
        apply Forall_app. split; [exact HP | repeat constructor; exact Pid]. }
      { refine (Permutation_NoDup (Permutation_map _ (Permutation_sym Pr)) _).
        rewrite map_app. apply NoDup_snoc_fresh; assumption. }
      exists (set_ID (claim_for_feed feed now (normalize_incoming a0)) id :: new).
      split; [rewrite Er, <- app_assoc; reflexivity|]. split.
      { rewrite A3, A1, (count_live_perm _ _ _ Pr), (count_live_snoc _ _ _ _ Rb HD) in Len.
        unfold count_live in Len |- *. cbn [filter length].
        rewrite (find_none_existsb _ _ Fd : live_match (articles db) a0 = false).
        rewrite Len. pose proof (count_live_le (articles db) rest). unfold count_live in H0. lia. }
      split.
      { rewrite A3, A1 in Art. eapply perm_trans; [exact Art|].
        eapply perm_trans; [apply Permutation_app_tail, Pr|]. rewrite <- app_assoc.
        apply Permutation_refl. }
      split; [exact P'|]. split; [exact N'|].
      split.
      { intros x g Hx. apply Mono. apply Mono3. unfold source_exists in Hx |- *.
        rewrite S1. exact Hx. }
      constructor; [|exact Fa].
      exists row. split; [|split].
      * apply (Permutation_in _ (Permutation_sym Art)). rewrite A3, A1.
        apply in_or_app. left. apply insert_by_key_In. left. reflexivity.
      * exact Rb.
      * apply Mono. exact Src3.
Qed.

Lemma NoDup_map_eq {A B} (f : A -> B) l x y :
  NoDup (map f l) -> In x l -> In y l -> f x = f y -> x = y.
Proof.
  induction l as [|z l IH]; simpl; [tauto|]. intros N Ix Iy E.
  inversion N as [|? ? Nz N']; subst.
  destruct Ix as [<-|Ix], Iy as [<-|Iy]; auto.
  - exfalso. apply Nz. rewrite E. apply in_map. exact Iy.
  - exfalso. apply Nz. rewrite <- E. apply in_map. exact Ix.
Qed.

Lemma Forall_lands_in db f l :
  Forall (fun a => exists r, In r (articles db) /\ ar_base_url r = Some (incoming_identity a)
                             /\ source_exists db (ar_id r) f = true) l ->
  exists ts, Forall2 (lands_in db f) l ts.
Proof.
  induction 1 as [|a l (r & I & B & S) _ (ts & F)]; [exists []; constructor|].
  exists (ar_id r :: ts). constructor; [|exact F]. exists r. auto.
Qed.

Lemma Forall2_in_r {A B} (R : A -> B -> Prop) l ts t :
  Forall2 R l ts -> In t ts -> exists a, In a l /\ R a t.
Proof.
  induction 1 as [|a t' l ts Ra F IH]; simpl; [tauto|].
  intros [<-|I]; [exists a; auto|]. destruct (IH I) as (a' & Ia & R'). exists a'. auto.
Qed.

Lemma lands_in_nodup db f l ts :
  NoDup (map ar_id (articles db)) -> NoDup (map incoming_identity l) ->
  Forall2 (lands_in db f) l ts -> NoDup ts.
Proof.
  intros N. induction 2 as [|a t l ts (r & Ir & Et & Br & _) F IH]; [constructor|].
  inversion H as [|? ? Na N']; subst. constructor; [|exact (IH N')].
  intro It. destruct (Forall2_in_r _ _ _ _ F It) as (a' & Ia' & (r' & Ir' & Et' & Br' & _)).
  assert (r = r') as <- by (apply (NoDup_map_eq ar_id (articles db)); auto; congruence).
  apply Na. rewrite Br in Br'. inversion Br' as [E]. rewrite E. apply in_map. exact Ia'.
Qed.

Lemma touch_feed_keeps fault f now db u db' :
  touch_feed fault f now db = Ok (u, db') ->
  articles db' = articles db /\ article_sources db' = article_sources db.
Proof. unfold touch_feed. intro H. apply exec_inv in H as [_ H]. inversion H; subst. auto. Qed.



Lemma merge_identity_fix u b :
  TrimSpace u = u -> merge_identity u (merge_identity u b) = merge_identity u b.
Proof.
  intro T. unfold merge_identity. cbv zeta.
  destruct (String.eqb (baseURL u) "") eqn:E1.
  - destruct (String.eqb (TrimSpace b) "") eqn:E2.
    + rewrite T. destruct (String.eqb u ""); reflexivity.
    + rewrite TrimSpace_idem, E2. reflexivity.
  - rewrite E1. reflexivity.
Qed.

Lemma source_exists_filter db x g B :
  x <> B ->
  existsb (fun s => Z.eqb (src_article_id s) x && Z.eqb (src_feed_id s) g)
    (filter (fun s => negb (Z.eqb (src_article_id s) B)) (article_sources db))
  = source_exists db x g.
Proof.
  intro N. unfold source_exists. induction (article_sources db) as [|s l IH]; [reflexivity|].
  simpl. destruct (Z.eqb_spec (src_article_id s) B) as [E|_]; simpl.
  - rewrite IH. destruct (Z.eqb_spec (src_article_id s) x); [congruence|reflexivity].
  - rewrite IH. reflexivity.
Qed.

Lemma move_summaries_sources A B db u db' :
  move_summaries A B db = Ok (u, db') -> article_sources db' = article_sources db.
Proof.
  unfold move_summaries.
  destruct (_ || _); [intro H; inversion H; reflexivity|].
  destruct (existsb _ _); [intro H; discriminate H|].
  destruct (negb _); [intro H; discriminate H|].
  intro H; inversion H; reflexivity.
Qed.

Lemma move_saved_sources A B db u db' :
  move_saved A B db = Ok (u, db') -> article_sources db' = article_sources db.
Proof.
  unfold move_saved.
  destruct (_ || _); [intro H; inversion H; reflexivity|].
  destruct (existsb _ _); [intro H; discriminate H|].
  destruct (negb _); [intro H; discriminate H|].
  intro H; inversion H; reflexivity.
Qed.

Lemma merge_into_sources fault A B f p db db' :
  merge_into fault A B f p db = Ok (tt, db') ->
  forall x g, x <> B -> source_exists db x g = true -> source_exists db' x g = true.
Proof.
  intros H x g N Hx. unfold merge_into in H.
  apply bind_inv in H as ([] & d0 & E0 & H). apply ensure_sources in E0 as [_ M0].
  apply M0 in Hx. clear M0.
  apply bind_inv in H as (hs & d1 & E1 & H). apply exec_inv in E1 as [_ E1].
  simpl in E1. inversion E1; subst hs d1; clear E1.
  apply bind_inv in H as ([] & d2 & E2 & H).
  assert (S2 : article_sources d2 = article_sources d0).
  { destruct (existsb _ (summaries d0)); apply exec_inv in E2 as [_ E2].
    - inversion E2; reflexivity.
    - exact (move_summaries_sources _ _ _ _ _ E2). }
  apply bind_inv in H as (hv & d3 & E3 & H). apply exec_inv in E3 as [_ E3].
  simpl in E3. inversion E3; subst hv d3; clear E3.
  apply bind_inv in H as ([] & d4 & E4 & H).
  assert (S4 : article_sources d4 = article_sources d2).
  { destruct (existsb _ (saved d2)); apply exec_inv in E4 as [_ E4].
    - inversion E4; reflexivity.
    - exact (move_saved_sources _ _ _ _ _ E4). }
  apply exec_inv in H as [_ H]. inversion H; subst db'; clear H.
  unfold source_exists at 1. simpl.
  change (filter (fun s => negb (Z.eqb (src_article_id s) B)) (article_sources d4))
    with (filter (fun s => negb (Z.eqb (src_article_id s) B)) (article_sources (with_sources d4 (article_sources d4)))).
  rewrite source_exists_filter by exact N. unfold source_exists in Hx |- *. simpl.
  rewrite S4, S2. exact Hx.
Qed.

Lemma settled_mono db db' r :
  (source_exists db (ar_id r) (ar_feed_id r) = true -> source_exists db' (ar_id r) (ar_feed_id r) = true) ->
  settled db r -> settled db' r.
Proof. intros M (b & B & F & S). exists b. auto. Qed.

Lemma merge_loop_fixes fault :
  (forall d, fault "rows.Next" d = false) ->
  forall rest m P db db', fix_inv P rest db ->
  merge_loop fault m rest db = Ok (tt, db') ->
  Forall (settled db') (articles db').
Proof.
  intros NF rest. induction rest as [|r rest IH]; intros m P db db' (HA & HI & HT & HS) H.
  - simpl in H. inversion H; subst db'. rewrite HA, app_nil_r. exact HS.
  - cbn [merge_loop] in H. apply bind_inv in H as (more & d0 & E0 & H).
    unfold rows_next in E0. rewrite NF in E0. inversion E0; subst more d0; clear E0.
    cbn [negb] in H.
    destruct (ar_base_url r) as [b|] eqn:Rb; [|discriminate].
    inversion HT as [|? ? Tr HT']; subst.
    set (n := merge_identity (ar_url r) b) in H.
    set (r' := mkArticleRow (ar_id r) (ar_feed_id r) (ar_guid r) (ar_title r) (ar_url r)
                 (Some n) (ar_author r) (ar_content r) (ar_content_text r)
                 (ar_published_at r) (ar_fetched_at r) (ar_is_read r) (ar_is_starred r)
                 (ar_feed_title r)).
    rewrite map_app in HI. cbn [map] in HI.
    pose proof HI as HI'. apply NoDup_remove_2 in HI'.
    rewrite in_app_iff in HI'.
    assert (NP : ~ In (ar_id r) (map ar_id P)) by tauto.
    assert (NR : ~ In (ar_id r) (map ar_id rest)) by tauto.
    apply bind_inv in H as ([] & d1 & E1 & H).
    assert (A1 : articles d1 = (P ++ r' :: rest)%list /\ article_sources d1 = article_sources db).
    { destruct (negb (String.eqb n b)) eqn:En.
      - apply exec_inv in E1 as [_ E1]. inversion E1; subst d1. simpl. rewrite HA.
        rewrite map_app. cbn [map]. rewrite Z.eqb_refl, !map_other_ids by assumption.
        split; reflexivity.
      - apply ret_inv in E1 as [_ ->]. rewrite HA. apply negb_false_iff, String.eqb_eq in En.
        subst r'. rewrite En. destruct r; simpl in *. rewrite Rb. split; reflexivity. }
    destruct A1 as [A1 S1]. clear E1.
    assert (HS1 : Forall (settled d1) P).
    { eapply Forall_impl; [|exact HS]. intro r0. apply settled_mono.
      unfold source_exists. rewrite S1. auto. }
    destruct (lookup_id n m) as [existingID|] eqn:L.
    + apply bind_inv in H as ([] & d2 & E2 & H).
      pose proof (merge_into_sources _ _ _ _ _ _ _ E2) as M2.
      apply merge_into_articles in E2. rewrite A1, filter_app in E2. cbn [filter] in E2.
      subst r'. cbn [ar_id] in E2. rewrite Z.eqb_refl, !filter_other_ids in E2 by assumption.
      simpl in E2. apply (IH m P d2 db'); [|exact H].
      split; [exact E2|]. split; [rewrite map_app; apply NoDup_remove_1 in HI; exact HI|].
      split; [exact HT'|].
      rewrite Forall_forall in HS1 |- *. intros r0 I0. apply (settled_mono d1); [|exact (HS1 r0 I0)].
      apply M2. intro E. apply NP. rewrite <- E. apply in_map. exact I0.
    + apply bind_inv in H as ([] & d2 & E2 & H).
      pose proof (ensure_keeps _ _ _ _ _ _ _ E2) as (_ & A2 & _).
      apply ensure_sources in E2 as [Src2 M2].
      apply (IH ((n, ar_id r) :: m) (P ++ [r'])%list d2 db'); [|exact H].
      split; [rewrite A2, A1, <- app_assoc; reflexivity|].
      split; [rewrite <- app_assoc, map_app; subst r'; simpl; exact HI|].
      split; [exact HT'|].
      apply Forall_app. split.
      * eapply Forall_impl; [|exact HS1]. intro r0. apply settled_mono, M2.
      * constructor; [|constructor]. exists n. split; [reflexivity|]. split.
        -- subst r' n. simpl. apply merge_identity_fix. exact Tr.
        -- exact Src2.
Qed.

Lemma merge_loop_stable fault : forall rows m db db',
  Forall (settled db) rows ->
  NoDup (map ar_base_url rows) ->
  (forall r b, In r rows -> ar_base_url r = Some b -> lookup_id b m = None) ->
  merge_loop fault m rows db = Ok (tt, db') ->
  table_counts db' = table_counts db.
Proof.
  induction rows as [|r rows IH]; intros m db db' HS HN HL H.
  - simpl in H. inversion H. reflexivity.
  - cbn [merge_loop] in H. apply bind_inv in H as (more & d0 & E0 & H).
    unfold rows_next in E0. inversion E0; subst d0; clear E0.
    destruct more; cbn [negb] in H; [|apply ret_inv in H as [_ ->]; reflexivity].
    inversion HS as [|? ? (b & Rb & Fb & Sb) HS']; subst.
    inversion HN as [|? ? Nb HN']; subst.
    rewrite Rb, Fb, String.eqb_refl in H. cbn [negb] in H.
    apply bind_inv in H as ([] & d1 & E1 & H). apply ret_inv in E1 as [_ ->].
    rewrite (HL r b (or_introl eq_refl) Rb) in H.
    apply bind_inv in H as ([] & d2 & E2 & H).
    apply ensure_inv in E2 as [(_ & ->) | (Ex & _)]; [|rewrite Sb in Ex; discriminate Ex].
    assert (C : table_counts db' = table_counts (with_sources db (map (refresh_src (ar_id r) (ar_feed_id r) (timeFromUnix (ar_published_at r))) (article_sources db)))).
    { apply (IH ((b, ar_id r) :: m)); [| exact HN' | | exact H].
      - eapply Forall_impl; [|exact HS']. intro r0. apply settled_mono.
        unfold source_exists at 2. cbn [article_sources with_sources].
        rewrite source_exists_refresh. auto.
      - intros r0 b0 I0 R0. cbn [lookup_id].
        destruct (String.eqb_spec b0 b) as [->|_]; [|exact (HL r0 b0 (or_intror I0) R0)].
        exfalso. apply Nb. rewrite Rb, <- R0. apply in_map. exact I0. }
    rewrite C. unfold table_counts. simpl. rewrite length_map. reflexivity.
Qed.

Lemma for_each_app_inv {X} (g : X -> TxM unit) l1 l2 db db' :
  for_each g (l1 ++ l2) db = Ok (tt, db') ->
  exists dm, for_each g l1 db = Ok (tt, dm) /\ for_each g l2 dm = Ok (tt, db').
Proof.
  revert db. induction l1 as [|x l1 IH]; intros db H.
  - exists db. split; [reflexivity | exact H].
  - apply for_each_cons_inv in H as (d1 & H1 & H2).
    destruct (IH _ H2) as (dm & A & B). exists dm. split; [|exact B].
    cbn [for_each]. unfold bind. rewrite H1. exact A.
Qed.

(** One restore step that folds a tombstone into a live article. *)
Lemma restore_tombstone_fold fault t d d' e :
  restore_tombstone fault t d = Ok (tt, d') ->
  find (fun r => opt_str_eqb (ar_base_url r) (restore_identity t)) (articles d) = Some e ->
  articles d' = articles (set_flags (ar_id e)
                  (boolToInt (intToBool (ar_is_read e) && intToBool (dr_is_read t)))
                  (boolToInt (intToBool (ar_is_starred e) || intToBool (dr_is_starred t))) d)
  /\ deleted d' = filter (fun x => negb (Z.eqb (dr_id x) (dr_id t))) (deleted d).
Proof.
  unfold restore_tombstone, find_live_by_base. intros E2 He.
  apply bind_inv in E2 as (ex & d3 & E3 & E2). apply exec_inv in E3 as [_ E3].
  inversion E3; subst ex d3; clear E3. rewrite He in E2.
  apply bind_inv in E2 as ([] & d4 & E4 & E2).
  apply bind_inv in E4 as ([] & d5 & E5 & E4). apply exec_inv in E5 as [_ E5].
  inversion E5; subst d5; clear E5.
  apply ensure_keeps in E4 as (_ & A4 & _ & _ & D4).
  apply exec_inv in E2 as [_ E2]. inversion E2; subst; clear E2.
  simpl. rewrite A4, D4. simpl. auto.
Qed.

(* ================================================================= *)
(** ** The claims *)

Local Open Scope Z_scope.

(** *** C8: the timestamp of an [article_sources] row *)

(** C8 (counterexample). Observing the published times 200 and then 100
    for the same (article, feed) pair stores 200: the first known time,
    not the earliest one (100). *)
Lemma ensureArticleSource_not_earliest :
  for_each (fun t => ensureArticleSource no_fault 1 1 t) [unix_time 200; unix_time 100] ex_db1
  = Ok (tt, with_sources ex_db1 [mkSourceRow 1 1 200])
  /\ src_of (with_sources ex_db1 [mkSourceRow 1 1 200]) 1 1 = [mkSourceRow 1 1 200]
  /\ (100 < 200)%Z.
Proof. split; [vm_compute; reflexivity | split; [vm_compute; reflexivity | lia]]. Qed.

(** C8 (amended). Across any successful sequence of [ensureArticleSource]
    calls for one (article, feed) pair with the published times [ts], the
    row of the pair holds the first known (non-zero) time of [ts], as
    [timeToUnix] writes it: a row created by the sequence ends with
    [first_known ts]; a stored 0 is replaced by [first_known ts]; a stored
    known time is never overwritten, neither by a zero nor by an earlier
    time. *)
Theorem ensureArticleSource_first_known fault a f ts db db' :
  for_each (fun t => ensureArticleSource fault a f t) ts db = Ok (tt, db') ->
  (src_of db a f = [] -> ts <> [] -> src_of db' a f = [mkSourceRow a f (first_known ts)])
  /\ (forall p, src_of db a f = [mkSourceRow a f p] ->
      src_of db' a f = [mkSourceRow a f (if Z.eqb p 0 then first_known ts else p)]).
Proof.
  intro H. split.
  - intros N Hts. destruct ts as [|t ts]; [contradiction|].
    apply for_each_cons_inv in H as (db1 & H1 & H2).
    apply ensure_src_step in H1 as [H1 _]. specialize (H1 N).
    rewrite (ensure_seq_known _ _ _ _ _ _ _ H2 H1). simpl.
    destruct (Z.eqb (timeToUnix t) 0); reflexivity.
  - intros p Hp. exact (ensure_seq_known _ _ _ _ _ _ _ H Hp).
Qed.

Lemma ensureArticleSource_first_known_witness :
  src_of ex_db1 1 1 = []
  /\ src_of (with_sources ex_db1 [mkSourceRow 1 1 300]) 1 1 = [mkSourceRow 1 1 (first_known [zero_time; unix_time 300; unix_time 100])].
Proof.
  split; [vm_compute; reflexivity|].
  refine (proj1 (ensureArticleSource_first_known no_fault 1 1 [zero_time; unix_time 300; unix_time 100] ex_db1
                   (with_sources ex_db1 [mkSourceRow 1 1 300]) _) _ _).
  - vm_compute. reflexivity.
  - vm_compute. reflexivity.
  - discriminate.
Defined.

(** *** C10: [ImportState] drops the identities and the sources *)

(** C10. A successful [ImportState] of any decoded snapshot (in particular
    of one written by [ExportState]) leaves every article row with a NULL
    [base_url] and no [article_sources] row: the articles are inserted
    without the column, the sources are never inserted, and the
    [DELETE FROM articles] and [DELETE FROM feeds] cascade to the old
    sources. *)
Theorem ImportState_drops_identities fault tagsMarshal st db db' :
  ImportState fault tagsMarshal st db = (db', Ok tt) ->
  Forall (fun r => ar_base_url r = None) (articles db') /\ article_sources db' = [].
Proof.
  unfold ImportState. destruct (negb _); [intro H; inversion H|].
  intro H. apply transact_ok in H. unfold ImportState_body in H.
  do 5 (apply bind_inv in H as ([] & ? & E1 & H); apply exec_inv in E1 as [_ E1];
         inversion E1; subst; clear E1).
  assert (P0 : no_identities (delete_all_feeds (delete_all_articles
                 (with_deleted (with_saved (with_summaries db [])  []) [])))).
  { split; simpl; constructor. }
  change (no_identities db').
  apply bind_inv in H as ([] & d1 & E1 & H).
  pose proof (for_each_preserve _ _ (import_feed_keeps fault) _ _ _ E1 P0) as P1.
  apply bind_inv in H as ([] & d2 & E2 & H).
  pose proof (for_each_preserve _ _ (import_article_keeps fault) _ _ _ E2 P1) as P2.
  apply bind_inv in H as ([] & d3 & E3 & H).
  pose proof (for_each_preserve _ _ (import_summary_keeps fault) _ _ _ E3 P2) as P3.
  apply bind_inv in H as ([] & d4 & E4 & H).
  pose proof (for_each_preserve _ _ (import_saved_keeps fault tagsMarshal) _ _ _ E4 P3) as P4.
  exact (for_each_preserve _ _ (import_deleted_keeps fault) _ _ _ H P4).
Qed.

Lemma ImportState_drops_identities_witness :
  let db' := fst (ImportState no_fault (fun _ => "") ex_state ex_db1) in
  Forall (fun r => ar_base_url r = None) (articles db') /\ article_sources db' = []
  /\ length (articles db') = 1%nat.
Proof.
  intro db'.
  assert (H : ImportState no_fault (fun _ => "") ex_state ex_db1 = (db', Ok tt))
    by (vm_compute; reflexivity).
  destruct (ImportState_drops_identities no_fault (fun _ => "") ex_state ex_db1 db' H) as [H1 H2].
  split; [exact H1 | split; [exact H2 | vm_compute; reflexivity]].
Defined.

(** *** C9: delete, then undo *)

(** C9 (amended). If [DeleteArticle] removes an article [a] and the next
    [UndeleteLast] succeeds, the article it restores, and the row it writes,
    equal [a] in every field but the id, except the base identity when the
    stored one is empty: [UndeleteLast] then recomputes it as [baseURL] of
    the URL. This holds while the tombstone ids are below [MAX_ROWID]: the
    new tombstone then takes the largest id, and is the one restored. *)
Theorem DeleteArticle_UndeleteLast_roundtrip fault now id db db1 db2 a a' :
  Forall (fun t => (dr_id t < MAX_ROWID)%Z) (deleted db) ->
  DeleteArticle fault now id db = (db1, Ok a) ->
  UndeleteLast fault db1 = (db2, Ok a') ->
  set_ID a' (Art.ID a) = (if String.eqb (Art.BaseURL a) "" then set_BaseURL a (baseURL (Art.URL a))
                          else a)
  /\ In (article_row_of a' (Art.ID a')) (articles db2)
  /\ scanArticle (article_row_of a' (Art.ID a')) = Some a'.
Proof.
  intros HF HD HU.
  apply DeleteArticle_inv in HD as (r & tid & _ & Sr & N & D).
  apply UndeleteLast_inv in HU as (r' & did & article0 & nid & M & S' & _ & -> & A2 & _).
  rewrite (new_rowid_seq _ _ (proj2 (Forall_map _ _ _) HF)) in N.
  inversion N; subst tid; clear N.
  assert (G : Forall (fun x => (dr_id x < dr_id (deleted_row_of a now (next_rowid (map dr_id (deleted db)))))%Z)
                (deleted db)).
  { pose proof (next_rowid_gt (map dr_id (deleted db))) as G. rewrite Forall_map in G. exact G. }
  rewrite D, (insert_by_key_last _ _ _ G), (max_deleted_last _ _ G) in M.
  inversion M; subst r'. clear M D G.
  destruct r as [rid rfeed rguid rtitle rurl [b|] rauthor rcontent rtext rpub rfetch rread rstar rftitle];
    simpl in Sr; [|discriminate].
  inversion Sr; subst a. clear Sr. simpl in S'. inversion S'; subst did article0. clear S'.
  unfold undelete_article in *. simpl in *.
  rewrite !time_roundtrip, !flag_roundtrip in *.
  destruct (String.eqb b "") eqn:E; simpl in *; rewrite A2.
  all: split; [reflexivity|].
  all: split; [apply insert_by_key_In; left; reflexivity|].
  all: unfold article_row_of, scanArticle; simpl; rewrite ?time_roundtrip, ?flag_roundtrip.
  all: reflexivity.
Qed.

Lemma DeleteArticle_UndeleteLast_roundtrip_witness :
  let p1 := DeleteArticle no_fault 500 1 ex_db9 in
  let p2 := UndeleteLast no_fault (fst p1) in
  let a := ok_or zero_article (snd p1) in
  let a' := ok_or zero_article (snd p2) in
  set_ID a' (Art.ID a) = (if String.eqb (Art.BaseURL a) "" then set_BaseURL a (baseURL (Art.URL a))
                          else a).
Proof.
  intros p1 p2 a a'.
  refine (proj1 (DeleteArticle_UndeleteLast_roundtrip no_fault 500 1 ex_db9 (fst p1) (fst p2)
                   a a' _ _ _)).
  - exact (Forall_nil _).
  - vm_compute. reflexivity.
  - vm_compute. reflexivity.
Defined.

(** C9 (counterexample). An article whose stored base identity is empty but
    whose URL has one comes back from [DeleteArticle] then [UndeleteLast]
    with a different [BaseURL]. *)
Lemma DeleteArticle_UndeleteLast_recomputes_base :
  match DeleteArticle no_fault 500 1 ex_db9 with
  | (db1, Ok a) =>
      match UndeleteLast no_fault db1 with
      | (_, Ok a') => Art.BaseURL a = "" /\ Art.BaseURL a' = "https://x.test/p"
      | _ => False
      end
  | _ => False
  end.
Proof. vm_compute. split; reflexivity. Qed.

(** *** C5: atomicity *)

(** C5 (the divergence). [UndeleteLast] runs without a transaction: when
    the final [DELETE FROM deleted] fails, the call reports the error but the
    restored article stays committed next to the tombstone it came from. *)
Theorem UndeleteLast_partial_write :
  let fault := fun sql (_ : DB) => String.eqb sql "DELETE FROM deleted WHERE id = ?" in
  match UndeleteLast fault ex_db5 with
  | (db', Err _) => length (articles db') = 1%nat /\ deleted db' = deleted ex_db5
                   /\ articles ex_db5 = []
  | _ => False
  end.
Proof. vm_compute. repeat split; reflexivity. Qed.

(** [MergeDuplicateArticles] never reads [rows.Err()]: when the row
    iteration fails after the first row, it commits and reports success with
    the duplicate still there. *)
Lemma MergeDuplicateArticles_iteration_error :
  let fault := fun sql db => String.eqb sql "rows.Next" && negb (Nat.eqb (length (article_sources db)) 0) in
  match MergeDuplicateArticles fault ex_db_dup with
  | (db', Ok tt) => length (articles db') = 2%nat /\ length (articles (fst (MergeDuplicateArticles no_fault ex_db_dup))) = 1%nat
  | _ => False
  end.
Proof. vm_compute. split; reflexivity. Qed.

(** The operations built on [transact] ([InsertArticles],
    [MergeDuplicateArticles], [DeleteArticle] past its lookup, [ImportState])
    leave the database untouched when they fail. *)
Lemma InsertArticles_atomic fault feed now incoming db db' e :
  InsertArticles fault feed now incoming db = (db', Err e) -> db' = db.
Proof. apply transact_err. Qed.

Lemma MergeDuplicateArticles_atomic fault db db' e :
  MergeDuplicateArticles fault db = (db', Err e) -> db' = db.
Proof. apply transact_err. Qed.

Lemma DeleteArticle_atomic fault now id db db' e :
  DeleteArticle fault now id db = (db', Err e) -> db' = db.
Proof.
  unfold DeleteArticle, autocommit, select_article, exec.
  destruct (fault _ db); [intro H; inversion H; auto|].
  destruct (find _ _) as [r|]; [|intro H; inversion H; auto].
  destruct (scanArticle r); [apply transact_err|intro H; inversion H; auto].
Qed.

(** *** C6: restore-by-window, flag policy *)


(** C6. Modelled from the spec: a successful restore-by-window returns
    the number of tombstones in the window and processes them in order;
    when it processes a tombstone [t] whose recomputed identity is then the
    base identity of a live article [e], the only change that step makes to
    the articles is that [e]'s read flag becomes [e.read AND t.read] and
    its starred flag [e.starred OR t.starred], and the step removes [t]. *)
Theorem UndeleteByPublishedDays_flag_policy fault now days db db' n :
  UndeleteByPublishedDays fault now days db = (db', Ok n) ->
  n = Z.of_nat (length (filter (in_window (cutoff_of now days)) (deleted db)))
  /\ forall pre t suf,
       filter (in_window (cutoff_of now days)) (deleted db) = (pre ++ t :: suf)%list ->
       exists d d', for_each (restore_tombstone fault) pre db = Ok (tt, d)
         /\ restore_tombstone fault t d = Ok (tt, d')
         /\ for_each (restore_tombstone fault) suf d' = Ok (tt, db')
         /\ forall e,
              find (fun r => opt_str_eqb (ar_base_url r) (restore_identity t)) (articles d) = Some e ->
              articles d' = articles (set_flags (ar_id e)
                              (boolToInt (intToBool (ar_is_read e) && intToBool (dr_is_read t)))
                              (boolToInt (intToBool (ar_is_starred e) || intToBool (dr_is_starred t))) d)
              /\ deleted d' = filter (fun x => negb (Z.eqb (dr_id x) (dr_id t))) (deleted d).
Proof.
  intro H. unfold UndeleteByPublishedDays in H.
  destruct (Z.leb days 0); [inversion H|].
  apply transact_ok in H. unfold UndeleteByPublishedDays_body in H.
  apply bind_inv in H as (count & d0 & E0 & H). apply exec_inv in E0 as [_ E0].
  inversion E0; subst count d0; clear E0.
  destruct (Z.eqb _ 0); [inversion H|].
  apply bind_inv in H as (rows & d0 & E0 & H). apply exec_inv in E0 as [_ E0].
  inversion E0; subst rows d0; clear E0.
  apply bind_inv in H as ([] & d1 & E1 & H). apply ret_inv in H as [-> ->].
  split; [reflexivity|].
  intros pre t suf Hs. rewrite Hs in E1.
  apply for_each_app_inv in E1 as (d & E1 & E2).
  apply for_each_cons_inv in E2 as (d' & E2 & E3).
  exists d, d'. split; [exact E1|]. split; [exact E2|]. split; [exact E3|].
  intros e He. exact (restore_tombstone_fold _ _ _ _ _ E2 He).
Qed.

Lemma UndeleteByPublishedDays_flag_policy_witness :
  let db' := fst (UndeleteByPublishedDays no_fault 2000 1 ex_db6b) in
  map ar_is_read (articles db') = [0] /\ map ar_is_starred (articles db') = [1] /\ deleted db' = [].
Proof.
  intro db'.
  assert (H : UndeleteByPublishedDays no_fault 2000 1 ex_db6b = (db', Ok 2))
    by (vm_compute; reflexivity).
  destruct (proj2 (UndeleteByPublishedDays_flag_policy no_fault 2000 1 ex_db6b db' 2 H)
              [ex_tomb6a] ex_tomb6b [] ltac:(vm_compute; reflexivity))
    as (d & d' & E1 & _ & E3 & F).
  vm_compute in E1. injection E1 as E1.
  cbn [for_each] in E3. unfold ret in E3. injection E3 as E3. rewrite <- E3.
  destruct (F ex_live6) as [A D]; [rewrite <- E1; vm_compute; reflexivity|].
  rewrite A, D, <- E1. vm_compute. split; [reflexivity | split; reflexivity].
Defined.

(** *** C4: summaries and bookmarks of a merged duplicate *)

(** C4 (counterexample). Reconciling two articles of one identity, neither
    with a summary, merges them and leaves no summary for the identity, not
    exactly one. *)
Lemma MergeDuplicateArticles_no_summary_to_keep :
  match MergeDuplicateArticles no_fault ex_db_dup with
  | (db', Ok tt) => length (articles db') = 1%nat /\ summaries_for db' 1 = [] /\ summaries db' = []
  | _ => False
  end.
Proof. vm_compute. repeat split; reflexivity. Qed.

(** C4 (amended). When reconciliation merges the duplicate article [B]
    into the representative [A] ([merge_into], [A <> B], at most one summary
    and one bookmark per article before), then afterwards: [A]'s summaries
    are [A]'s own if it had one, else [B]'s moved onto [A]; [B] has none;
    [A] has exactly one summary if [A] or [B] had one and none otherwise;
    there is still at most one summary per article; the summaries of other
    articles are untouched. The same holds for the bookmarks ([saved]). *)
Theorem merge_into_summaries_saved fault A B f p db db' :
  A <> B ->
  NoDup (map sr_article_id (summaries db)) -> NoDup (map sv_article_id (saved db)) ->
  merge_into fault A B f p db = Ok (tt, db') ->
  (summaries_for db' A = match summaries_for db A with
                         | [] => map (retarget_summary A) (summaries_for db B)
                         | l => l
                         end
   /\ summaries_for db' B = []
   /\ length (summaries_for db' A)
      = match (summaries_for db A ++ summaries_for db B)%list with [] => 0%nat | _ => 1%nat end
   /\ NoDup (map sr_article_id (summaries db'))
   /\ (forall x, x <> A -> x <> B -> summaries_for db' x = summaries_for db x))
  /\ (saved_for db' A = match saved_for db A with
                       | [] => map (retarget_saved A) (saved_for db B)
                       | l => l
                       end
   /\ saved_for db' B = []
   /\ length (saved_for db' A)
      = match (saved_for db A ++ saved_for db B)%list with [] => 0%nat | _ => 1%nat end
   /\ NoDup (map sv_article_id (saved db'))
   /\ (forall x, x <> A -> x <> B -> saved_for db' x = saved_for db x)).
Proof.
  intros N HS HV H. apply merge_into_shape in H as [S V]; [|exact N]. split.
  - exact (keyed_merge_post sr_article_id A B (retarget_summary A) _ _ N (fun _ => eq_refl) HS S).
  - exact (keyed_merge_post sv_article_id A B (retarget_saved A) _ _ N (fun _ => eq_refl) HV V).
Qed.

Lemma merge_into_summaries_saved_witness :
  let db' := snd (ok_or (tt, ex_db4) (merge_into no_fault 1 2 2 0 ex_db4)) in
  summaries_for db' 1 = [mkSummaryRow 7 1 "summary" "model" 0] /\ summaries_for db' 2 = []
  /\ saved_for db' 1 = [mkSavedRow 1 11 "" 0] /\ saved_for db' 2 = [].
Proof.
  intro db'.
  assert (H : merge_into no_fault 1 2 2 0 ex_db4 = Ok (tt, db')) by (vm_compute; reflexivity).
  assert (HS : NoDup (map sr_article_id (summaries ex_db4)))
    by (vm_compute; constructor; [intros [] | constructor]).
  assert (HV : NoDup (map sv_article_id (saved ex_db4)))
    by (vm_compute; constructor; [intros [E|[]]; discriminate | constructor; [intros [] | constructor]]).
  destruct (merge_into_summaries_saved no_fault 1 2 2 0 ex_db4 db' ltac:(discriminate) HS HV H)
    as [(S1 & S2 & _) (V1 & V2 & _)].
  rewrite S1, S2, V1, V2. vm_compute. repeat split; reflexivity.
Defined.

(** *** C7: the identity normaliser *)

(** C7 (counterexample). A malformed URL with a leading space comes back
    trimmed, not unchanged; normalising twice differs from normalising once
    for ["a:b ?x"] (the opaque part keeps a trailing space that the second
    pass trims); a URL ending in a bare [?] keeps it. *)
Lemma baseURL_not_pure :
  NetURL.Parse "%zz" = None /\ baseURL " %zz" = "%zz"
  /\ baseURL "a:b ?x" = "a:b " /\ baseURL (baseURL "a:b ?x") = "a:b"
  /\ baseURL "http://x.test/a?" = "http://x.test/a?".
Proof. vm_compute. repeat split; reflexivity. Qed.

(** C7 (amended). For every string [u]: if [u] is blank ([TrimSpace u] is
    empty) the identity is empty; if the trimmed [u] does not parse, the
    identity is the trimmed [u], and normalising it again leaves it as it
    is; if the trimmed [u] is not blank and parses, the identity is a string
    with no [?] and no [#] byte, followed by at most a bare [?] (Go keeps the
    [?] of an empty query); no query value and no fragment survive. *)
Theorem baseURL_normal_form u :
  (TrimSpace u = "" -> baseURL u = "")
  /\ (NetURL.Parse (TrimSpace u) = None ->
      baseURL u = TrimSpace u /\ baseURL (baseURL u) = baseURL u)
  /\ (TrimSpace u <> "" -> NetURL.Parse (TrimSpace u) <> None ->
      exists s, (baseURL u = s \/ baseURL u = s ++ "?")
                /\ mem "?" s = false /\ mem "#" s = false).
Proof.
  split; [|split].
  - intro H. unfold baseURL. rewrite H. reflexivity.
  - intro P. assert (B : baseURL u = TrimSpace u).
    { unfold baseURL. destruct (String.eqb (TrimSpace u) "") eqn:E.
      - apply String.eqb_eq in E. rewrite E. reflexivity.
      - rewrite P. reflexivity. }
    split; [exact B|]. rewrite B. unfold baseURL. rewrite TrimSpace_idem.
    destruct (String.eqb (TrimSpace u) "") eqn:E.
    + apply String.eqb_eq in E. congruence.
    + rewrite P. reflexivity.
  - intros N P. unfold baseURL.
    destruct (String.eqb (TrimSpace u) "") eqn:E; [apply String.eqb_eq in E; contradiction|].
    destruct (NetURL.Parse (TrimSpace u)) as [parsed|] eqn:Pa; [|contradiction].
    apply Parse_clean in Pa as [PS PO].
    rewrite String_force_query by reflexivity.
    eexists. split.
    + destruct (NetURL.ForceQuery (strip_query_fragment parsed)); [right | left; apply str_app_nil].
      reflexivity.
    + split; apply String_clean; solve [left; reflexivity | right; reflexivity | reflexivity
                                      | apply PS; unfold qf; auto | apply PO; unfold qf; auto].
Qed.

Lemma baseURL_normal_form_witness :
  baseURL "  " = "" /\ baseURL " %zz" = "%zz"
  /\ exists s, (baseURL " https://x.test/a?b#c" = s \/ baseURL " https://x.test/a?b#c" = s ++ "?")
               /\ mem "?" s = false /\ mem "#" s = false.
Proof.
  split; [apply (proj1 (baseURL_normal_form "  ")); vm_compute; reflexivity|].
  split; [apply (proj1 (proj2 (baseURL_normal_form " %zz"))); vm_compute; reflexivity|].
  apply (proj2 (proj2 (baseURL_normal_form " https://x.test/a?b#c"))); vm_compute; discriminate.
Defined.

(* ----------------------------------------------------------------- *)
(** *** C1: one live article per base identity *)

(** C1 (counterexample). Ingesting two articles with no URL (GUIDs ["a"]
    and ["b"]) into a store with no article succeeds and leaves two live
    rows of one base identity, the empty string: [findArticleIDByBaseURL]
    never matches a blank identity. *)
Lemma InsertArticles_blank_identities :
  match InsertArticles no_fault ex_feed1 5000 [ex_in "a" ""; ex_in "b" ""] ex_db0 with
  | (db', Ok added) => length added = 2%nat /\ map ar_base_url (articles db') = [Some ""; Some ""]
  | _ => False
  end.
Proof. vm_compute. split; reflexivity. Qed.

(** C1 (amended). A successful reconciliation ([MergeDuplicateArticles])
    whose row iteration does not fail, on a store whose article ids are
    distinct, leaves no two live articles with the same stored base
    identity, the empty identity included. A successful ingest
    ([InsertArticles]) keeps the live articles' ids positive and their
    non-blank base identities distinct ([ins_inv]); it may add several
    articles of a blank identity. *)
Theorem identities_distinct_after_reconcile_ingest fault :
  (forall db db',
     (forall d, fault "rows.Next" d = false) ->
     NoDup (map ar_id (articles db)) ->
     MergeDuplicateArticles fault db = (db', Ok tt) ->
     NoDup (map ar_base_url (articles db')))
  /\ (forall feed now incoming db db' added,
        ins_inv db ->
        InsertArticles fault feed now incoming db = (db', Ok added) ->
        ins_inv db').
Proof.
  split.
  - intros db db' Hf Hn H. exact (MergeDuplicateArticles_nodup fault db db' Hf Hn H).
  - intros feed now incoming db db' added Hi H. exact (InsertArticles_ins_inv _ _ _ _ _ _ _ H Hi).
Qed.

Lemma identities_distinct_after_reconcile_ingest_witness :
  NoDup (map ar_base_url (articles (fst (MergeDuplicateArticles no_fault ex_ing))))
  /\ ins_inv (fst (InsertArticles no_fault ex_feed1 5000
                    [ex_in "a" "https://x.test/p?a=1"; ex_in "b" "https://x.test/p?a=2"] ex_db0)).
Proof.
  split.
  - apply (proj1 (identities_distinct_after_reconcile_ingest no_fault) ex_ing
             (fst (MergeDuplicateArticles no_fault ex_ing)) (fun _ => eq_refl)).
    + vm_compute. repeat constructor; simpl; intuition discriminate.
    + vm_compute. reflexivity.
  - apply (proj2 (identities_distinct_after_reconcile_ingest no_fault) ex_feed1 5000
             [ex_in "a" "https://x.test/p?a=1"; ex_in "b" "https://x.test/p?a=2"] ex_db0
             _ (ok_or [] (snd (InsertArticles no_fault ex_feed1 5000
                    [ex_in "a" "https://x.test/p?a=1"; ex_in "b" "https://x.test/p?a=2"] ex_db0)))).
    + split; simpl; constructor.
    + vm_compute. reflexivity.
Defined.

(* ----------------------------------------------------------------- *)
(** *** C3: fold conservation in [InsertArticles] *)

(** C3 (counterexample). Two incoming articles of one new identity
    ([https://x.test/p]), with distinct GUIDs, into a store with no article:
    none shares an identity with a live article ([M = 0], [N = 2]), yet the
    ingest creates one row, returns one article and records one
    [article_sources] row: the second folds into the row the first created. *)
Lemma InsertArticles_batch_fold :
  match InsertArticles no_fault ex_feed1 5000
          [ex_in "a" "https://x.test/p?a=1"; ex_in "b" "https://x.test/p?a=2"] ex_db0 with
  | (db', Ok added) =>
      count_live (articles ex_db0) [ex_in "a" "https://x.test/p?a=1"; ex_in "b" "https://x.test/p?a=2"] = 0%nat
      /\ length added = 1%nat /\ length (articles db') = 1%nat /\ length (article_sources db') = 1%nat
  | _ => False
  end.
Proof. vm_compute. repeat split; reflexivity. Qed.

(** C3 (amended). When the incoming articles have distinct GUIDs none of
    which the feed already knows ([known_guids]: its live rows and its
    tombstones), distinct non-blank base identities, and the store's ids are
    positive and distinct, a successful [InsertArticles] returns exactly
    [N - M] articles, where [M] ([count_live]) counts the incoming articles
    whose identity is the stored base identity of a live row before the call;
    the rows it creates are exactly those articles (the article table after
    the call is a permutation of the one before followed by their rows:
    a row takes its place in rowid order, and past [MAX_ROWID] the rowid
    is drawn at random); and
    each of the [N] incoming articles lands in a live row of its identity that
    has an [article_sources] row for the feed, the [N] rows being distinct
    ([lands_in], [NoDup]). *)
Theorem InsertArticles_fold_conservation fault feed now incoming db db' added :
  Forall (fun r => (0 < ar_id r)%Z) (articles db) -> NoDup (map ar_id (articles db)) ->
  NoDup (map incoming_guid incoming) ->
  Forall (fun a => ~ In (incoming_guid a) (known_guids db (Fd.ID feed))) incoming ->
  Forall (fun a => TrimSpace (incoming_identity a) <> "") incoming ->
  NoDup (map incoming_identity incoming) ->
  InsertArticles fault feed now incoming db = (db', Ok added) ->
  length added = (length incoming - count_live (articles db) incoming)%nat
  /\ Permutation (articles db') (articles db ++ map (fun a => article_row_of a (Art.ID a)) added)%list
  /\ exists ts, Forall2 (lands_in db' (Fd.ID feed)) incoming ts /\ NoDup ts.
Proof.
  intros HP HN HG HK HB HI H. apply transact_ok in H. unfold InsertArticles_body in H.
  apply bind_inv in H as (g1 & d1 & E1 & H).
  pose proof (select_guids_articles_keeps _ _ _ _ _ E1) as ->.
  apply bind_inv in H as (g2 & d2 & E2 & H).
  pose proof (select_guids_deleted_keeps _ _ _ _ _ E2) as ->.
  unfold select_guids_articles in E1. apply bind_inv in E1 as (rows1 & e1 & X1 & C1).
  apply exec_inv in X1 as [_ X1]. inversion X1; subst rows1 e1; clear X1.
  apply collect_incl in C1.
  unfold select_guids_deleted in E2. apply bind_inv in E2 as (rows2 & e2 & X2 & C2).
  apply exec_inv in X2 as [_ X2]. inversion X2; subst rows2 e2; clear X2.
  apply collect_incl in C2.
  apply bind_inv in H as (ad & d3 & E3 & H).
  apply bind_inv in H as ([] & d4 & E4 & H). apply touch_feed_keeps in E4 as [A4 S4].
  apply ret_inv in H as [-> ->].
  destruct (insert_loop_fold _ _ _ _ _ _ _ _ _ E3 HP HN HG) as (new & Er & Len & Art & _ & N' & _ & Fa);
    auto.
  { rewrite Forall_forall in HK |- *. intros a Ia Ig. apply (HK a Ia).
    unfold known_guids. apply in_app_iff in Ig as [Ig|Ig]; apply in_app_iff; [left|right]; auto. }
  simpl in Er. subst ad.
  split; [exact Len|]. split; [rewrite A4; exact Art|].
  assert (Fa' : Forall (fun a => exists r, In r (articles d4) /\ ar_base_url r = Some (incoming_identity a)
                             /\ source_exists d4 (ar_id r) (Fd.ID feed) = true) incoming).
  { unfold source_exists. rewrite A4, S4. exact Fa. }
  destruct (Forall_lands_in _ _ _ Fa') as (ts & F). exists ts. split; [exact F|].
  apply (lands_in_nodup d4 (Fd.ID feed) incoming); auto. rewrite A4. exact N'.
Qed.

Lemma InsertArticles_fold_conservation_witness :
  let r := InsertArticles no_fault ex_feed1 5000 ex_batch3 ex_db1 in
  length (ok_or [] (snd r)) = (length ex_batch3 - count_live (articles ex_db1) ex_batch3)%nat
  /\ Permutation (articles (fst r)) (articles ex_db1 ++ map (fun a => article_row_of a (Art.ID a)) (ok_or [] (snd r)))%list
  /\ exists ts, Forall2 (lands_in (fst r) (Fd.ID ex_feed1)) ex_batch3 ts /\ NoDup ts.
Proof.
  intro r. apply (InsertArticles_fold_conservation no_fault ex_feed1 5000 ex_batch3 ex_db1).
  - repeat constructor; vm_compute; reflexivity.
  - vm_compute. repeat constructor; simpl; intuition discriminate.
  - vm_compute. repeat constructor; simpl; intuition discriminate.
  - vm_compute. repeat constructor; simpl; intuition discriminate.
  - constructor; [|constructor; [|constructor]]; vm_compute; intro E; discriminate E.
  - vm_compute. repeat constructor; simpl; intuition discriminate.
  - vm_compute. reflexivity.
Defined.

(* ----------------------------------------------------------------- *)
(** *** C2: reconciling twice *)

(** C2 (counterexample). On [ex_db2] a first reconciliation succeeds and
    keeps both articles, storing the identities [" #a"] and ["#a"] (the URLs
    themselves, [baseURL] giving the empty string); a second one recomputes
    the identity of the first row from its stored [" #a"], trimmed to ["#a"],
    and merges the two: the article and source counts go from 2 to 1. *)
Lemma MergeDuplicateArticles_twice_merges_more :
  let db1 := fst (MergeDuplicateArticles no_fault ex_db2) in
  snd (MergeDuplicateArticles no_fault ex_db2) = Ok tt
  /\ table_counts db1 = (2, 2, 0, 0)%nat
  /\ snd (MergeDuplicateArticles no_fault db1) = Ok tt
  /\ table_counts (fst (MergeDuplicateArticles no_fault db1)) = (1, 1, 0, 0)%nat.
Proof. vm_compute. repeat split; reflexivity. Qed.

(** C2 (amended). When the first reconciliation succeeds, its row
    iteration does not fail, the article ids are distinct and every stored
    URL is free of leading and trailing white space, running
    [MergeDuplicateArticles] a second time leaves the article, source,
    summary and bookmark counts ([table_counts]) as the first run left them,
    whether the second run succeeds or fails. *)
Theorem MergeDuplicateArticles_counts_idempotent fault db db1 :
  (forall d, fault "rows.Next" d = false) ->
  NoDup (map ar_id (articles db)) ->
  Forall (fun r => TrimSpace (ar_url r) = ar_url r) (articles db) ->
  MergeDuplicateArticles fault db = (db1, Ok tt) ->
  table_counts (fst (MergeDuplicateArticles fault db1)) = table_counts db1.
Proof.
  intros NF HN HT H. pose proof H as H'.
  apply transact_ok in H. unfold MergeDuplicateArticles_body in H.
  apply bind_inv in H as (rows & d0 & E0 & H). apply exec_inv in E0 as [_ E0].
  inversion E0; subst rows d0; clear E0.
  assert (HS : Forall (settled db1) (articles db1)).
  { apply (merge_loop_fixes fault NF (articles db) [] [] db db1); [|exact H].
    split; [reflexivity|]. split; [exact HN|]. split; [exact HT | constructor]. }
  assert (HB : NoDup (map ar_base_url (articles db1)))
    by exact (MergeDuplicateArticles_nodup fault db db1 NF HN H').
  unfold MergeDuplicateArticles, transact.
  destruct (fault "BEGIN" db1); [reflexivity|].
  unfold MergeDuplicateArticles_body, bind at 1, exec at 1.
  destruct (fault _ db1); [reflexivity|].
  destruct (merge_loop fault [] (articles db1) db1) as [[[] d2]|e] eqn:E2; [|reflexivity].
  destruct (fault "COMMIT" d2); [reflexivity|]. simpl.
  exact (merge_loop_stable fault (articles db1) [] db1 d2 HS HB (fun _ _ _ _ => eq_refl) E2).
Qed.

Lemma MergeDuplicateArticles_counts_idempotent_witness :
  table_counts (fst (MergeDuplicateArticles no_fault (fst (MergeDuplicateArticles no_fault ex_db_dup))))
  = table_counts (fst (MergeDuplicateArticles no_fault ex_db_dup)).
Proof.
  apply (MergeDuplicateArticles_counts_idempotent no_fault ex_db_dup
           (fst (MergeDuplicateArticles no_fault ex_db_dup)) (fun _ => eq_refl)).
  - vm_compute. repeat constructor; simpl; intuition discriminate.
  - constructor; [|constructor; [|constructor]]; vm_compute; reflexivity.
  - vm_compute. reflexivity.
Defined.

(* ================================================================= *)
(** ** Further properties of the store *)

(* ----------------------------------------------------------------- *)
(** *** Importing a state *)

Lemma insert_by_key_nonnil {R} key (r : R) l : insert_by_key key r l <> [].
Proof. destruct l; simpl; [discriminate|]. destruct (Z.ltb _ _); discriminate. Qed.

Lemma import_steps_shape fault tm :
  (forall x db db', import_feed fault x db = Ok (tt, db') -> imported_shape db -> imported_shape db')
  /\ (forall x db db', import_article fault x db = Ok (tt, db') -> imported_shape db -> imported_shape db')
  /\ (forall x db db', import_summary fault x db = Ok (tt, db') -> imported_shape db -> imported_shape db')
  /\ (forall x db db', import_saved fault tm x db = Ok (tt, db') -> imported_shape db -> imported_shape db')
  /\ (forall x db db', import_deleted fault x db = Ok (tt, db') -> imported_shape db -> imported_shape db').
Proof.
  split; [|split; [|split; [|split]]]; intros x db db' H [H1 H2].
  - unfold import_feed in H. inv_exec H.
    destruct (existsb _ _); [discriminate|]. destruct (existsb _ _); [discriminate|].
    inversion H; subst. split; assumption.
  - unfold import_article in H. inv_exec H.
    destruct (article_exists db _); [discriminate|]. destruct (existsb _ _); [discriminate|].
    inversion H; subst. split; [apply insert_by_key_Forall; auto | exact H2].
  - unfold import_summary in H. inv_exec H.
    destruct (existsb _ _); [discriminate|]. destruct (existsb _ _); [discriminate|].
    destruct (negb _); [discriminate|]. inversion H; subst. split; assumption.
  - unfold import_saved in H. inv_bind H. inv_exec Hm. inversion Hm; subst. inv_exec Hk.
    destruct (existsb _ _); [discriminate|]. destruct (negb _); [discriminate|].
    inversion Hk; subst. split; assumption.
  - unfold import_deleted in H. inv_exec H. unfold insert_deleted_auto in H.
    destruct (new_rowid _ _); inversion H; subst. split; [exact H1|]. simpl.
    apply insert_by_key_Forall; [reflexivity | exact H2].
Qed.

Lemma import_steps_nonempty fault tm :
  (forall x db db', import_article fault x db = Ok (tt, db') -> articles db' <> [])
  /\ (forall x db db', import_summary fault x db = Ok (tt, db') -> articles db' = articles db)
  /\ (forall x db db', import_saved fault tm x db = Ok (tt, db') -> articles db' = articles db)
  /\ (forall x db db', import_deleted fault x db = Ok (tt, db') -> articles db' = articles db).
Proof.
  split; [|split; [|split]]; intros x db db' H.
  - unfold import_article in H. inv_exec H.
    destruct (article_exists db _); [discriminate|]. destruct (existsb _ _); [discriminate|].
    inversion H; subst. apply insert_by_key_nonnil.
  - unfold import_summary in H. inv_exec H.
    destruct (existsb _ _); [discriminate|]. destruct (existsb _ _); [discriminate|].
    destruct (negb _); [discriminate|]. inversion H; subst. reflexivity.
  - unfold import_saved in H. inv_bind H. inv_exec Hm. inversion Hm; subst. inv_exec Hk.
    destruct (existsb _ _); [discriminate|]. destruct (negb _); [discriminate|].
    inversion Hk; subst. reflexivity.
  - unfold import_deleted in H. inv_exec H. unfold insert_deleted_auto in H.
    destruct (new_rowid _ _); inversion H; subst. reflexivity.
Qed.

Lemma ImportState_shape fault tm st db db' :
  ImportState fault tm st db = (db', Ok tt) ->
  imported_shape db' /\ (St.Articles st <> [] -> articles db' <> []).
Proof.
  unfold ImportState. destruct (negb _); [intro H; inversion H|].
  intro H. apply transact_ok in H. unfold ImportState_body in H.
  do 5 (apply bind_inv in H as ([] & ? & E1 & H); apply exec_inv in E1 as [_ E1];
         inversion E1; subst; clear E1).
  destruct (import_steps_shape fault tm) as (Sf & Sa & Ss & Sv & Sd).
  destruct (import_steps_nonempty fault tm) as (Na & Ns & Nv & Nd).
  apply bind_inv in H as ([] & d1 & E1 & H).
  apply bind_inv in H as ([] & d2 & E2 & H).
  apply bind_inv in H as ([] & d3 & E3 & H).
  apply bind_inv in H as ([] & d4 & E4 & H).
  split.
  - eapply (for_each_preserve _ _ Sd); [exact H|].
    eapply (for_each_preserve _ _ Sv); [exact E4|].
    eapply (for_each_preserve _ _ Ss); [exact E3|].
    eapply (for_each_preserve _ _ Sa); [exact E2|].
    eapply (for_each_preserve _ _ Sf); [exact E1|].
    split; simpl; constructor.
  - intro NE. destruct (St.Articles st) as [|x xs]; [congruence|].
    apply for_each_cons_inv in E2 as (d1' & E2a & E2b).
    pose proof (Na _ _ _ E2a) as P.
    assert (P2 : articles d2 <> []).
    { revert P. eapply (for_each_preserve (fun d => articles d <> []) _ _ _ _ _ E2b).
      Unshelve. intros y d d' Hy Hd. apply (Na _ _ _ Hy). }
    assert (P3 : articles d3 <> []).
    { revert P2. apply (for_each_preserve (fun d => articles d <> []) _
        (fun y d d' Hy Hd => eq_ind_r (fun l => l <> []) Hd (Ns _ _ _ Hy)) _ _ _ E3). }
    assert (P4 : articles d4 <> []).
    { revert P3. apply (for_each_preserve (fun d => articles d <> []) _
        (fun y d d' Hy Hd => eq_ind_r (fun l => l <> []) Hd (Nv _ _ _ Hy)) _ _ _ E4). }
    revert P4. apply (for_each_preserve (fun d => articles d <> []) _
        (fun y d d' Hy Hd => eq_ind_r (fun l => l <> []) Hd (Nd _ _ _ Hy)) _ _ _ H).
Qed.

Lemma scan_articles_none l : Forall (fun r => ar_base_url r = None) l -> scan_articles l = [].
Proof. intro H. destruct H as [|r l Hr _]; [reflexivity|]. simpl. unfold scanArticle. rewrite Hr. reflexivity. Qed.

Lemma query_rows_incl {R} fault sql (table : DB -> list R) db :
  exists k, query_rows fault sql table db = firstn k (table db).
Proof.
  unfold query_rows, bind, exec. destruct (fault sql db); [exists 0%nat; reflexivity|].
  induction (table db) as [|r l IH]; simpl; [exists 0%nat; reflexivity|].
  unfold bind at 1, rows_next. destruct (fault "rows.Next" db) eqn:F; simpl.
  - exists 0%nat. reflexivity.
  - destruct IH as [k IH]. unfold bind. destruct (collect fault l db) as [[rs d]|e] eqn:C.
    + exists (S k). simpl. unfold ret. simpl. rewrite <- IH. reflexivity.
    + exists 0%nat. reflexivity.
Qed.

Lemma Forall_firstn {A} (P : A -> Prop) k l : Forall P l -> Forall P (firstn k l).
Proof. intro H. revert k. induction H; intros [|k]; simpl; constructor; auto. Qed.

Lemma max_deleted_In l r : max_deleted l = Some r -> In r l.
Proof.
  induction l as [|x l IH]; simpl; [discriminate|].
  destruct (max_deleted l) as [m|]; [|intro H; inversion H; auto].
  destruct (Z.ltb _ _); intro H; inversion H; subst; auto.
Qed.

(** X1. A successful [ImportState] leaves every article row and every deleted row without a base identity, so [Articles] returns nothing, [DeleteArticle] reports a missing article for every id, [UndeleteLast] reports no deleted article, and [MergeDuplicateArticles] fails when articles were imported. *)
Theorem ImportState_leaves_store_unreadable fault tm st db db' :
  ImportState fault tm st db = (db', Ok tt) ->
  Articles fault db' = []
  /\ (forall now id, DeleteArticle fault now id db' = (db', Err "article not found"))
  /\ UndeleteLast fault db' = (db', Err "no deleted article")
  /\ (St.Articles st <> [] -> fault "rows.Next" db' = false ->
      exists e, MergeDuplicateArticles fault db' = (db', Err e)).
Proof.
  intro H. apply ImportState_shape in H as [[Ha Hd] Hne].
  split; [|split; [|split]].
  - unfold Articles. destruct (query_rows_incl fault
      "SELECT id, feed_id, guid, title, url, base_url, author, content, content_text, published_at, fetched_at, is_read, is_starred, feed_title FROM articles ORDER BY id"
      articles db') as [k ->].
    apply scan_articles_none, Forall_firstn, Ha.
  - intros now id. unfold DeleteArticle, autocommit, select_article, exec.
    destruct (fault _ db'); [reflexivity|].
    destruct (find _ _) as [r|] eqn:F; [|reflexivity].
    apply find_some in F as [F _]. rewrite Forall_forall in Ha.
    unfold scanArticle. rewrite (Ha r F). reflexivity.
  - unfold UndeleteLast, autocommit, select_last_deleted, exec.
    destruct (fault _ db'); [reflexivity|].
    destruct (max_deleted _) as [r|] eqn:F; [|reflexivity].
    apply max_deleted_In in F. rewrite Forall_forall in Hd.
    unfold scanDeleted. rewrite (Hd r F). reflexivity.
  - intros NE F. specialize (Hne NE).
    unfold MergeDuplicateArticles, transact.
    destruct (fault "BEGIN" db'); [eexists; reflexivity|].
    unfold MergeDuplicateArticles_body, bind at 1, exec.
    destruct (fault "SELECT id, feed_id, url, base_url, published_at FROM articles ORDER BY id" db');
      [eexists; reflexivity|].
    destruct (articles db') as [|r rs] eqn:E; [congruence|].
    inversion Ha as [|r' rs' Hr _ Eq]; subst.
    simpl. unfold bind at 1, rows_next. rewrite F. simpl. rewrite Hr.
    eexists; reflexivity.
Qed.

Lemma ImportState_leaves_store_unreadable_witness :
  let db' := fst (ImportState no_fault (fun _ => "") ex_state ex_db1) in
  Articles no_fault db' = [] /\ UndeleteLast no_fault db' = (db', Err "no deleted article")
  /\ length (articles db') = 1%nat.
Proof.
  intro db'.
  assert (H : ImportState no_fault (fun _ => "") ex_state ex_db1 = (db', Ok tt))
    by (vm_compute; reflexivity).
  destruct (ImportState_leaves_store_unreadable no_fault (fun _ => "") ex_state ex_db1 db' H)
    as (H1 & _ & H3 & _).
  split; [exact H1 | split; [exact H3 | vm_compute; reflexivity]].
Defined.

(* ----------------------------------------------------------------- *)
(** *** Deleting a feed *)

Lemma filter_key_filter {R} (key : R -> Z) (g : Z -> bool) x l :
  filter (fun s => Z.eqb (key s) x) (filter (fun s => negb (g (key s))) l)
  = if g x then [] else filter (fun s => Z.eqb (key s) x) l.
Proof.
  induction l as [|s l IH]; simpl; [destruct (g x); reflexivity|].
  destruct (Z.eqb_spec (key s) x) as [E|N].
  - subst x. destruct (g (key s)); simpl; [exact IH|].
    rewrite Z.eqb_refl, IH. reflexivity.
  - destruct (g (key s)); simpl; [exact IH|]. destruct (Z.eqb_spec (key s) x); [congruence|exact IH].
Qed.

Lemma removed_article_true p db x :
  removed_article p db x = true -> exists a, In a (articles db) /\ p a = true /\ ar_id a = x.
Proof.
  unfold removed_article. intro H. apply existsb_exists in H as (a & I & E).
  apply andb_true_iff in E as [E1 E2]. apply Z.eqb_eq in E2. eauto.
Qed.

Lemma removed_article_in p db a :
  In a (articles db) -> p a = true -> removed_article p db (ar_id a) = true.
Proof.
  intros I P. unfold removed_article. apply existsb_exists. exists a. rewrite P, Z.eqb_refl. auto.
Qed.

(** The article rows a [DELETE ... WHERE p] keeps are not removed ones,
    rowids being unique. *)
Lemma kept_not_removed p db x :
  NoDup (map ar_id (articles db)) ->
  existsb (fun r => Z.eqb (ar_id r) x) (filter (fun r => negb (p r)) (articles db)) = true ->
  removed_article p db x = false.
Proof.
  intros N H. apply existsb_exists in H as (a & I & E). apply Z.eqb_eq in E.
  apply filter_In in I as [I Pa].
  destruct (removed_article p db x) eqn:R; [|reflexivity].
  apply removed_article_true in R as (b & Ib & Pb & Eb).
  assert (a = b) by (apply (NoDup_map_eq ar_id (articles db)); auto; congruence).
  subst b. rewrite Pb in Pa. discriminate.
Qed.

(** X2. [DeleteFeed] leaves the store unchanged on error; on success it removes the feed, its articles, their summaries, bookmarks and source rows, and keeps every other article with its summaries and bookmarks. *)
Theorem DeleteFeed_effect fault id db db' r :
  DeleteFeed fault id db = (db', r) ->
  (forall e, r = Err e -> db' = db)
  /\ (r = Ok tt -> NoDup (map ar_id (articles db)) ->
      feed_exists db' id = false
      /\ articles db' = filter (fun a => negb (Z.eqb (ar_feed_id a) id)) (articles db)
      /\ deleted db' = deleted db
      /\ Forall (fun s => src_feed_id s <> id) (article_sources db')
      /\ (forall a, In a (articles db) -> ar_feed_id a = id ->
            summaries_for db' (ar_id a) = [] /\ saved_for db' (ar_id a) = []
            /\ filter (fun s => Z.eqb (src_article_id s) (ar_id a)) (article_sources db') = [])
      /\ (forall x, article_exists db' x = true ->
            summaries_for db' x = summaries_for db x /\ saved_for db' x = saved_for db x)).
Proof.
  intro H. split.
  - intros e ->. exact (transact_err _ _ _ _ _ H).
  - intros -> N. apply transact_ok in H. unfold DeleteFeed_body in H.
    inv_bind H. inv_exec Hm. inversion Hm; subst a db0; clear Hm.
    inv_exec Hk. inversion Hk; subst db'; clear Hk.
    set (p := fun r : article_row => Z.eqb (ar_feed_id r) id).
    set (db1 := delete_feed_cascade id db).
    split; [|split; [|split; [|split; [|split]]]].
    + unfold feed_exists. simpl. apply not_true_is_false. intro E.
      apply existsb_exists in E as (f & I & E). apply filter_In in I as [_ I].
      rewrite E in I. discriminate.
    + reflexivity.
    + reflexivity.
    + simpl. apply Forall_forall. intros s I. apply filter_In in I as [I _].
      apply filter_In in I as [_ I]. apply negb_true_iff, Z.eqb_neq in I. exact I.
    + intros a I Ea. assert (R : removed_article p db1 (ar_id a) = true).
      { apply removed_article_in; [exact I|]. unfold p. rewrite Ea. apply Z.eqb_refl. }
      unfold summaries_for, saved_for. simpl.
      rewrite !(filter_key_filter _ (removed_article p db1)), R. auto.
    + intros x Ex. assert (R : removed_article p db1 x = false).
      { apply kept_not_removed; [exact N|exact Ex]. }
      unfold summaries_for, saved_for. simpl.
      rewrite (filter_key_filter sr_article_id (removed_article p db1)),
              (filter_key_filter sv_article_id (removed_article p db1)), R. auto.
Qed.

Lemma DeleteFeed_effect_witness :
  let db' := fst (DeleteFeed no_fault 1 ex_db_feeds) in
  articles db' = [ex_row 2 2 "g2" "https://y.test/q" (Some "https://y.test/q")]
  /\ summaries_for db' 1 = [] /\ saved_for db' 2 = [mkSavedRow 2 11 "" 0]
  /\ filter (fun s => Z.eqb (src_article_id s) 1) (article_sources db') = [].
Proof.
  intro db'.
  assert (H : DeleteFeed no_fault 1 ex_db_feeds = (db', Ok tt)) by (vm_compute; reflexivity).
  assert (N : NoDup (map ar_id (articles ex_db_feeds)))
    by (vm_compute; constructor; [intros [E|[]]; discriminate | constructor; [intros [] | constructor]]).
  destruct (DeleteFeed_effect no_fault 1 ex_db_feeds db' (Ok tt) H) as [_ H2].
  destruct (H2 eq_refl N) as (_ & A & _ & _ & Rm & Kp).
  destruct (Rm (ex_row 1 1 "g1" "https://x.test/p" (Some "https://x.test/p")) (or_introl eq_refl) eq_refl)
    as (S1 & _ & Src).
  destruct (Kp 2 ltac:(unfold article_exists; rewrite A; reflexivity)) as (_ & V2).
  split; [rewrite A; reflexivity|]. split; [exact S1|]. split; [rewrite V2; reflexivity|exact Src].
Defined.

Ltac case_fault s :=
  match goal with |- context [?flt s ?d] => destruct (flt s d) eqn:? end.

(* ----------------------------------------------------------------- *)
(** *** Inserting and updating feeds *)

Lemma with_feeds_same db : with_feeds db (feeds db) = db.
Proof. destruct db; reflexivity. Qed.

Lemma existsb_url_false u l :
  existsb (fun f => String.eqb (fr_url f) u) l = false -> ~ In u (map fr_url l).
Proof.
  intros H I. apply in_map_iff in I as (f & E & I).
  assert (T : existsb (fun f => String.eqb (fr_url f) u) l = true)
    by (apply existsb_exists; exists f; rewrite E, String.eqb_refl; auto).
  congruence.
Qed.

Lemma find_url_none u l :
  find (fun f => String.eqb (fr_url f) u) l = None -> existsb (fun f => String.eqb (fr_url f) u) l = false.
Proof. apply find_none_existsb. Qed.

Lemma find_url_some u l :
  existsb (fun f => String.eqb (fr_url f) u) l = true -> exists r, find (fun f => String.eqb (fr_url f) u) l = Some r.
Proof.
  induction l as [|f l IH]; simpl; [discriminate|].
  destruct (String.eqb (fr_url f) u); simpl; eauto.
Qed.

Lemma InsertFeed_existing_url fault now feed db :
  existsb (fun f => String.eqb (fr_url f) (Fd.URL feed)) (feeds db) = true ->
  exists e, InsertFeed fault now feed db = (db, Err e)
            /\ (fault "SELECT id FROM feeds WHERE url = ?" db = false -> e = "feed already exists").
Proof.
  intro H. apply find_url_some in H as (r & Hr).
  unfold InsertFeed, autocommit, exec.
  destruct (fault "SELECT id FROM feeds WHERE url = ?" db) eqn:F.
  - eexists. split; [reflexivity|discriminate].
  - rewrite Hr. eexists. split; reflexivity.
Qed.

(** X3. [InsertFeed] of a URL already stored changes nothing and reports "feed already exists". *)
Theorem InsertFeed_duplicate_url fault now feed db :
  existsb (fun f => String.eqb (fr_url f) (Fd.URL feed)) (feeds db) = true ->
  exists e, InsertFeed fault now feed db = (db, Err e)
            /\ (fault "SELECT id FROM feeds WHERE url = ?" db = false -> e = "feed already exists").
Proof. exact (InsertFeed_existing_url fault now feed db). Qed.

Lemma InsertFeed_ok_inv fault now feed0 db db' f :
  InsertFeed fault now feed0 db = (db', Ok f) ->
  existsb (fun x => String.eqb (fr_url x) (Fd.URL feed0)) (feeds db) = false
  /\ exists id, new_rowid (rowid_draw db) (map fr_id (feeds db)) = Some id
  /\ f = set_feed_ID (feed_defaults now feed0) id
  /\ db' = with_feeds db (insert_by_key fr_id (feed_row_of (feed_defaults now feed0) id) (feeds db)).
Proof.
  unfold InsertFeed, autocommit, exec at 1.
  destruct (fault "SELECT id FROM feeds WHERE url = ?" db); [intro H; inversion H|].
  destruct (find _ (feeds db)) as [r|] eqn:Fd0; [intro H; inversion H|].
  apply find_url_none in Fd0.
  unfold exec. destruct (fault "INSERT INTO feeds (title, url, site_url, description, last_fetched, created_at, updated_at) VALUES (?, ?, ?, ?, ?, ?, ?)" db);
    [intro H; inversion H|].
  unfold insert_feed_auto. destruct (new_rowid _ _) as [id|] eqn:N; [|intro H; inversion H].
  cbn [Fd.URL feed_defaults]. rewrite Fd0.
  unfold lastInsertID, exec. case_fault "lastInsertID"; intro H; inversion H; subst. eauto.
Qed.

(** X4. A successful [InsertFeed] inserts one row, in rowid order, under an id no row had (above every existing id, the row going last, while those ids are below [MAX_ROWID]); it keeps the URL, fills in the creation and update times, changes no other table and keeps URLs unique. *)
Theorem InsertFeed_ok fault now feed0 db db' f :
  InsertFeed fault now feed0 db = (db', Ok f) ->
  feeds db' = insert_by_key fr_id (feed_row_of f (Fd.ID f)) (feeds db)
  /\ with_feeds db' (feeds db) = db
  /\ ~ In (Fd.ID f) (map fr_id (feeds db))
  /\ (Forall (fun x => fr_id x < MAX_ROWID) (feeds db) ->
      Forall (fun x => fr_id x < Fd.ID f) (feeds db)
      /\ feeds db' = (feeds db ++ [feed_row_of f (Fd.ID f)])%list)
  /\ Fd.URL f = Fd.URL feed0
  /\ Fd.CreatedAt f = (if IsZero (Fd.CreatedAt feed0) then now else Fd.CreatedAt feed0)
  /\ Fd.UpdatedAt f = (if IsZero (Fd.UpdatedAt feed0) then Fd.CreatedAt f else Fd.UpdatedAt feed0)
  /\ (NoDup (map fr_url (feeds db)) -> NoDup (map fr_url (feeds db'))).
Proof.
  intro H. apply InsertFeed_ok_inv in H as (U & id & N & -> & ->).
  split; [reflexivity|]. split; [destruct db; reflexivity|].
  split; [exact (new_rowid_fresh _ _ _ N)|].
  split.
  { intro M. rewrite (new_rowid_seq _ _ (proj2 (Forall_map _ _ _) M)) in N.
    injection N as <-.
    pose proof (proj1 (Forall_map fr_id (fun x => x < next_rowid (map fr_id (feeds db))) (feeds db))
                  (next_rowid_gt _)) as G.
    split; [exact G|]. apply insert_by_key_last. exact G. }
  split; [reflexivity|]. split; [reflexivity|]. split; [reflexivity|].
  intro Nd. simpl.
  refine (Permutation_NoDup (Permutation_map _ (Permutation_sym (insert_by_key_perm _ _ _))) _).
  simpl. constructor; [|exact Nd].
  exact (existsb_url_false _ _ U).
Qed.

(** X5. When reading the new id fails, [InsertFeed] reports the error but the row stays inserted, and inserting the same feed again reports "feed already exists". *)
Theorem InsertFeed_lastInsertID_error fault now now' feed db id :
  existsb (fun f => String.eqb (fr_url f) (Fd.URL feed)) (feeds db) = false ->
  fault "SELECT id FROM feeds WHERE url = ?" db = false ->
  fault "INSERT INTO feeds (title, url, site_url, description, last_fetched, created_at, updated_at) VALUES (?, ?, ?, ?, ?, ?, ?)" db = false ->
  new_rowid (rowid_draw db) (map fr_id (feeds db)) = Some id ->
  let db' := with_feeds db (insert_by_key fr_id (feed_row_of (feed_defaults now feed) id) (feeds db)) in
  fault "lastInsertID" db' = true ->
  InsertFeed fault now feed db = (db', Err "lastInsertID")
  /\ (fault "SELECT id FROM feeds WHERE url = ?" db' = false ->
      InsertFeed fault now' feed db' = (db', Err "feed already exists")).
Proof.
  intros U F1 F2 N db' F3. split.
  - unfold InsertFeed, autocommit, lastInsertID, exec. rewrite F1.
    destruct (find _ (feeds db)) as [r|] eqn:Fd0.
    + apply find_some_existsb in Fd0. congruence.
    + rewrite F2. unfold insert_feed_auto. rewrite N. cbn [Fd.URL feed_defaults]. rewrite U.
      fold db'. rewrite F3. reflexivity.
  - intro F4. destruct (InsertFeed_existing_url fault now' feed db') as (e & E & Ee).
    + unfold db'. simpl. apply existsb_exists. exists (feed_row_of (feed_defaults now feed) id).
      split; [apply insert_by_key_In; left; reflexivity | apply String.eqb_refl].
    + rewrite E, (Ee F4). reflexivity.
Qed.

Lemma update_feed_urls_nodup (feed : Feed) l :
  NoDup (map fr_id l) -> NoDup (map fr_url l) ->
  existsb (fun f => negb (Z.eqb (fr_id f) (Fd.ID feed)) && String.eqb (fr_url f) (Fd.URL feed)) l = false ->
  NoDup (map fr_url (map (fun f => if Z.eqb (fr_id f) (Fd.ID feed) then feed_row_of feed (Fd.ID feed) else f) l)).
Proof.
  induction l as [|a l IH]; simpl; [constructor|].
  intros NI NU E. apply NoDup_cons_iff in NI as [NIa NI]. apply NoDup_cons_iff in NU as [NUa NU].
  apply orb_false_iff in E as [Ea E].
  constructor; [|exact (IH NI NU E)].
  rewrite map_map. intro I. apply in_map_iff in I as (b & Eb & Ib).
  destruct (Z.eqb_spec (fr_id a) (Fd.ID feed)) as [A|A];
  destruct (Z.eqb_spec (fr_id b) (Fd.ID feed)) as [B|B].
  - apply NIa. rewrite A, <- B. apply in_map. exact Ib.
  - simpl in Eb. assert (T : existsb (fun f => negb (Z.eqb (fr_id f) (Fd.ID feed)) && String.eqb (fr_url f) (Fd.URL feed)) l = true).
    { apply existsb_exists. exists b. split; [exact Ib|].
      apply Z.eqb_neq in B. rewrite B, Eb, String.eqb_refl. reflexivity. }
    congruence.
  - simpl in Ea, Eb. rewrite <- Eb, String.eqb_refl in Ea. discriminate.
  - apply NUa. rewrite <- Eb. apply in_map. exact Ib.
Qed.

(** X6. [UpdateFeed] of an unknown id changes nothing and reports "feed not found". *)
Theorem UpdateFeed_missing fault now feed db :
  feed_exists db (Fd.ID feed) = false ->
  exists e, UpdateFeed fault now feed db = (db, Err e)
    /\ (fault "UPDATE feeds SET title = ?, url = ?, site_url = ?, description = ?, last_fetched = ?, created_at = ?, updated_at = ? WHERE id = ?" db = false ->
        fault "rowsAffected" db = false -> e = "feed not found").
Proof.
  intro H. unfold feed_exists in H. rewrite (keyed_existsb fr_id) in H.
  destruct (filter (fun f => Z.eqb (fr_id f) (Fd.ID feed)) (feeds db)) eqn:Hit; [|discriminate].
  unfold UpdateFeed, autocommit, rowsAffected, exec, update_feed_stmt. cbn [Fd.ID Fd.URL].
  destruct (fault "UPDATE feeds SET title = ?, url = ?, site_url = ?, description = ?, last_fetched = ?, created_at = ?, updated_at = ? WHERE id = ?" db).
  - eexists. split; [reflexivity|discriminate].
  - rewrite Hit. simpl. rewrite (keyed_map_id fr_id _ _ _ Hit), with_feeds_same.
    destruct (fault "rowsAffected" db); eexists; (split; [reflexivity|]); [discriminate|auto].
Qed.

Lemma replace_key_other {R} (key : R -> Z) (v : R) id x l :
  key v = id -> x <> id ->
  filter (fun f => Z.eqb (key f) x) (map (fun f => if Z.eqb (key f) id then v else f) l)
  = filter (fun f => Z.eqb (key f) x) l.
Proof.
  intros Hv Nx. induction l as [|a l IH]; [reflexivity|]. simpl.
  destruct (Z.eqb_spec (key a) id) as [E|E]; simpl.
  - rewrite Hv. destruct (Z.eqb_spec id x) as [|_]; [congruence|].
    destruct (Z.eqb_spec (key a) x) as [|_]; [congruence|]. exact IH.
  - destruct (Z.eqb (key a) x); rewrite IH; reflexivity.
Qed.

(** X7. A successful [UpdateFeed] rewrites exactly the row of the feed id, with the update time set to now, and changes no other row or table; URLs stay unique. *)
Theorem UpdateFeed_ok fault now feed db db' :
  UpdateFeed fault now feed db = (db', Ok tt) -> NoDup (map fr_id (feeds db)) ->
  filter (fun f => Z.eqb (fr_id f) (Fd.ID feed)) (feeds db')
    = [mkFeedRow (Fd.ID feed) (Fd.Title feed) (Fd.URL feed) (Fd.SiteURL feed) (Fd.Description feed)
         (timeToUnix (Fd.LastFetched feed)) (timeToUnix (Fd.CreatedAt feed)) (timeToUnix now)]
  /\ (forall x, x <> Fd.ID feed ->
        filter (fun f => Z.eqb (fr_id f) x) (feeds db') = filter (fun f => Z.eqb (fr_id f) x) (feeds db))
  /\ map fr_id (feeds db') = map fr_id (feeds db)
  /\ with_feeds db' (feeds db) = db
  /\ (NoDup (map fr_url (feeds db)) -> NoDup (map fr_url (feeds db'))).
Proof.
  unfold UpdateFeed, autocommit, exec at 1, update_feed_stmt. cbn [Fd.ID Fd.URL].
  set (feed' := Fd.mkFeed (Fd.ID feed) (Fd.Title feed) (Fd.URL feed) (Fd.SiteURL feed)
                  (Fd.Description feed) (Fd.LastFetched feed) (Fd.CreatedAt feed) now).
  set (hit := filter (fun f => Z.eqb (fr_id f) (Fd.ID feed)) (feeds db)).
  destruct (fault "UPDATE feeds SET title = ?, url = ?, site_url = ?, description = ?, last_fetched = ?, created_at = ?, updated_at = ? WHERE id = ?" db);
    [intro H; inversion H|].
  destruct (negb (Nat.eqb (length hit) 0) && _) eqn:U; [intro H; inversion H|].
  unfold rowsAffected, exec. case_fault "rowsAffected"; [intro H; inversion H|].
  destruct (Z.eqb (Z.of_nat (length hit)) 0) eqn:Z0; intro H; inversion H; subst; clear H.
  intro N.
  assert (L : length hit = 1%nat).
  { pose proof (keyed_nodup_le fr_id (Fd.ID feed) (feeds db) N). fold hit in H.
    destruct (length hit) as [|[|k]]; [discriminate|reflexivity|lia]. }
  rewrite L in U. simpl in U.
  split; [|split; [|split; [|split]]]; simpl.
  - assert (M : forall l, filter (fun f => Z.eqb (fr_id f) (Fd.ID feed))
                 (map (fun f => if Z.eqb (fr_id f) (Fd.ID feed) then feed_row_of feed' (Fd.ID feed) else f) l)
               = map (fun _ => feed_row_of feed' (Fd.ID feed)) (filter (fun f => Z.eqb (fr_id f) (Fd.ID feed)) l)).
    { induction l as [|a l IH]; [reflexivity|]. simpl.
      destruct (Z.eqb (fr_id a) (Fd.ID feed)) eqn:E; simpl; rewrite ?Z.eqb_refl, ?E, IH; reflexivity. }
    rewrite M. fold hit. destruct hit as [|h [|h' t]]; [discriminate| |discriminate]. reflexivity.
  - intros x Nx. apply replace_key_other; [reflexivity|exact Nx].
  - rewrite map_map. apply map_ext. intro a. destruct (Z.eqb_spec (fr_id a) (Fd.ID feed)); auto.
  - destruct db; reflexivity.
  - intro NU. exact (update_feed_urls_nodup feed' _ N NU U).
Qed.

Lemma InsertFeed_duplicate_url_witness :
  exists e, InsertFeed no_fault 100 ex_feed_dup ex_db1 = (ex_db1, Err e)
            /\ (no_fault "SELECT id FROM feeds WHERE url = ?" ex_db1 = false -> e = "feed already exists").
Proof. apply InsertFeed_duplicate_url. vm_compute. reflexivity. Defined.

Lemma InsertFeed_ok_witness :
  let p := InsertFeed no_fault 100 ex_feed_new ex_db1 in
  let f := ok_or ex_feed_new (snd p) in
  Fd.ID f = 3 /\ feeds (fst p) = insert_by_key fr_id (feed_row_of f (Fd.ID f)) (feeds ex_db1).
Proof.
  intros p f. split; [vm_compute; reflexivity|].
  refine (proj1 (InsertFeed_ok no_fault 100 ex_feed_new ex_db1 (fst p) f _)).
  vm_compute. reflexivity.
Defined.

Lemma InsertFeed_lastInsertID_error_witness :
  let db' := with_feeds ex_db1 (insert_by_key fr_id (feed_row_of (feed_defaults 100 ex_feed_new) 3)
                                  (feeds ex_db1)) in
  InsertFeed (fault_at "lastInsertID") 100 ex_feed_new ex_db1 = (db', Err "lastInsertID")
  /\ InsertFeed (fault_at "lastInsertID") 200 ex_feed_new db' = (db', Err "feed already exists").
Proof.
  intro db'.
  destruct (InsertFeed_lastInsertID_error (fault_at "lastInsertID") 100 200 ex_feed_new ex_db1 3)
    as [H1 H2]; try (vm_compute; reflexivity).
  split; [exact H1|]. apply H2. vm_compute. reflexivity.
Defined.

Lemma UpdateFeed_missing_witness :
  exists e, UpdateFeed no_fault 100 (Fd.mkFeed 9 "" "https://z.test" "" "" 0 0 0) ex_db1 = (ex_db1, Err e)
    /\ (no_fault "UPDATE feeds SET title = ?, url = ?, site_url = ?, description = ?, last_fetched = ?, created_at = ?, updated_at = ? WHERE id = ?" ex_db1 = false ->
        no_fault "rowsAffected" ex_db1 = false -> e = "feed not found").
Proof. apply UpdateFeed_missing. vm_compute. reflexivity. Defined.

Lemma UpdateFeed_ok_witness :
  let db' := fst (UpdateFeed no_fault 100 ex_feed_upd ex_db1) in
  filter (fun f => Z.eqb (fr_id f) 2) (feeds db') = [mkFeedRow 2 "B" "https://b.test/atom" "" "" 0 10 100].
Proof.
  intro db'.
  refine (proj1 (UpdateFeed_ok no_fault 100 ex_feed_upd ex_db1 db' _ _)).
  - vm_compute. reflexivity.
  - vm_compute. repeat constructor; simpl; intuition lia.
Defined.

(* ----------------------------------------------------------------- *)
(** *** Storing summaries *)

Lemma find_map_same {A} (p : A -> bool) (g : A -> A) l :
  (forall a, p (g a) = p a) -> find p (map g l) = option_map g (find p l).
Proof.
  intro Hg. induction l as [|a l IH]; [reflexivity|]. simpl. rewrite Hg.
  destruct (p a); [reflexivity|exact IH].
Qed.

Lemma find_app_none {A} (p : A -> bool) l l' :
  find p l = None -> find p (l ++ l')%list = find p l'.
Proof. induction l as [|a l IH]; simpl; [auto|]. destruct (p a); [discriminate|exact IH]. Qed.

Lemma find_insert_none {R} (p : R -> bool) key r l :
  find p l = None -> find p (insert_by_key key r l) = if p r then Some r else None.
Proof.
  induction l as [|x l IH]; intro F; simpl; [destruct (p r); reflexivity|].
  simpl in F. destruct (p x) eqn:Px; [discriminate|].
  destruct (Z.ltb (key r) (key x)); simpl.
  - destruct (p r); [reflexivity|]. rewrite Px. exact F.
  - rewrite Px. exact (IH F).
Qed.

Lemma filter_insert_false {R} (p : R -> bool) key r l :
  p r = false -> filter p (insert_by_key key r l) = filter p l.
Proof.
  intro Pr. induction l as [|x l IH]; simpl; [rewrite Pr; reflexivity|].
  destruct (Z.ltb (key r) (key x)); simpl; [rewrite Pr; reflexivity|].
  destruct (p x); rewrite IH; reflexivity.
Qed.

Lemma map_key_other {R} (key : R -> Z) (g : R -> R) id x l :
  (forall f, key f = id -> key (g f) = id) -> x <> id ->
  filter (fun f => Z.eqb (key f) x) (map (fun f => if Z.eqb (key f) id then g f else f) l)
  = filter (fun f => Z.eqb (key f) x) l.
Proof.
  intros Hg Nx. induction l as [|a l IH]; [reflexivity|]. simpl.
  destruct (Z.eqb_spec (key a) id) as [E|E]; simpl.
  - rewrite (Hg a E). destruct (Z.eqb_spec id x) as [|_]; [congruence|].
    destruct (Z.eqb_spec (key a) x) as [|_]; [congruence|]. exact IH.
  - destruct (Z.eqb (key a) x); rewrite IH; reflexivity.
Qed.

Lemma map_key_nodup {R} (key : R -> Z) (g : R -> R) id l :
  (forall f, key (g f) = key f) -> NoDup (map key l) ->
  NoDup (map key (map (fun f => if Z.eqb (key f) id then g f else f) l)).
Proof.
  intros Hg N. rewrite map_map.
  replace (map (fun f => key (if Z.eqb (key f) id then g f else f)) l) with (map key l); [exact N|].
  apply map_ext. intro a. destruct (Z.eqb (key a) id); auto.
Qed.

Lemma normalized_fields now s0 :
  Sm.ArticleID (normalized_summary now s0) = Sm.ArticleID s0
  /\ Sm.Content (normalized_summary now s0) = Sm.Content s0
  /\ Sm.Model (normalized_summary now s0) = Sm.Model s0.
Proof. unfold normalized_summary. destruct (IsZero _); auto. Qed.

Lemma UpsertSummary_ok_inv fault now s0 db db' s :
  UpsertSummary fault now s0 db = (db', Ok s) ->
  (exists r, find (fun x => Z.eqb (sr_article_id x) (Sm.ArticleID s0)) (summaries db) = Some r
     /\ s = set_summary_ID (normalized_summary now s0) (sr_id r)
     /\ db' = update_summary_rows s db)
  \/ (find (fun x => Z.eqb (sr_article_id x) (Sm.ArticleID s0)) (summaries db) = None
     /\ article_exists db (Sm.ArticleID s0) = true
     /\ exists id, new_rowid (rowid_draw db) (map sr_id (summaries db)) = Some id
     /\ s = set_summary_ID (normalized_summary now s0) id
     /\ db' = with_summaries db (insert_by_key sr_id
               (mkSummaryRow id (Sm.ArticleID s0)
                  (Sm.Content s0) (Sm.Model s0) (timeToUnix (Sm.GeneratedAt (normalized_summary now s0))))
               (summaries db))).
Proof.
  unfold UpsertSummary, autocommit, exec at 1. fold (normalized_summary now s0).
  destruct (fault "SELECT id FROM summaries WHERE article_id = ?" db); [intro H; inversion H|].
  destruct (find _ (summaries db)) as [r|] eqn:F.
  - destruct (Z.eqb_spec (sr_id r) 0) as [Z0|Z0]; simpl.
    + (* a row of id 0: the INSERT hits the UNIQUE constraint *)
      unfold exec, insert_summary_auto.
      destruct (fault "INSERT INTO summaries (article_id, content, model, generated_at) VALUES (?, ?, ?, ?)" db);
        [intro H; inversion H|].
      destruct (new_rowid _ _); [|intro H; inversion H].
      apply find_some_existsb in F. simpl.
      destruct (normalized_fields now s0) as (E1 & _ & _). rewrite E1, F. intro H; inversion H.
    + unfold exec.
      destruct (fault "UPDATE summaries SET content = ?, model = ?, generated_at = ? WHERE article_id = ?" db);
        intro H; inversion H; subst. left. eauto.
  - simpl. unfold exec, insert_summary_auto.
    destruct (fault "INSERT INTO summaries (article_id, content, model, generated_at) VALUES (?, ?, ?, ?)" db);
      [intro H; inversion H|].
    destruct (new_rowid _ _) as [id|] eqn:N; [|intro H; inversion H].
    destruct (normalized_fields now s0) as (E1 & E2 & E3).
    simpl. rewrite E1, (find_none_existsb _ _ F).
    destruct (article_exists db (Sm.ArticleID s0)) eqn:A; simpl; [|intro H; inversion H].
    unfold lastInsertID, exec. case_fault "lastInsertID"; intro H; inversion H; subst.
    right. rewrite ?E1, ?E2, ?E3. eauto 7.
Qed.

(** X8. After a successful [UpsertSummary], [FindSummary] of the article returns the stored summary; summaries of other articles and the other tables are unchanged. *)
Theorem UpsertSummary_FindSummary fault now s0 db db' s :
  UpsertSummary fault now s0 db = (db', Ok s) ->
  s = set_summary_ID (if IsZero (Sm.GeneratedAt s0) then set_GeneratedAt s0 now else s0) (Sm.ID s)
  /\ (fault "SELECT id, article_id, content, model, generated_at FROM summaries WHERE article_id = ?" db' = false ->
      FindSummary fault (Sm.ArticleID s0) db'
      = (set_GeneratedAt s (timeFromUnix (timeToUnix (Sm.GeneratedAt s))), true))
  /\ (forall x, x <> Sm.ArticleID s0 -> summaries_for db' x = summaries_for db x)
  /\ with_summaries db' (summaries db) = db
  /\ (NoDup (map sr_article_id (summaries db)) -> NoDup (map sr_article_id (summaries db'))).
Proof.
  fold (normalized_summary now s0).
  destruct (normalized_fields now s0) as (E1 & E2 & E3).
  intro H. apply UpsertSummary_ok_inv in H as [(r & F & -> & ->) | (F & A & id & _ & -> & ->)].
  - pose proof F as Fr. apply find_some in Fr as [_ Er]. apply Z.eqb_eq in Er.
    split; [reflexivity|]. split; [|split; [|split]].
    + intro NF. unfold FindSummary, exec. rewrite NF. unfold update_summary_rows. simpl.
      rewrite find_map_same.
      * rewrite F. simpl. rewrite E1, Er, Z.eqb_refl. unfold summary_of, set_GeneratedAt, set_summary_ID. simpl. rewrite ?E1.
        reflexivity.
      * intro a. simpl. rewrite E1. destruct (Z.eqb (sr_article_id a) (Sm.ArticleID s0)) eqn:Ea;
          [simpl; exact Ea|exact Ea].
    + intros x Nx. unfold summaries_for, update_summary_rows. simpl. rewrite E1.
      apply map_key_other; [intros f Ef; exact Ef|exact Nx].
    + destruct db; reflexivity.
    + intro N. unfold update_summary_rows. simpl.
      apply map_key_nodup; [reflexivity|exact N].
  - split; [reflexivity|]. split; [|split; [|split]].
    + intro NF. unfold FindSummary, exec. rewrite NF. simpl. rewrite find_insert_none by exact F.
      simpl. rewrite Z.eqb_refl. unfold summary_of, set_GeneratedAt, set_summary_ID. simpl. rewrite E1, E2, E3. reflexivity.
    + intros x Nx. unfold summaries_for. simpl. rewrite filter_insert_false; [reflexivity|].
      simpl. destruct (Z.eqb_spec (Sm.ArticleID s0) x) as [|_]; [congruence|reflexivity].
    + destruct db; reflexivity.
    + intro N. simpl.
      refine (Permutation_NoDup (Permutation_map _ (Permutation_sym (insert_by_key_perm _ _ _))) _).
      simpl. constructor; [|exact N].
      intro Ix. apply find_none_existsb in F.
      apply in_map_iff in Ix as (y & Ey & Iy).
      assert (T : existsb (fun s => Z.eqb (sr_article_id s) (Sm.ArticleID s0)) (summaries db) = true)
        by (apply existsb_exists; exists y; rewrite Ey, Z.eqb_refl; auto).
      congruence.
Qed.

(** X9. [UpsertSummary] for an article that does not exist changes nothing and reports the foreign key failure (unless the rowid allocation fails first, with [SQLITE_FULL]). *)
Theorem UpsertSummary_missing_article fault now s0 db :
  article_exists db (Sm.ArticleID s0) = false -> summaries_for db (Sm.ArticleID s0) = [] ->
  exists e, UpsertSummary fault now s0 db = (db, Err e)
    /\ (fault "SELECT id FROM summaries WHERE article_id = ?" db = false ->
        fault "INSERT INTO summaries (article_id, content, model, generated_at) VALUES (?, ?, ?, ?)" db = false ->
        new_rowid (rowid_draw db) (map sr_id (summaries db)) <> None ->
        e = "FOREIGN KEY constraint failed").
Proof.
  intros A S. unfold summaries_for in S.
  assert (F : find (fun x => Z.eqb (sr_article_id x) (Sm.ArticleID s0)) (summaries db) = None).
  { destruct (find _ _) as [r|] eqn:F; [|reflexivity].
    apply find_some in F as [I E]. assert (In r []) by (rewrite <- S; apply filter_In; auto).
    contradiction. }
  destruct (normalized_fields now s0) as (E1 & _ & _).
  unfold UpsertSummary, autocommit, exec. fold (normalized_summary now s0).
  destruct (fault "SELECT id FROM summaries WHERE article_id = ?" db);
    [eexists; split; [reflexivity|discriminate]|].
  rewrite F. simpl.
  destruct (fault "INSERT INTO summaries (article_id, content, model, generated_at) VALUES (?, ?, ?, ?)" db);
    [eexists; split; [reflexivity|discriminate]|].
  unfold insert_summary_auto.
  destruct (new_rowid _ _); [|eexists; split; [reflexivity|intros _ _ []; reflexivity]].
  simpl. rewrite E1, (find_none_existsb _ _ F), A.
  eexists. split; reflexivity.
Qed.

(** X10. When the stored summary row of the article has id 0, [UpsertSummary] takes the insert path and fails with the unique constraint (unless the rowid allocation fails first, with [SQLITE_FULL]), changing nothing. *)
Theorem UpsertSummary_zero_id fault now s0 db r :
  find (fun x => Z.eqb (sr_article_id x) (Sm.ArticleID s0)) (summaries db) = Some r -> sr_id r = 0 ->
  exists e, UpsertSummary fault now s0 db = (db, Err e)
    /\ (fault "SELECT id FROM summaries WHERE article_id = ?" db = false ->
        fault "INSERT INTO summaries (article_id, content, model, generated_at) VALUES (?, ?, ?, ?)" db = false ->
        new_rowid (rowid_draw db) (map sr_id (summaries db)) <> None ->
        e = "UNIQUE constraint failed: summaries.article_id").
Proof.
  intros F Z0.
  destruct (normalized_fields now s0) as (E1 & _ & _).
  unfold UpsertSummary, autocommit, exec. fold (normalized_summary now s0).
  destruct (fault "SELECT id FROM summaries WHERE article_id = ?" db);
    [eexists; split; [reflexivity|discriminate]|].
  rewrite F, Z0. simpl.
  destruct (fault "INSERT INTO summaries (article_id, content, model, generated_at) VALUES (?, ?, ?, ?)" db);
    [eexists; split; [reflexivity|discriminate]|].
  unfold insert_summary_auto.
  destruct (new_rowid _ _); [|eexists; split; [reflexivity|intros _ _ []; reflexivity]].
  simpl. rewrite E1, (find_some_existsb _ _ _ F).
  eexists. split; reflexivity.
Qed.

Lemma UpsertSummary_FindSummary_witness :
  let p := UpsertSummary no_fault 100 ex_summary ex_db1 in
  let s := ok_or ex_summary (snd p) in
  FindSummary no_fault 1 (fst p) = (set_GeneratedAt s (timeFromUnix (timeToUnix (Sm.GeneratedAt s))), true)
  /\ Sm.GeneratedAt s = 100.
Proof.
  intros p s. split; [|vm_compute; reflexivity].
  refine (proj1 (proj2 (UpsertSummary_FindSummary no_fault 100 ex_summary ex_db1 (fst p) s _)) _);
    vm_compute; reflexivity.
Defined.

Lemma UpsertSummary_missing_article_witness :
  exists e, UpsertSummary no_fault 100 (Sm.mkSummary 0 9 "text" "model" 0) ex_db1 = (ex_db1, Err e)
    /\ (no_fault "SELECT id FROM summaries WHERE article_id = ?" ex_db1 = false ->
        no_fault "INSERT INTO summaries (article_id, content, model, generated_at) VALUES (?, ?, ?, ?)" ex_db1 = false ->
        new_rowid (rowid_draw ex_db1) (map sr_id (summaries ex_db1)) <> None ->
        e = "FOREIGN KEY constraint failed").
Proof. apply UpsertSummary_missing_article; vm_compute; reflexivity. Defined.

Lemma UpsertSummary_zero_id_witness :
  exists e, UpsertSummary no_fault 100 ex_summary ex_db_sum0 = (ex_db_sum0, Err e)
    /\ (no_fault "SELECT id FROM summaries WHERE article_id = ?" ex_db_sum0 = false ->
        no_fault "INSERT INTO summaries (article_id, content, model, generated_at) VALUES (?, ?, ?, ?)" ex_db_sum0 = false ->
        new_rowid (rowid_draw ex_db_sum0) (map sr_id (summaries ex_db_sum0)) <> None ->
        e = "UNIQUE constraint failed: summaries.article_id").
Proof. apply (UpsertSummary_zero_id _ _ _ _ (mkSummaryRow 0 1 "old" "model" 5)); vm_compute; reflexivity. Defined.

(* ----------------------------------------------------------------- *)
(** *** Updating articles *)

Lemma map_key_hit {R} (key : R -> Z) (v : R) id l :
  key v = id ->
  filter (fun f => Z.eqb (key f) id) (map (fun f => if Z.eqb (key f) id then v else f) l)
  = map (fun _ => v) (filter (fun f => Z.eqb (key f) id) l).
Proof.
  intro Hv. induction l as [|a l IH]; [reflexivity|]. simpl.
  destruct (Z.eqb (key a) id) eqn:E; simpl; rewrite ?Hv, ?Z.eqb_refl, ?E, IH; reflexivity.
Qed.

Lemma map_key_ids {R} (key : R -> Z) (v : R) id l :
  key v = id -> map key (map (fun f => if Z.eqb (key f) id then v else f) l) = map key l.
Proof.
  intro Hv. rewrite map_map. apply map_ext. intro a.
  destruct (Z.eqb_spec (key a) id); congruence.
Qed.

(** X11. [UpdateArticle] of an unknown id changes nothing and reports "article not found". *)
Theorem UpdateArticle_missing fault article0 db :
  article_exists db (Art.ID article0) = false ->
  exists e, UpdateArticle fault article0 db = (db, Err e)
    /\ (fault "UPDATE articles SET feed_id = ?, guid = ?, title = ?, url = ?, base_url = ?, author = ?, content = ?, content_text = ?, published_at = ?, fetched_at = ?, is_read = ?, is_starred = ?, feed_title = ? WHERE id = ?" db = false ->
        fault "rowsAffected" db = false -> e = "article not found").
Proof.
  intro H. unfold article_exists in H. rewrite (keyed_existsb ar_id) in H.
  assert (Ei : forall a : Article, Art.ID (if String.eqb (Art.BaseURL a) "" then set_BaseURL a (baseURL (Art.URL a)) else a) = Art.ID a)
    by (intro a; destruct (String.eqb _ _); reflexivity).
  unfold UpdateArticle, autocommit, rowsAffected, exec.
  destruct (fault "UPDATE articles SET feed_id = ?, guid = ?, title = ?, url = ?, base_url = ?, author = ?, content = ?, content_text = ?, published_at = ?, fetched_at = ?, is_read = ?, is_starred = ?, feed_title = ? WHERE id = ?" db).
  - eexists. split; [reflexivity|discriminate].
  - unfold update_article_stmt. rewrite Ei.
    destruct (filter (fun r => Z.eqb (ar_id r) (Art.ID article0)) (articles db)) eqn:Hit; [|discriminate].
    simpl. rewrite (keyed_map_id ar_id _ _ _ Hit).
    replace (with_articles db (articles db)) with db by (destruct db; reflexivity).
    destruct (fault "rowsAffected" db); eexists; (split; [reflexivity|]); [discriminate|auto].
Qed.

(** X12. A successful [UpdateArticle] rewrites exactly the row of the article id, with a blank base URL recomputed, and changes no other row or table. *)
Theorem UpdateArticle_ok fault article0 db db' :
  UpdateArticle fault article0 db = (db', Ok tt) -> NoDup (map ar_id (articles db)) ->
  filter (fun r => Z.eqb (ar_id r) (Art.ID article0)) (articles db')
    = [article_row_of (filled_article article0) (Art.ID article0)]
  /\ (forall x, x <> Art.ID article0 ->
        filter (fun r => Z.eqb (ar_id r) x) (articles db') = filter (fun r => Z.eqb (ar_id r) x) (articles db))
  /\ map ar_id (articles db') = map ar_id (articles db)
  /\ with_articles db' (articles db) = db.
Proof.
  unfold UpdateArticle, autocommit, exec at 1. fold (filled_article article0).
  assert (Ei : Art.ID (filled_article article0) = Art.ID article0)
    by (unfold filled_article; destruct (String.eqb _ _); reflexivity).
  destruct (fault "UPDATE articles SET feed_id = ?, guid = ?, title = ?, url = ?, base_url = ?, author = ?, content = ?, content_text = ?, published_at = ?, fetched_at = ?, is_read = ?, is_starred = ?, feed_title = ? WHERE id = ?" db);
    [intro H; inversion H|].
  unfold update_article_stmt. rewrite Ei.
  set (hit := filter (fun r => Z.eqb (ar_id r) (Art.ID article0)) (articles db)).
  destruct (negb (Nat.eqb (length hit) 0) && _) eqn:U; [intro H; inversion H|].
  unfold rowsAffected, exec. case_fault "rowsAffected"; [intro H; inversion H|].
  destruct (Z.eqb (Z.of_nat (length hit)) 0) eqn:Z0; intro H; inversion H; subst; clear H.
  intro N.
  assert (L : length hit = 1%nat).
  { pose proof (keyed_nodup_le ar_id (Art.ID article0) (articles db) N) as H. fold hit in H.
    destruct (length hit) as [|[|k]]; [discriminate|reflexivity|lia]. }
  split; [|split; [|split]]; simpl.
  - rewrite map_key_hit by reflexivity. fold hit.
    destruct hit as [|h [|h' t]]; [discriminate|reflexivity|discriminate].
  - intros x Nx. apply map_key_other; [reflexivity|exact Nx].
  - apply map_key_ids. reflexivity.
  - destruct db; reflexivity.
Qed.

Lemma UpdateArticle_missing_witness :
  exists e, UpdateArticle no_fault (Art.mkArticle 9 1 "g" "" "" "" "" "" "" 0 0 false false "") ex_db1
            = (ex_db1, Err e)
    /\ (no_fault "UPDATE articles SET feed_id = ?, guid = ?, title = ?, url = ?, base_url = ?, author = ?, content = ?, content_text = ?, published_at = ?, fetched_at = ?, is_read = ?, is_starred = ?, feed_title = ? WHERE id = ?" ex_db1 = false ->
        no_fault "rowsAffected" ex_db1 = false -> e = "article not found").
Proof. apply UpdateArticle_missing. vm_compute. reflexivity. Defined.

Lemma UpdateArticle_ok_witness :
  let db' := fst (UpdateArticle no_fault ex_article_upd ex_db1) in
  filter (fun r => Z.eqb (ar_id r) 1) (articles db')
    = [article_row_of (filled_article ex_article_upd) 1]
  /\ Art.BaseURL (filled_article ex_article_upd) = "https://x.test/p".
Proof.
  intro db'. split; [|vm_compute; reflexivity].
  refine (proj1 (UpdateArticle_ok no_fault ex_article_upd ex_db1 db' _ _)).
  - vm_compute. reflexivity.
  - repeat constructor; intros [].
Defined.

(* ----------------------------------------------------------------- *)
(** *** Retention and cleanup *)

Lemma retention_window_exact days :
  -106751 <= days <= 106751 -> retention_window days = - days * 86400000000000.
Proof.
  intro H. unfold retention_window, wrap64, hour_ns.
  Z.div_mod_to_equations. lia.
Qed.

Lemma time_add_nosat t d :
  - 2 ^ 62 - 2 ^ 40 <= (unix_nano t + d) / nano_per_sec <= 2 ^ 62 + 2 ^ 40 ->
  time_add t d = mkTime (unix_nano t + d) (loc t).
Proof.
  intro H. unfold time_add. cbv zeta.
  destruct (Z.ltb_spec (2 ^ 63 - 1) ((unix_nano t + d) / nano_per_sec + year1_sec));
    [unfold year1_sec in *; lia|].
  destruct (Z.ltb_spec ((unix_nano t + d) / nano_per_sec + year1_sec) (- 2 ^ 63));
    [unfold year1_sec in *; lia|].
  f_equal. pose proof (Z.div_mod (unix_nano t + d) nano_per_sec ltac:(discriminate)).
  unfold nano_per_sec, year1_sec in *. lia.
Qed.

Lemma retention_cutoff_small now days :
  -106751 <= days <= 106751 ->
  retention_cutoff now days = timeToUnix (time_add now (- days * 86400 * nano_per_sec)).
Proof.
  intro H. unfold retention_cutoff. rewrite retention_window_exact by exact H.
  f_equal. f_equal. unfold nano_per_sec. ring.
Qed.

Lemma retention_cutoff_seconds now days :
  -106751 <= days <= 106751 -> - 2 ^ 62 <= Unix now <= 2 ^ 62 ->
  retention_cutoff now days
  = if IsZero (mkTime (unix_nano now - days * 86400 * nano_per_sec) (loc now)) then 0
    else Unix now - days * 86400.
Proof.
  intros H B. rewrite retention_cutoff_small by exact H.
  unfold Unix in B.
  assert (E : (unix_nano now + - days * 86400 * nano_per_sec) / nano_per_sec
              = unix_nano now / nano_per_sec - days * 86400).
  { replace (- days * 86400 * nano_per_sec) with ((- (days * 86400)) * nano_per_sec) by ring.
    rewrite Z.div_add by discriminate. ring. }
  rewrite time_add_nosat by (rewrite E; lia).
  replace (unix_nano now + - days * 86400 * nano_per_sec)
    with (unix_nano now - days * 86400 * nano_per_sec) in * by ring.
  unfold timeToUnix. destruct (IsZero _); [reflexivity|].
  unfold Unix. cbn [unix_nano]. exact E.
Qed.

(** X13. For a retention of at most 106751 days either way, the cutoff of [DeleteOldArticles] is [timeToUnix] of now moved back by that many days, the duration not overflowing; in Unix seconds, it is now minus that many days (0 when that is Go's zero time), for any now within 2^62 seconds of 1970. *)
Theorem retention_cutoff_exact now days :
  -106751 <= days <= 106751 ->
  retention_cutoff now days = timeToUnix (time_add now (- days * 86400 * nano_per_sec))
  /\ (- 2 ^ 62 <= Unix now <= 2 ^ 62 ->
      retention_cutoff now days
      = if IsZero (mkTime (unix_nano now - days * 86400 * nano_per_sec) (loc now)) then 0
        else Unix now - days * 86400).
Proof.
  intro H. split; [exact (retention_cutoff_small now days H)|].
  exact (retention_cutoff_seconds now days H).
Qed.

Lemma retention_window_overflow days :
  106752 <= days <= 213503 -> retention_window days = 2 ^ 64 - days * 86400000000000.
Proof.
  intro H. unfold retention_window, wrap64, hour_ns.
  Z.div_mod_to_equations. lia.
Qed.

Lemma retention_cutoff_future now days :
  - 2 ^ 62 <= Unix now <= 2 ^ 62 -> -106751 <= days <= -1 \/ 106752 <= days <= 213503 ->
  Unix now < retention_cutoff now days.
Proof.
  intros B Hd.
  assert (W : 1000000000 <= retention_window days <= 10000000000 * 1000000000).
  { destruct Hd as [H|H];
      [rewrite retention_window_exact by lia | rewrite retention_window_overflow by exact H]; lia. }
  unfold Unix in *.
  assert (Q : unix_nano now / nano_per_sec < (unix_nano now + retention_window days) / nano_per_sec
              <= unix_nano now / nano_per_sec + 10000000000).
  { unfold nano_per_sec. Z.div_mod_to_equations. lia. }
  unfold retention_cutoff. rewrite time_add_nosat by lia.
  unfold timeToUnix, IsZero, Unix. cbn [unix_nano].
  destruct (Z.eqb_spec (unix_nano now + retention_window days) (unix_nano zero_time)) as [E|_]; [|lia].
  unfold zero_time in E. cbn [unix_nano] in E. unfold nano_per_sec in *.
  Z.div_mod_to_equations. lia.
Qed.

Lemma filter_key_keep {R} (key : R -> Z) (h : Z -> bool) x l :
  filter (fun s => Z.eqb (key s) x) (filter (fun s => h (key s)) l)
  = if h x then filter (fun s => Z.eqb (key s) x) l else [].
Proof.
  induction l as [|s l IH]; simpl; [destruct (h x); reflexivity|].
  destruct (Z.eqb_spec (key s) x) as [E|N].
  - subst x. destruct (h (key s)); simpl; rewrite ?Z.eqb_refl, IH; reflexivity.
  - destruct (h (key s)); simpl; [destruct (Z.eqb_spec (key s) x); [congruence|]|]; exact IH.
Qed.

Lemma CleanupOrphanSummaries_tables fault db :
  let db' := CleanupOrphanSummaries fault db in
  feeds db' = feeds db /\ articles db' = articles db /\ deleted db' = deleted db
  /\ article_sources db' = article_sources db
  /\ (summaries db' = summaries db
      \/ summaries db' = filter (fun s => article_exists db (sr_article_id s)) (summaries db))
  /\ (saved db' = saved db
      \/ saved db' = filter (fun s => article_exists db (sv_article_id s)) (saved db)).
Proof.
  unfold CleanupOrphanSummaries, autocommit, exec.
  destruct (fault "DELETE FROM summaries WHERE article_id NOT IN (SELECT id FROM articles)" db);
    simpl; [destruct (fault "DELETE FROM saved WHERE article_id NOT IN (SELECT id FROM articles)" db)
           |destruct (fault "DELETE FROM saved WHERE article_id NOT IN (SELECT id FROM articles)" _)];
    simpl; repeat split; auto.
Qed.

Lemma CleanupOrphanSummaries_for fault db x :
  let db' := CleanupOrphanSummaries fault db in
  (article_exists db x = true -> summaries_for db' x = summaries_for db x /\ saved_for db' x = saved_for db x)
  /\ (summaries_for db x = [] -> summaries_for db' x = [])
  /\ (saved_for db x = [] -> saved_for db' x = []).
Proof.
  destruct (CleanupOrphanSummaries_tables fault db) as (_ & _ & _ & _ & S & V).
  unfold summaries_for, saved_for.
  split; [intro A; split|split; intro E].
  - destruct S as [-> | ->]; [reflexivity|]. rewrite (filter_key_keep sr_article_id (article_exists db)), A.
    reflexivity.
  - destruct V as [-> | ->]; [reflexivity|]. rewrite (filter_key_keep sv_article_id (article_exists db)), A.
    reflexivity.
  - destruct S as [-> | ->]; [exact E|]. rewrite (filter_key_keep sr_article_id (article_exists db)), E.
    destruct (article_exists db x); reflexivity.
  - destruct V as [-> | ->]; [exact E|]. rewrite (filter_key_keep sv_article_id (article_exists db)), E.
    destruct (article_exists db x); reflexivity.
Qed.

(** X14. [CleanupOrphanSummaries] touches only summaries and bookmarks, keeps those of existing articles, and removes all others when its deletes do not fail. *)
Theorem CleanupOrphanSummaries_effect fault db :
  let db' := CleanupOrphanSummaries fault db in
  feeds db' = feeds db /\ articles db' = articles db /\ deleted db' = deleted db
  /\ article_sources db' = article_sources db
  /\ (forall x, article_exists db x = true ->
        summaries_for db' x = summaries_for db x /\ saved_for db' x = saved_for db x)
  /\ (fault "DELETE FROM summaries WHERE article_id NOT IN (SELECT id FROM articles)" db = false ->
      Forall (fun s => article_exists db (sr_article_id s) = true) (summaries db'))
  /\ ((forall d, fault "DELETE FROM saved WHERE article_id NOT IN (SELECT id FROM articles)" d = false) ->
      Forall (fun s => article_exists db (sv_article_id s) = true) (saved db')).
Proof.
  intro db'.
  destruct (CleanupOrphanSummaries_tables fault db) as (F & A & D & Src & _ & _).
  split; [exact F|]. split; [exact A|]. split; [exact D|]. split; [exact Src|].
  split; [intros x Ex; exact (proj1 (CleanupOrphanSummaries_for fault db x) Ex)|].
  unfold db', CleanupOrphanSummaries, autocommit, exec. split.
  - intro NF. rewrite NF.
    destruct (fault "DELETE FROM saved WHERE article_id NOT IN (SELECT id FROM articles)" _);
      simpl; apply Forall_forall; intros s I; apply filter_In in I; apply I.
  - intro NF. rewrite NF.
    destruct (fault "DELETE FROM summaries WHERE article_id NOT IN (SELECT id FROM articles)" db);
      simpl; apply Forall_forall; intros s I; apply filter_In in I; apply I.
Qed.

Lemma DeleteOldArticles_spec fault now days db db' n :
  DeleteOldArticles fault now days db = (db', n) ->
  (db' = db /\ n = 0)
  \/ (let p := fetched_before (retention_cutoff now days) in
      n = Z.of_nat (length (filter p (articles db)))
      /\ articles db' = filter (fun r => negb (p r)) (articles db)
      /\ feeds db' = feeds db /\ deleted db' = deleted db
      /\ (forall x, removed_article p db x = true -> summaries_for db' x = [] /\ saved_for db' x = [])
      /\ (NoDup (map ar_id (articles db)) -> forall x, article_exists db' x = true ->
            summaries_for db' x = summaries_for db x /\ saved_for db' x = saved_for db x)).
Proof.
  unfold DeleteOldArticles, autocommit, exec.
  destruct (fault "SELECT COUNT(*) FROM articles WHERE fetched_at < ?" db);
    [intro H; inversion H; subst; left; auto|].
  destruct (fault "DELETE FROM articles WHERE fetched_at < ?" db);
    [intro H; inversion H; subst; left; auto|].
  intro H; inversion H; subst; clear H. right. simpl. set (p := fetched_before (retention_cutoff now days)).
  set (d1 := delete_articles_where p db).
  destruct (CleanupOrphanSummaries_tables fault d1) as (F & A & D & _ & _ & _).
  rewrite F, A, D. split; [reflexivity|]. split; [reflexivity|]. split; [reflexivity|].
  split; [reflexivity|]. split.
  - intros x R.
    destruct (CleanupOrphanSummaries_for fault d1 x) as (_ & S & V).
    split; [apply S|apply V]; unfold summaries_for, saved_for, d1, delete_articles_where; simpl.
    + rewrite (filter_key_filter sr_article_id (removed_article p db)), R. reflexivity.
    + rewrite (filter_key_filter sv_article_id (removed_article p db)), R. reflexivity.
  - intros N x Ex. unfold article_exists in Ex. rewrite A in Ex. fold (article_exists d1 x) in Ex.
    destruct (CleanupOrphanSummaries_for fault d1 x) as (L & _ & _).
    rewrite (proj1 (L Ex)), (proj2 (L Ex)).
    pose proof (kept_not_removed p db x N Ex) as K.
    unfold summaries_for, saved_for, d1, delete_articles_where; simpl.
    rewrite (filter_key_filter sr_article_id (removed_article p db)),
            (filter_key_filter sv_article_id (removed_article p db)), K.
    split; reflexivity.
Qed.

(** X15. [DeleteOldArticles] either changes nothing and returns 0, or removes exactly the articles fetched before the cutoff with their summaries and bookmarks, returns their number and keeps everything else. *)
Theorem DeleteOldArticles_effect fault now days db db' n :
  DeleteOldArticles fault now days db = (db', n) ->
  (db' = db /\ n = 0)
  \/ (let p := fetched_before (retention_cutoff now days) in
      n = Z.of_nat (length (filter p (articles db)))
      /\ articles db' = filter (fun r => negb (p r)) (articles db)
      /\ feeds db' = feeds db /\ deleted db' = deleted db
      /\ (forall x, removed_article p db x = true -> summaries_for db' x = [] /\ saved_for db' x = [])
      /\ (NoDup (map ar_id (articles db)) -> forall x, article_exists db' x = true ->
            summaries_for db' x = summaries_for db x /\ saved_for db' x = saved_for db x)).
Proof. exact (DeleteOldArticles_spec fault now days db db' n). Qed.

Lemma filter_negb_all {A} (p : A -> bool) l :
  (forall x, In x l -> p x = true) -> filter (fun x => negb (p x)) l = [].
Proof.
  induction l as [|a l IH]; simpl; [auto|]. intro H.
  rewrite (H a (or_introl eq_refl)). apply IH. auto.
Qed.

Lemma filter_all {A} (p : A -> bool) l :
  (forall x, In x l -> p x = true) -> filter p l = l.
Proof.
  induction l as [|a l IH]; simpl; [auto|]. intro H.
  rewrite (H a (or_introl eq_refl)), IH; auto.
Qed.

(** X16. With a retention between -106751 and -1 days (the cutoff moves forward), or between 106752 and 213503 days (the duration wraps around), [DeleteOldArticles] removes every article fetched up to now, for any now within 2^62 seconds of 1970. *)
Theorem DeleteOldArticles_far_retention fault now days db db' n :
  DeleteOldArticles fault now days db = (db', n) ->
  - 2 ^ 62 <= Unix now <= 2 ^ 62 -> -106751 <= days <= -1 \/ 106752 <= days <= 213503 ->
  Forall (fun r => ar_fetched_at r <= Unix now) (articles db) ->
  (db' = db /\ n = 0) \/ (articles db' = [] /\ n = Z.of_nat (length (articles db))).
Proof.
  intros H Z0 Hd Fa. apply DeleteOldArticles_spec in H as [L|(En & Ea & _)]; [left; exact L|right].
  pose proof (retention_cutoff_future now days Z0 Hd) as C.
  assert (P : forall r, In r (articles db) -> fetched_before (retention_cutoff now days) r = true).
  { intros r I. rewrite Forall_forall in Fa. specialize (Fa r I).
    unfold fetched_before. apply Z.ltb_lt. lia. }
  split; [rewrite Ea; exact (filter_negb_all _ _ P)|].
  rewrite En, (filter_all _ _ P). reflexivity.
Qed.

Lemma retention_cutoff_exact_witness :
  retention_cutoff 1700000000 30 = 1697408000.
Proof.
  rewrite (proj2 (retention_cutoff_exact 1700000000 30 ltac:(lia)) ltac:(split; vm_compute; discriminate)).
  vm_compute. reflexivity.
Defined.

Lemma CleanupOrphanSummaries_effect_witness :
  let db' := CleanupOrphanSummaries no_fault ex_db_old in
  Forall (fun s => article_exists ex_db_old (sr_article_id s) = true) (summaries db')
  /\ Forall (fun s => article_exists ex_db_old (sv_article_id s) = true) (saved db')
  /\ length (summaries db') = 2%nat.
Proof.
  intro db'. destruct (CleanupOrphanSummaries_effect no_fault ex_db_old) as (_ & _ & _ & _ & _ & S & V).
  split; [apply S; reflexivity|]. split; [apply V; reflexivity|]. vm_compute. reflexivity.
Defined.

Lemma DeleteOldArticles_effect_witness :
  let p := DeleteOldArticles no_fault 90000 1 ex_db_old in
  snd p = 1 /\ map ar_id (articles (fst p)) = [2] /\ summaries_for (fst p) 1 = [].
Proof.
  intro p.
  destruct (DeleteOldArticles_effect no_fault 90000 1 ex_db_old (fst p) (snd p) eq_refl)
    as [[E _]|(En & Ea & _ & _ & R & _)]; [vm_compute in E; discriminate|].
  split; [rewrite En; vm_compute; reflexivity|].
  split; [rewrite Ea; vm_compute; reflexivity|].
  apply (R 1). vm_compute. reflexivity.
Defined.

Lemma DeleteOldArticles_far_retention_witness :
  let p := DeleteOldArticles no_fault 90000 200000 ex_db_old in
  articles (fst p) = [] /\ snd p = 2.
Proof.
  intro p.
  assert (Z0 : - 2 ^ 62 <= Unix 90000 <= 2 ^ 62) by (split; vm_compute; discriminate).
  assert (Hd : -106751 <= 200000 <= -1 \/ 106752 <= 200000 <= 213503) by lia.
  assert (Fa : Forall (fun r => ar_fetched_at r <= Unix 90000) (articles ex_db_old))
    by (repeat constructor; vm_compute; discriminate).
  destruct (DeleteOldArticles_far_retention no_fault 90000 200000 ex_db_old (fst p) (snd p) eq_refl Z0 Hd Fa)
    as [[E _]|[Ea En]].
  - vm_compute in E. discriminate.
  - split; [exact Ea|rewrite En; reflexivity].
Defined.

(* ----------------------------------------------------------------- *)
(** *** Bookmarks *)

Lemma filter_insert_by_key {R} (key : R -> Z) (p : R -> bool) r l :
  filter p (insert_by_key key r l) = if p r then filter p (insert_by_key key r l) else filter p l.
Proof.
  destruct (p r) eqn:P; [reflexivity|].
  induction l as [|x l IH]; simpl; [rewrite P; reflexivity|].
  destruct (Z.ltb (key r) (key x)); simpl; rewrite ?P; [reflexivity|].
  destruct (p x); rewrite ?IH; reflexivity.
Qed.

Lemma filter_insert_by_key_new {R} (key : R -> Z) (p : R -> bool) r l :
  p r = true -> filter p l = [] -> filter p (insert_by_key key r l) = [r].
Proof.
  intro P. induction l as [|x l IH]; simpl; [rewrite P; reflexivity|].
  destruct (p x) eqn:Px; [discriminate|]. intro E.
  destruct (Z.ltb (key r) (key x)); simpl; rewrite ?P, ?Px; [rewrite E; reflexivity|exact (IH E)].
Qed.

Lemma saved_update_for aid rid blob t l :
  filter (fun s => Z.eqb (sv_article_id s) aid)
    (map (fun s => if Z.eqb (sv_article_id s) aid then mkSavedRow aid rid blob t else s) l)
  = map (fun _ => mkSavedRow aid rid blob t) (filter (fun s => Z.eqb (sv_article_id s) aid) l).
Proof.
  induction l as [|a l IH]; [reflexivity|]. simpl.
  destruct (Z.eqb (sv_article_id a) aid) eqn:E; simpl; rewrite ?Z.eqb_refl, ?E, IH; reflexivity.
Qed.

Lemma saved_update_other aid rid blob t x l :
  x <> aid ->
  filter (fun s => Z.eqb (sv_article_id s) x)
    (map (fun s => if Z.eqb (sv_article_id s) aid then mkSavedRow aid rid blob t else s) l)
  = filter (fun s => Z.eqb (sv_article_id s) x) l.
Proof.
  intro Nx. induction l as [|a l IH]; [reflexivity|]. simpl.
  destruct (Z.eqb_spec (sv_article_id a) aid) as [E|E]; simpl.
  - destruct (Z.eqb_spec aid x) as [|_]; [congruence|].
    destruct (Z.eqb_spec (sv_article_id a) x) as [|_]; [congruence|]. exact IH.
  - destruct (Z.eqb (sv_article_id a) x); rewrite IH; reflexivity.
Qed.

Lemma saved_update_keys aid rid blob t l :
  map sv_article_id (map (fun s => if Z.eqb (sv_article_id s) aid then mkSavedRow aid rid blob t else s) l)
  = map sv_article_id l.
Proof.
  rewrite map_map. apply map_ext. intro a. destruct (Z.eqb_spec (sv_article_id a) aid); simpl; congruence.
Qed.

Lemma filter_nil_existsb {R} (p : R -> bool) l : filter p l = [] -> existsb p l = false.
Proof.
  induction l as [|a l IH]; simpl; [auto|]. destruct (p a); [discriminate|exact IH].
Qed.

Lemma not_in_keys {R} (key : R -> Z) x l :
  filter (fun s => Z.eqb (key s) x) l = [] -> ~ In x (map key l).
Proof.
  intros E I. apply in_map_iff in I as (a & Ea & Ia).
  assert (In a (filter (fun s => Z.eqb (key s) x) l)) by (apply filter_In; rewrite Ea, Z.eqb_refl; auto).
  rewrite E in H. exact H.
Qed.

Lemma SaveToRaindrop_spec fault tagsMarshal now aid rid tags db db' :
  SaveToRaindrop fault tagsMarshal now aid rid tags db = (db', Ok tt) ->
  NoDup (map sv_article_id (saved db)) ->
  saved_for db' aid = [mkSavedRow aid rid (tagsMarshal tags) (timeToUnix now)]
  /\ (forall x, x <> aid -> saved_for db' x = saved_for db x)
  /\ NoDup (map sv_article_id (saved db'))
  /\ length (saved db') = (length (saved db) + match saved_for db aid with [] => 1 | _ => 0 end)%nat
  /\ with_saved db' (saved db) = db.
Proof.
  unfold SaveToRaindrop, autocommit, exec at 1.
  destruct (fault "tagsMarshal" db); [intro H; inversion H|].
  set (row := mkSavedRow aid rid (tagsMarshal tags) (timeToUnix now)).
  unfold exec, update_saved_stmt.
  destruct (fault "UPDATE saved SET raindrop_id = ?, tags = ?, saved_at = ? WHERE article_id = ?" db);
    [intro H; inversion H|].
  unfold rowsAffected, exec. case_fault "rowsAffected"; [intro H; inversion H|].
  fold (saved_for db aid). intros H N.
  destruct (saved_for db aid) as [|s0 rest] eqn:Hs; simpl in H.
  - (* no bookmark: the UPDATE changes nothing, the INSERT adds the row *)
    unfold saved_for in Hs. rewrite (keyed_map_id sv_article_id _ _ _ Hs) in H.
    replace (with_saved db (saved db)) with db in H by (destruct db; reflexivity).
    destruct (fault "INSERT INTO saved (article_id, raindrop_id, tags, saved_at) VALUES (?, ?, ?, ?)" db);
      [inversion H|].
    unfold insert_saved_row in H. simpl in H. rewrite (filter_nil_existsb _ _ Hs) in H.
    destruct (article_exists db aid); simpl in H; inversion H; subst; clear H.
    unfold saved_for. simpl.
    split; [apply filter_insert_by_key_new; [apply Z.eqb_refl|exact Hs]|].
    split; [intros x Nx; rewrite filter_insert_by_key; simpl;
            destruct (Z.eqb_spec aid x); [congruence|reflexivity]|].
    split; [|split; [rewrite (Permutation_length (insert_by_key_perm sv_article_id row (saved db))); simpl; lia
                    |destruct db; reflexivity]].
    apply (Permutation_NoDup (Permutation_map sv_article_id (Permutation_sym (insert_by_key_perm sv_article_id row (saved db))))).
    simpl. constructor; [exact (not_in_keys sv_article_id aid _ Hs)|exact N].
  - (* an existing bookmark: the UPDATE rewrites it *)
    inversion H; subst; clear H.
    assert (L : length (saved_for db aid) = 1%nat).
    { pose proof (keyed_nodup_le sv_article_id aid (saved db) N). unfold saved_for in *.
      destruct (length (filter _ (saved db))) as [|[|k]] eqn:E; [rewrite Hs in E; discriminate|reflexivity|lia]. }
    rewrite Hs in L. destruct rest; [|discriminate].
    unfold saved_for in *. simpl.
    split; [rewrite saved_update_for, Hs; reflexivity|].
    split; [intros x Nx; apply saved_update_other; exact Nx|].
    split; [rewrite saved_update_keys; exact N|].
    split; [rewrite length_map; lia|destruct db; reflexivity].
Qed.

(** X17. After a successful [SaveToRaindrop] the article has exactly one bookmark row with the given bookmark id, tags and time; other bookmarks and tables are unchanged and a row is added only when none existed. *)
Theorem SaveToRaindrop_ok fault tagsMarshal now aid rid tags db db' :
  SaveToRaindrop fault tagsMarshal now aid rid tags db = (db', Ok tt) ->
  NoDup (map sv_article_id (saved db)) ->
  saved_for db' aid = [mkSavedRow aid rid (tagsMarshal tags) (timeToUnix now)]
  /\ (forall x, x <> aid -> saved_for db' x = saved_for db x)
  /\ NoDup (map sv_article_id (saved db'))
  /\ length (saved db') = (length (saved db) + match saved_for db aid with [] => 1 | _ => 0 end)%nat
  /\ with_saved db' (saved db) = db.
Proof. exact (SaveToRaindrop_spec fault tagsMarshal now aid rid tags db db'). Qed.

(** X18. A successful [SaveToRaindrop] raises [SavedCount] by one for a new bookmark and leaves it unchanged for an existing one. *)
Theorem SaveToRaindrop_SavedCount fault tagsMarshal now aid rid tags db db' :
  SaveToRaindrop fault tagsMarshal now aid rid tags db = (db', Ok tt) ->
  NoDup (map sv_article_id (saved db)) ->
  fault "SELECT COUNT(*) FROM saved" db = false -> fault "SELECT COUNT(*) FROM saved" db' = false ->
  SavedCount fault db' = SavedCount fault db + match saved_for db aid with [] => 1 | _ => 0 end.
Proof.
  intros H N F F'. destruct (SaveToRaindrop_spec fault tagsMarshal now aid rid tags db db' H N)
    as (_ & _ & _ & L & _).
  unfold SavedCount, exec. rewrite F, F', L, Nat2Z.inj_add.
  destruct (saved_for db aid); reflexivity.
Qed.

(** X19. [SaveToRaindrop] for an article that does not exist changes nothing and reports the foreign key failure. *)
Theorem SaveToRaindrop_missing_article fault tagsMarshal now aid rid tags db :
  article_exists db aid = false -> saved_for db aid = [] ->
  exists e, SaveToRaindrop fault tagsMarshal now aid rid tags db = (db, Err e)
    /\ (fault "tagsMarshal" db = false ->
        fault "UPDATE saved SET raindrop_id = ?, tags = ?, saved_at = ? WHERE article_id = ?" db = false ->
        fault "rowsAffected" db = false ->
        fault "INSERT INTO saved (article_id, raindrop_id, tags, saved_at) VALUES (?, ?, ?, ?)" db = false ->
        e = "FOREIGN KEY constraint failed").
Proof.
  intros A Hs. unfold saved_for in Hs.
  unfold SaveToRaindrop, autocommit, exec.
  destruct (fault "tagsMarshal" db); [eexists; split; [reflexivity|discriminate]|].
  destruct (fault "UPDATE saved SET raindrop_id = ?, tags = ?, saved_at = ? WHERE article_id = ?" db);
    [eexists; split; [reflexivity|discriminate]|].
  unfold update_saved_stmt. rewrite Hs, (keyed_map_id sv_article_id _ _ _ Hs).
  replace (with_saved db (saved db)) with db by (destruct db; reflexivity).
  unfold rowsAffected, exec.
  destruct (fault "rowsAffected" db); [eexists; split; [reflexivity|discriminate]|]. simpl.
  destruct (fault "INSERT INTO saved (article_id, raindrop_id, tags, saved_at) VALUES (?, ?, ?, ?)" db);
    [eexists; split; [reflexivity|discriminate]|].
  unfold insert_saved_row. simpl. rewrite (filter_nil_existsb _ _ Hs), A.
  eexists. split; reflexivity.
Qed.

Lemma SaveToRaindrop_ok_witness :
  let db1 := fst (SaveToRaindrop no_fault (fun _ => "[]") 100 1 42 [] ex_db1) in
  let db2 := fst (SaveToRaindrop no_fault (fun _ => "[]") 200 1 43 [] db1) in
  saved_for db2 1 = [mkSavedRow 1 43 "[]" 200] /\ length (saved db2) = 1%nat.
Proof.
  intros db1 db2.
  assert (H1 : SaveToRaindrop no_fault (fun _ => "[]") 200 1 43 [] db1 = (db2, Ok tt))
    by (vm_compute; reflexivity).
  destruct (SaveToRaindrop_ok no_fault (fun _ => "[]") 200 1 43 [] db1 db2 H1) as (S & _ & _ & L & _).
  - vm_compute. repeat constructor. intros [].
  - split; [exact S|rewrite L; vm_compute; reflexivity].
Defined.

Lemma SaveToRaindrop_SavedCount_witness :
  let db1 := fst (SaveToRaindrop no_fault (fun _ => "[]") 100 1 42 [] ex_db1) in
  SavedCount no_fault db1 = SavedCount no_fault ex_db1 + 1.
Proof.
  intro db1.
  exact (SaveToRaindrop_SavedCount no_fault (fun _ => "[]") 100 1 42 [] ex_db1 db1
           (ltac:(vm_compute; reflexivity)) (NoDup_nil _) eq_refl eq_refl).
Defined.

Lemma SaveToRaindrop_missing_article_witness :
  exists e, SaveToRaindrop no_fault (fun _ => "[]") 100 9 42 [] ex_db1 = (ex_db1, Err e)
    /\ (no_fault "tagsMarshal" ex_db1 = false ->
        no_fault "UPDATE saved SET raindrop_id = ?, tags = ?, saved_at = ? WHERE article_id = ?" ex_db1 = false ->
        no_fault "rowsAffected" ex_db1 = false ->
        no_fault "INSERT INTO saved (article_id, raindrop_id, tags, saved_at) VALUES (?, ?, ?, ?)" ex_db1 = false ->
        e = "FOREIGN KEY constraint failed").
Proof. apply SaveToRaindrop_missing_article; vm_compute; reflexivity. Defined.

(* ----------------------------------------------------------------- *)
(** *** Round trips *)

Lemma for_each_import_feed fault xs d d' :
  for_each (import_feed fault) xs d = Ok (tt, d') ->
  Permutation (feeds d') (map (fun f => feed_row_of f (Fd.ID f)) xs ++ feeds d)%list
  /\ summaries d' = summaries d.
Proof.
  revert d. induction xs as [|x xs IH]; intros d H.
  - simpl in H. apply ret_inv in H as [_ ->]. split; reflexivity.
  - apply for_each_cons_inv in H as (d1 & H1 & H2). specialize (IH d1 H2) as [IH S].
    unfold import_feed in H1. inv_exec H1.
    destruct (existsb _ _); [discriminate|]. destruct (existsb _ _); [discriminate|].
    inversion H1; subst d1. simpl in IH, S. rewrite IH, insert_by_key_perm. split; [|exact S].
    simpl. symmetry. apply Permutation_middle.
Qed.

Lemma for_each_import_summary fault xs d d' :
  for_each (import_summary fault) xs d = Ok (tt, d') ->
  Permutation (summaries d') (map imported_summary_row xs ++ summaries d)%list
  /\ feeds d' = feeds d.
Proof.
  revert d. induction xs as [|x xs IH]; intros d H.
  - simpl in H. apply ret_inv in H as [_ ->]. split; reflexivity.
  - apply for_each_cons_inv in H as (d1 & H1 & H2). specialize (IH d1 H2) as [IH F].
    unfold import_summary in H1. inv_exec H1.
    destruct (existsb _ _); [discriminate|]. destruct (existsb _ _); [discriminate|].
    destruct (negb _); [discriminate|].
    inversion H1; subst d1. simpl in IH, F. rewrite IH, insert_by_key_perm. split; [|exact F].
    simpl. symmetry. apply Permutation_middle.
Qed.

Lemma import_keeps_feeds_summaries fault tm :
  (forall x db db', import_article fault x db = Ok (tt, db') -> feeds db' = feeds db /\ summaries db' = summaries db)
  /\ (forall x db db', import_saved fault tm x db = Ok (tt, db') -> feeds db' = feeds db /\ summaries db' = summaries db)
  /\ (forall x db db', import_deleted fault x db = Ok (tt, db') -> feeds db' = feeds db /\ summaries db' = summaries db).
Proof.
  split; [|split]; intros x db db' H.
  - unfold import_article in H. inv_exec H.
    destruct (article_exists db _); [discriminate|]. destruct (existsb _ _); [discriminate|].
    inversion H; subst. split; reflexivity.
  - unfold import_saved in H. inv_bind H. inv_exec Hm. inversion Hm; subst. inv_exec Hk.
    destruct (existsb _ _); [discriminate|]. destruct (negb _); [discriminate|].
    inversion Hk; subst. split; reflexivity.
  - unfold import_deleted in H. inv_exec H. unfold insert_deleted_auto in H.
    destruct (new_rowid _ _); inversion H; subst. split; reflexivity.
Qed.

Lemma ImportState_tables fault tm st db db' :
  ImportState fault tm st db = (db', Ok tt) ->
  Permutation (feeds db') (map (fun f => feed_row_of f (Fd.ID f)) (St.Feeds st))
  /\ Permutation (summaries db') (map imported_summary_row (St.Summaries st)).
Proof.
  unfold ImportState. destruct (negb _); [intro H; inversion H|].
  intro H. apply transact_ok in H. unfold ImportState_body in H.
  do 5 (apply bind_inv in H as ([] & ? & E1 & H); apply exec_inv in E1 as [_ E1];
         inversion E1; subst; clear E1).
  destruct (import_keeps_feeds_summaries fault tm) as (Ka & Kv & Kd).
  apply bind_inv in H as ([] & d1 & E1 & H).
  apply bind_inv in H as ([] & d2 & E2 & H).
  apply bind_inv in H as ([] & d3 & E3 & H).
  apply bind_inv in H as ([] & d4 & E4 & H).
  destruct (for_each_import_feed _ _ _ _ E1) as [P1 S1]. simpl in P1, S1. rewrite app_nil_r in P1.
  pose (Q := fun d => feeds d = feeds d1 /\ summaries d = summaries d1).
  assert (Q2 : Q d2).
  { apply (for_each_preserve Q _ (fun x d d' Hx Hd => let (A, B) := Ka x d d' Hx in
             conj (eq_trans A (proj1 Hd)) (eq_trans B (proj2 Hd))) _ _ _ E2).
    split; reflexivity. }
  destruct (for_each_import_summary _ _ _ _ E3) as [P3 F3].
  assert (Q4 : feeds db' = feeds d3 /\ summaries db' = summaries d3).
  { pose (Q' := fun d => feeds d = feeds d3 /\ summaries d = summaries d3).
    apply (for_each_preserve Q' _ (fun x d d' Hx Hd => let (A, B) := Kd x d d' Hx in
             conj (eq_trans A (proj1 Hd)) (eq_trans B (proj2 Hd))) _ _ _ H).
    apply (for_each_preserve Q' _ (fun x d d' Hx Hd => let (A, B) := Kv x d d' Hx in
             conj (eq_trans A (proj1 Hd)) (eq_trans B (proj2 Hd))) _ _ _ E4).
    split; reflexivity. }
  destruct Q2 as [F2 S2]. destruct Q4 as [F4 S4].
  rewrite F4, F3, F2, S4. split; [exact P1|].
  rewrite P3, S2, S1, app_nil_r. reflexivity.
Qed.

Lemma scan_deleted_none l : Forall (fun r => dr_base_url r = None) l -> scan_deleted l = [].
Proof. intro H. destruct l as [|r l]; [reflexivity|]. inversion H; subst. simpl. rewrite H2. reflexivity. Qed.

Lemma feed_of_row_of r : feed_of (feed_row_of (feed_of r) (Fd.ID (feed_of r))) = feed_of r.
Proof. unfold feed_of, feed_row_of. simpl. rewrite !time_roundtrip. reflexivity. Qed.

Lemma summary_of_row_of r : summary_of (imported_summary_row (summary_of r)) = summary_of r.
Proof. unfold summary_of, imported_summary_row. simpl. rewrite time_roundtrip. reflexivity. Qed.

Lemma collect_all {R} fault (rows : list R) db :
  fault "rows.Next" db = false -> collect fault rows db = Ok (rows, db).
Proof.
  intro N. induction rows as [|r rows IH]; [reflexivity|].
  cbn [collect]. unfold bind at 1, rows_next. rewrite N. cbn [negb].
  unfold bind. rewrite IH. reflexivity.
Qed.

(** A query whose statement and row iteration do not fail reads the whole table. *)
Lemma query_rows_all {R} fault sql (table : DB -> list R) db :
  fault sql db = false -> fault "rows.Next" db = false -> query_rows fault sql table db = table db.
Proof.
  intros F N. unfold query_rows, bind at 1, exec. rewrite F. rewrite (collect_all _ _ _ N). reflexivity.
Qed.

(** X20. Exporting, importing and exporting again gives the same feeds and summaries up to order, when the reads of feeds and summaries and their row iteration do not fail in the second export; it gives no articles and no deleted entries. *)
Theorem Export_Import_Export fault tagsUnmarshal tagsMarshal path path' now now' db0 st db db' st' :
  ExportState fault tagsUnmarshal path now db0 = Ok st ->
  ImportState fault tagsMarshal st db = (db', Ok tt) ->
  ExportState fault tagsUnmarshal path' now' db' = Ok st' ->
  fault "rows.Next" db' = false ->
  fault "SELECT id, title, url, site_url, description, last_fetched, created_at, updated_at FROM feeds ORDER BY id" db' = false ->
  fault "SELECT id, article_id, content, model, generated_at FROM summaries ORDER BY id" db' = false ->
  Permutation (St.Feeds st') (St.Feeds st)
  /\ Permutation (St.Summaries st') (St.Summaries st)
  /\ St.Articles st' = [] /\ St.Deleted st' = [].
Proof.
  intros E0 I E1 NR NF NS.
  destruct (ImportState_tables _ _ _ _ _ I) as [PF PS].
  destruct (ImportState_shape _ _ _ _ _ I) as [[SA SD] _].
  unfold ExportState in E0, E1.
  destruct (String.eqb path "") ; [discriminate|]. destruct (String.eqb path' ""); [discriminate|].
  destruct (fault "stateMarshalIndent" db0); [discriminate|].
  destruct (fault "stateWriteFile" db0); [discriminate|].
  destruct (fault "stateMarshalIndent" db'); [discriminate|].
  destruct (fault "stateWriteFile" db'); [discriminate|].
  inversion E0; subst st. inversion E1; subst st'. simpl in *. clear E0 E1.
  split; [|split; [|split]].
  - unfold Feeds. rewrite (query_rows_all _ _ _ _ NF NR).
    rewrite PF. unfold Feeds. rewrite map_map, map_map. apply Permutation_refl'. apply map_ext. intro r. apply feed_of_row_of.
  - unfold Summaries. rewrite (query_rows_all _ _ _ _ NS NR).
    rewrite PS. unfold Summaries. rewrite map_map, map_map. apply Permutation_refl'. apply map_ext. intro r. apply summary_of_row_of.
  - unfold Articles. destruct (query_rows_incl fault
      "SELECT id, feed_id, guid, title, url, base_url, author, content, content_text, published_at, fetched_at, is_read, is_starred, feed_title FROM articles ORDER BY id"
      articles db') as [k ->].
    apply scan_articles_none, Forall_firstn, SA.
  - unfold DeletedItems. destruct (query_rows_incl fault
      "SELECT feed_id, guid, title, url, base_url, author, content, content_text, published_at, fetched_at, is_read, is_starred, feed_title, deleted_at FROM deleted ORDER BY id"
      deleted db') as [k ->].
    apply scan_deleted_none, Forall_firstn, SD.
Qed.

Lemma Export_Import_Export_witness :
  let st := ok_or ex_state (ExportState no_fault (fun _ => []) "state.json" 0 ex_db_sum) in
  let db' := fst (ImportState no_fault (fun _ => "") st ex_db1) in
  let st' := ok_or ex_state (ExportState no_fault (fun _ => []) "again.json" 10 db') in
  Permutation (St.Summaries st') (St.Summaries st) /\ St.Articles st' = []
  /\ length (St.Summaries st) = 1%nat /\ length (St.Articles st) = 1%nat.
Proof.
  intros st db' st'.
  destruct (Export_Import_Export no_fault (fun _ => []) (fun _ => "") "state.json" "again.json" 0 10
              ex_db_sum st ex_db1 db' st') as (_ & PS & A & _).
  - vm_compute. reflexivity.
  - vm_compute. reflexivity.
  - vm_compute. reflexivity.
  - reflexivity.
  - reflexivity.
  - reflexivity.
  - split; [exact PS|]. split; [exact A|]. vm_compute. split; reflexivity.
Defined.


